(** * registry-sync: a shallow embedding of the replication core

  The development follows the Go sources package by package:

  - [GoString], [GoError]: the string and error operations the code
    relies on ([strings.Contains], [strings.ToLower], [fmt.Errorf] with
    and without [%w], [errors.Is] / [errors.As] observations); what
    [strings] and [fmt] make of text that is not plain ASCII is a
    parameter, [Text];
  - [filter]: [pkg/filter/filter.go];
  - [retry]: [pkg/sync/retry.go];
  - [registry]: [pkg/registry/client.go], [manifest.go], [blob.go];
  - [engine]: [pkg/sync/engine.go] and [pkg/sync/worker.go];
  - [scheduler]: [internal/scheduler/scheduler.go].

  Effects are explicit.  A computation of type [M S A] threads a state
  [S] and returns a value, panics, or is cut off inside a loop whose
  length is up to a server.  What the outside world does (HTTP servers,
  the rate limiter, cancellation, the clock) is an [Env] record, and the
  functions of Go's standard library that the code calls are a [Lib]
  record; a theorem that quantifies over them covers every behaviour of
  the peers. *)

From Stdlib Require Import ZArith Lia Bool List Ascii String DecimalString.
From Stdlib Require Import Permutation Sorted.
From stdpp Require Import base gmap strings.
Import ListNotations.

Local Open Scope Z_scope.

(* ===================================================================== *)
(** * Go strings *)
(* ===================================================================== *)

(** Go strings are byte sequences; [string] (a list of 8-bit [ascii]) is
  exactly that. *)
Module GoString.

(** [len(s)] *)
Definition len (s : string) : Z := Z.of_nat (String.length s).

(** [strings.HasPrefix(s, prefix)] *)
Definition HasPrefix (s prefix : string) : bool := String.prefix prefix s.

(** [strings.Contains(s, substr)] *)
Fixpoint Contains (s substr : string) : bool :=
  if String.prefix substr s then true
  else match s with
       | EmptyString => false
       | String _ s' => Contains s' substr
       end.

(** The functions of [strings] and [fmt] that go by the tables of the
    [unicode] package or by the verbs of a format: what they return for
    text that leaves plain ASCII, taken by their input/output
    behaviour. *)
Record Text := {
  (* strings.ToLower(s), for an s with a byte from 0x80 on *)
  strings_ToLower : string -> string;
  (* strings.TrimSpace(s), for an s with a byte from 0x80 on *)
  strings_TrimSpace : string -> string;
  (* fmt.Sprintf(format) without operands, for a format with a % *)
  fmt_Sprintf : string -> string
}.

(** No byte from 0x80 ([utf8.RuneSelf]) on. *)
Fixpoint isASCII (s : string) : bool :=
  match s with
  | EmptyString => true
  | String c s' => ((nat_of_ascii c <? 128)%nat && isASCII s')%bool
  end.

Definition lower_ascii (c : ascii) : ascii :=
  let n := nat_of_ascii c in
  if ((65 <=? n)%nat && (n <=? 90)%nat)%bool then ascii_of_nat (n + 32) else c.

Fixpoint lower_bytes (s : string) : string :=
  match s with
  | EmptyString => EmptyString
  | String c s' => String (lower_ascii c) (lower_bytes s')
  end.

(** [strings.ToLower(s)]: on an ASCII string the bytes [A-Z] are
    lowered; any other string is mapped rune by rune through the
    Unicode tables. *)
Definition ToLower (text : Text) (s : string) : string :=
  if isASCII s then lower_bytes s else strings_ToLower text s.

(** [fmt.Sprintf(format)] and the text of [fmt.Errorf(format)], without
    operands: a format without [%] is printed as it is. *)
Definition Sprintf (text : Text) (format : string) : string :=
  if Contains format "%" then fmt_Sprintf text format else format.

(** [fmt.Sprintf("%d", n)] *)
Definition itoa (n : Z) : string := NilZero.string_of_int (Z.to_int n).

(** [s[:n]]: a slice expression panics when [n > len(s)]; [None] is the
    panic. *)
Definition slice_to (s : string) (n : nat) : option string :=
  if (n <=? String.length s)%nat then Some (String.substring 0 n s) else None.

(** [strings.TrimPrefix(s, prefix)] *)
Definition TrimPrefix (s prefix : string) : string :=
  if String.prefix prefix s
  then String.substring (String.length prefix)
                        (String.length s - String.length prefix) s
  else s.

(** [strings.TrimLeftFunc] / [strings.TrimRightFunc] on bytes *)
Fixpoint trim_left (p : ascii -> bool) (s : string) : string :=
  match s with
  | EmptyString => EmptyString
  | String c s' => if p c then trim_left p s' else s
  end.

Fixpoint trim_right (p : ascii -> bool) (s : string) : string :=
  match s with
  | EmptyString => EmptyString
  | String c s' =>
      match trim_right p s' with
      | EmptyString => if p c then EmptyString else String c EmptyString
      | t => String c t
      end
  end.

(** [strings.TrimRight(s, "/")] *)
Definition TrimRight_slash (s : string) : string :=
  trim_right (fun c => Ascii.eqb c "/") s.

Definition is_space (c : ascii) : bool :=
  let n := nat_of_ascii c in
  ((n =? 32)%nat || ((9 <=? n)%nat && (n <=? 13)%nat))%bool.

(** [strings.TrimSpace(s)]: on an ASCII string the white space is the
    six bytes of [is_space]; for any other string Unicode says what
    white space is (U+0085, U+00A0, ...). *)
Definition TrimSpace (text : Text) (s : string) : string :=
  if isASCII s then trim_right is_space (trim_left is_space s)
  else strings_TrimSpace text s.

(** [strings.Trim] with the double quote (byte 34) as its cutset. *)
Definition Trim_quote (s : string) : string :=
  let q := fun c => (nat_of_ascii c =? 34)%nat in
  trim_right q (trim_left q s).

(** [strings.Split(s, sep)] for a one-byte separator. *)
Fixpoint Split (s : string) (sep : ascii) : list string :=
  match s with
  | EmptyString => [EmptyString]
  | String c s' =>
      if Ascii.eqb c sep then EmptyString :: Split s' sep
      else match Split s' sep with
           | [] => [String c EmptyString]
           | part :: parts => String c part :: parts
           end
  end.

(** [strings.SplitN(s, sep, 2)] for a one-byte separator: [None] when the
    result has one element, the two halves otherwise. *)
Fixpoint SplitN2 (s : string) (sep : ascii) : option (string * string) :=
  match s with
  | EmptyString => None
  | String c s' =>
      if Ascii.eqb c sep then Some (EmptyString, s')
      else match SplitN2 s' sep with
           | None => None
           | Some (l, r) => Some (String c l, r)
           end
  end.

(** Arithmetic on [int64] wraps around. *)
Definition wrap64 (z : Z) : Z := (z + 2 ^ 63) mod 2 ^ 64 - 2 ^ 63.

(** [fmt.Sprintf("%v", xs)] for a slice of strings *)
Definition show_strings (xs : list string) : string :=
  "[" +:+ String.concat " " xs +:+ "]".

(** The library of the runs below, whose text is plain ASCII without
    [%] in a format: none of its functions is reached there. *)
Definition plain_ascii : Text :=
  {| strings_ToLower := lower_bytes;
     strings_TrimSpace := fun s => trim_right is_space (trim_left is_space s);
     fmt_Sprintf := fun format => format |}.

End GoString.

(* ===================================================================== *)
(** * Go errors *)
(* ===================================================================== *)

(** An [error] value is modelled by what the code observes of it: its
  [Error()] text and the answers of [errors.Is] / [errors.As] along its
  [Unwrap] chain. *)
Module GoError.

(** The first [net.Error] of the chain, as [errors.As] finds it. *)
Record netError := { Timeout : bool; Temporary : bool }.

Record error := mkError {
  Error : string;
  is_Canceled : bool;            (* errors.Is(err, context.Canceled) *)
  is_DeadlineExceeded : bool;    (* errors.Is(err, context.DeadlineExceeded) *)
  as_netError : option netError; (* errors.As(err, &netErr) *)
  is_ECONNREFUSED : bool;
  is_ECONNRESET : bool;
  is_ETIMEDOUT : bool;
  as_DNSError : option bool      (* errors.As(err, &dnsErr), its Temporary() *)
}.

(** [fmt.Errorf(msg)] / [errors.New(msg)]: a fresh error, nothing wrapped. *)
Definition Errorf (msg : string) : error :=
  mkError msg false false None false false false None.

(** [fmt.Errorf(prefix + "%w", err)]: the text is extended, the chain is
    the chain of [err]. *)
Definition Wrapf (prefix : string) (err : error) : error :=
  mkError (prefix +:+ Error err)
          (is_Canceled err) (is_DeadlineExceeded err) (as_netError err)
          (is_ECONNREFUSED err) (is_ECONNRESET err) (is_ETIMEDOUT err)
          (as_DNSError err).

(** [context.Canceled] and [context.DeadlineExceeded] *)
Definition Canceled : error :=
  mkError "context canceled" true false None false false false None.
Definition DeadlineExceeded : error :=
  mkError "context deadline exceeded" false true
          (Some {| Timeout := true; Temporary := true |})
          false false false None.

(** Go functions returning [(T, error)]. *)
Inductive result (A : Type) : Type :=
| Ok (a : A)
| Err (e : error).
Arguments Ok {A} a.
Arguments Err {A} e.

End GoError.
Export GoError.

(* ===================================================================== *)
(** * Computations with state and panics *)
(* ===================================================================== *)

Inductive outcome (A : Type) : Type :=
| Returned (a : A)
| Panicked (msg : string)
| Unfinished.   (* a loop of the code was still running when its fuel ended *)
Arguments Returned {A} a.
Arguments Panicked {A} msg.
Arguments Unfinished {A}.

Definition M (S A : Type) : Type := S -> outcome A * S.

Definition ret {S A} (a : A) : M S A := fun s => (Returned a, s).

Definition bind {S A B} (c : M S A) (k : A -> M S B) : M S B :=
  fun s => match c s with
           | (Returned a, s') => k a s'
           | (Panicked msg, s') => (Panicked msg, s')
           | (Unfinished, s') => (Unfinished, s')
           end.

(** A result, a panic or an unfinished loop that needs no state. *)
Definition eval {S A} (o : outcome A) : M S A := fun s => (o, s).

Definition get {S} : M S S := fun s => (Returned s, s).
Definition modify {S} (f : S -> S) : M S unit := fun s => (Returned tt, f s).

Notation "x <- c ;; k" := (bind c (fun x => k))
  (at level 100, c at next level, right associativity).
Notation "c ;;; k" := (bind c (fun _ => k))
  (at level 100, right associativity).

(* ===================================================================== *)
(** * pkg/sync/retry.go *)
(* ===================================================================== *)

Module retry.
Import GoString.

(** [time.Duration] is an [int64] count of nanoseconds. *)
Record RetryConfig := {
  MaxAttempts : Z;
  InitialInterval : Z;
  MaxInterval : Z
}.

Definition Second : Z := 1000000000.

Definition DefaultRetryConfig : RetryConfig :=
  {| MaxAttempts := 5;
     InitialInterval := 1 * Second;
     MaxInterval := 30 * Second |}.

Definition retryablePatterns : list string :=
  [ "timeout"; "temporary"; "connection reset"; "connection refused";
    "too many requests"; "rate limit"; "service unavailable";
    "bad gateway"; "gateway timeout" ].

(** [err == nil] is [None]. *)
Definition isRetryableError (text : Text) (err : option error) : bool :=
  match err with
  | None => false
  | Some err =>
      if (is_Canceled err || is_DeadlineExceeded err)%bool then false
      else match as_netError err with
      | Some netErr => (Timeout netErr || Temporary netErr)%bool
      | None =>
      if (is_ECONNREFUSED err || is_ECONNRESET err || is_ETIMEDOUT err)%bool
      then true
      else match as_DNSError err with
      | Some temporary => temporary
      | None =>
      let errMsg := ToLower text (Error err) in
      if existsb (fun pattern => Contains errMsg pattern) retryablePatterns
      then true
      else
        if Contains errMsg "status code" then
          if (Contains errMsg "429" || Contains errMsg "500" ||
              Contains errMsg "502" || Contains errMsg "503" ||
              Contains errMsg "504")%bool
          then true
          else if (Contains errMsg "400" || Contains errMsg "401" ||
                   Contains errMsg "403" || Contains errMsg "404")%bool
          then false
          else false
        else false
      end end
  end.

(** [IsHTTPError(err, statusCode)] *)
Definition IsHTTPError (err : option error) (statusCode : Z) : bool :=
  match err with
  | None => false
  | Some err => Contains (Error err) (itoa statusCode)
  end.

(** [fmt.Errorf("max retries (%d) exceeded: %w", config.MaxAttempts, lastErr)];
    with a nil [lastErr] the verb prints [%!w(<nil>)] and nothing is wrapped. *)
Definition max_retries_exceeded (config : RetryConfig) (lastErr : option error)
  : error :=
  let prefix := "max retries (" +:+ itoa (MaxAttempts config) +:+ ") exceeded: " in
  match lastErr with
  | Some e => Wrapf prefix e
  | None => Errorf (prefix +:+ "%!w(<nil>)")
  end.

Section RetryWithBackoff.
Context {S : Type}.
Variable text : Text.

(** The [select] between [time.After(backoff)] and [ctx.Done()]: [None]
    when the timer fires, [Some ctx.Err()] when the context wins. *)
Variable after : Z -> M S (option error).
Variable config : RetryConfig.
Variable fn : M S (option error).

(** The [for attempt := 1; attempt <= config.MaxAttempts; attempt++] loop.
    [remaining] counts the iterations the loop condition still allows
    ([attempt + remaining = MaxAttempts + 1]); the progress line written
    to standard output is not modelled. *)
Fixpoint retry_loop (remaining : nat) (attempt backoff : Z)
         (lastErr : option error) : M S (option error) :=
  match remaining with
  | O => ret (Some (max_retries_exceeded config lastErr))
  | Datatypes.S remaining' =>
      err <- fn ;;
      match err with
      | None => ret None
      | Some e =>
          if negb (isRetryableError text (Some e))
          then ret (Some (Wrapf "non-retryable error: " e))
          else if attempt >=? MaxAttempts config
          then ret (Some (max_retries_exceeded config (Some e)))
          else
            fired <- after backoff ;;
            match fired with
            | Some ctxErr => ret (Some ctxErr)
            | None =>
                let backoff := wrap64 (backoff * 2) in
                let backoff :=
                  if backoff >? MaxInterval config
                  then MaxInterval config else backoff in
                retry_loop remaining' (attempt + 1) backoff (Some e)
            end
      end
  end.

Definition RetryWithBackoff : M S (option error) :=
  retry_loop (Z.to_nat (MaxAttempts config)) 1 (InitialInterval config) None.

End RetryWithBackoff.

End retry.

(* ===================================================================== *)
(** * HTTP as the client sees it *)
(* ===================================================================== *)

Module http.

Definition StatusOK : Z := 200.
Definition StatusCreated : Z := 201.
Definition StatusAccepted : Z := 202.
Definition StatusUnauthorized : Z := 401.
Definition StatusNotFound : Z := 404.
Definition StatusConflict : Z := 409.

Inductive Authorization : Type :=
| Basic (username password : string)   (* req.SetBasicAuth *)
| Bearer (token : string).             (* Authorization: Bearer ... *)

(** A request as [http.NewRequestWithContext] builds it.  [Body] is what
    the body reader still holds when the request is built. *)
Record Request := {
  Method : string;
  URL : string;
  Header : list (string * string);
  Auth : option Authorization;
  Body : string
}.

Record Response := {
  StatusCode : Z;
  RespHeader : list (string * string);
  RespBody : string;            (* the bytes [resp.Body] yields *)
  ReadErr : option error        (* the error that ends reading it, if any *)
}.

(** [resp.Header.Get(key)]: the empty string when the header is absent. *)
Fixpoint Header_Get (h : list (string * string)) (key : string) : string :=
  match h with
  | [] => ""
  | (k, v) :: h' => if String.eqb k key then v else Header_Get h' key
  end.

(** What one call of [HTTPClient.Do] comes back with: the response or the
    transport error, and how many bytes of the request body the transport
    read from the body reader while sending. *)
Record RoundTrip := {
  Consumed : nat;
  Reply : result Response
}.

Record Exchange := { Sent : Request; Got : RoundTrip }.

End http.
Export http.

(* ===================================================================== *)
(** * The world around one execution *)
(* ===================================================================== *)

(** Everything the code does to its surroundings is appended to the
    world; nothing is ever removed. *)
Record World := {
  wire : list Exchange;              (* HTTP round trips, oldest first *)
  slept : list Z;                    (* back-off timers that fired *)
  journal : list (string * string);  (* execution log rows: level, message *)
  notices : list (N * string);       (* notifications: channel id, status *)
  ticks : nat                        (* readings of the clock so far *)
}.

Definition initial_world : World :=
  {| wire := []; slept := []; journal := []; notices := []; ticks := 0 |}.

Definition add_exchange (x : Exchange) (w : World) : World :=
  {| wire := wire w ++ [x]; slept := slept w; journal := journal w;
     notices := notices w; ticks := ticks w |}.

Definition add_sleep (d : Z) (w : World) : World :=
  {| wire := wire w; slept := slept w ++ [d]; journal := journal w;
     notices := notices w; ticks := ticks w |}.

Definition add_log (level message : string) (w : World) : World :=
  {| wire := wire w; slept := slept w;
     journal := journal w ++ [(level, message)];
     notices := notices w; ticks := ticks w |}.

Definition add_notice (channel : N) (status : string) (w : World) : World :=
  {| wire := wire w; slept := slept w; journal := journal w;
     notices := notices w ++ [(channel, status)]; ticks := ticks w |}.

Definition add_tick (w : World) : World :=
  {| wire := wire w; slept := slept w; journal := journal w;
     notices := notices w; ticks := S (ticks w) |}.

(** The behaviour of the peers.  Each answer may depend on everything that
    happened before. *)
Record Env := {
  (* the servers, through [http.Client.Do] *)
  transport : list Exchange -> Request -> RoundTrip;
  (* [rate.Limiter.Wait(ctx)] of the enabled limiter of the client with
     this base URL *)
  limiter_Wait : string -> World -> option error;
  (* when the execution context is cancelled, if ever: after that many
     recorded events, with the error [ctx.Err()] then returns *)
  cancel_after : option (nat * error);
  (* [time.Now()]: the successive readings of the clock *)
  time_Now : nat -> Z
}.

(* ===================================================================== *)
(** * pkg/registry: data *)
(* ===================================================================== *)

Module Platform.
Record t := {
  Architecture : string;
  OS : string;
  OSVersion : string;
  OSFeatures : list string;
  Variant : string
}.
End Platform.

Module Descriptor.
Record t := {
  MediaType : string;
  Size : Z;
  Digest : string;
  Platform : option Platform.t
}.
End Descriptor.

Module ManifestEntry.
Record t := {
  MediaType : string;
  Size : Z;
  Digest : string;
  Platform : Platform.t
}.
End ManifestEntry.

Module Manifest.
Record t := {
  SchemaVersion : Z;
  MediaType : string;
  Config : Descriptor.t;
  Layers : list Descriptor.t;
  Manifests : list ManifestEntry.t;
  Raw : string;
  ContentDigest : string
}.

Definition with_Raw_ContentDigest (m : t) (raw digest : string) : t :=
  {| SchemaVersion := SchemaVersion m;
     MediaType := MediaType m;
     Config := Config m;
     Layers := Layers m;
     Manifests := Manifests m;
     Raw := raw;
     ContentDigest := digest |}.
End Manifest.

Module HarborProject.
Record t := { Name : string; ProjectID : Z; Public : bool }.
End HarborProject.

Module HarborRepository.
Record t := { Name : string; ProjectID : Z; ArtifactCount : Z }.
End HarborRepository.

Definition events (w : World) : nat :=
  (length (wire w) + length (slept w) + length (journal w)
   + length (notices w))%nat.

(** [ctx.Err()]: nil until the context is done. *)
Definition ctx_Err (env : Env) (w : World) : option error :=
  match cancel_after env with
  | Some (n, e) => if (n <=? events w)%nat then Some e else None
  | None => None
  end.

(** A compiled [*regexp.Regexp] is what [MatchString] answers. *)
Module regexp.
Definition Regexp := string -> bool.
Definition MatchString (re : Regexp) (s : string) : bool := re s.
End regexp.

(** Functions of Go's standard library whose code is outside this
    repository, taken by their input/output behaviour. *)
Record Lib := {
  (* json.Unmarshal(data, &manifest): the fields with a json tag *)
  json_Unmarshal_Manifest : string -> result Manifest.t;
  (* decoding of { "tags": [...] } *)
  json_Decode_tags : string -> result (list string);
  (* decoding of { "token": ..., "access_token": ... } *)
  json_Decode_token : string -> result (string * string);
  json_Decode_projects : string -> result (list HarborProject.t);
  json_Decode_repositories : string -> result (list HarborRepository.t);
  (* decoding of { "repositories": [...] } *)
  json_Decode_catalog : string -> result (list string);
  (* json.Unmarshal of an array of channel ids *)
  json_Unmarshal_uints : string -> result (list N);
  (* url.Parse(u), then Query(), Set(k, v) for each pair, Encode(), String() *)
  url_set_query : string -> list (string * string) -> result string;
  (* the error of http.NewRequestWithContext(ctx, method, url, body) *)
  http_NewRequest_err : string -> string -> option error;
  (* strconv.ParseInt(s, 10, 64), its error dropped *)
  strconv_ParseInt : string -> Z;
  (* json.Marshal of { "project_name": name, "metadata": { "public": ... } } *)
  json_Marshal_project : string -> bool -> result string;
  (* regexp.Compile *)
  regexp_Compile : string -> result regexp.Regexp;
  (* strings and fmt beyond plain ASCII *)
  text : GoString.Text
}.

(* ===================================================================== *)
(** * pkg/filter/filter.go *)
(* ===================================================================== *)

(** [sort.Slice] is the standard library's unstable sort.  The code only
  relies on its contract, which is what this interface states: the
  result is a rearrangement of the input, and it is ordered whenever
  [less] compares a key. *)
Class SliceSorter := {
  sort_Slice : forall {A : Type}, (A -> A -> bool) -> list A -> list A;
  sort_Slice_perm : forall (A : Type) (less : A -> A -> bool) (l : list A),
      Permutation (sort_Slice less l) l;
  sort_Slice_sorted : forall (A : Type) (key : A -> Z) (l : list A),
      StronglySorted (fun a b => key b <= key a)
                     (sort_Slice (fun a b => key b <? key a) l)
}.

Module filter.
Import regexp.

Record Filter := {
  Include : list Regexp;
  Exclude : list Regexp;
  Latest : Z
}.

(** [Updated] is a [time.Time]; only the instant matters to [After]. *)
Record TagInfo := { Name : string; Updated : Z }.

(** [t.After(u)] *)
Definition After (t u : Z) : bool := u <? t.

Definition Match (f : Filter) (tag : string) : bool :=
  if existsb (fun re => MatchString re tag) (Exclude f) then false
  else if (Z.of_nat (length (Include f)) =? 0) then true
  else if existsb (fun re => MatchString re tag) (Include f) then true
  else false.

Definition FilterTags `{SliceSorter} (f : Filter) (tags : list TagInfo)
  : list string :=
  let matched := List.filter (fun tag => Match f (Name tag)) tags in
  let matched :=
    sort_Slice (fun a b => After (Updated a) (Updated b)) matched in
  let matched :=
    if ((Latest f >? 0) && (Z.of_nat (length matched) >? Latest f))%bool
    then firstn (Z.to_nat (Latest f)) matched
    else matched in
  map Name matched.

Fixpoint compile_all (lib : Lib) (patterns : list string)
  : result (list Regexp) :=
  match patterns with
  | [] => Ok []
  | pattern :: patterns' =>
      match regexp_Compile lib pattern with
      | Err err => Err err
      | Ok re =>
          match compile_all lib patterns' with
          | Err err => Err err
          | Ok res => Ok (re :: res)
          end
      end
  end.

Definition NewFilter (lib : Lib) (include exclude : list string) (latest : Z)
  : result Filter :=
  match compile_all lib include with
  | Err err => Err err
  | Ok inc =>
      match compile_all lib exclude with
      | Err err => Err err
      | Ok exc => Ok {| Include := inc; Exclude := exc; Latest := latest |}
      end
  end.

End filter.

(* ===================================================================== *)
(** * pkg/registry/client.go *)
(* ===================================================================== *)

Module registry.
Import GoString.

Record Client := {
  BaseURL : string;
  Username : string;
  Password : string;
  Limiter : bool       (* ratelimit.NewLimiter(qps): enabled iff qps > 0 *)
}.

(** The transport settings ([insecure], timeouts) have no part in what is
    modelled. *)
Definition NewClient (baseURL username password : string) (insecure : bool)
           (qps : Z) : Client :=
  {| BaseURL := TrimRight_slash baseURL;
     Username := username;
     Password := password;
     Limiter := 0 <? qps |}.

Definition nonempty (s : string) : bool := negb (String.eqb s "").

(** [if c.Username != "" && c.Password != "" { req.SetBasicAuth(...) }] *)
Definition basicAuth (c : Client) : option Authorization :=
  if (nonempty (Username c) && nonempty (Password c))%bool
  then Some (Basic (Username c) (Password c)) else None.

(** [if c.Username != "" { req.SetBasicAuth(...) }], the Harbor API calls *)
Definition harborAuth (c : Client) : option Authorization :=
  if nonempty (Username c)
  then Some (Basic (Username c) (Password c)) else None.

(** A request body is an [io.Reader]: a stream that remembers how far it
    was read.  [None] is the nil reader; [Some s] holds the unread bytes. *)
Definition Reader := option string.

Definition unread (body : Reader) : string :=
  match body with Some s => s | None => "" end.

Definition advance (body : Reader) (n : nat) : Reader :=
  match body with
  | Some s => Some (String.substring n (String.length s - n) s)
  | None => None
  end.

(** [GetManifestMediaType] and [buildAcceptHeader] *)
Definition GetManifestMediaType : list string :=
  [ "application/vnd.docker.distribution.manifest.v2+json";
    "application/vnd.docker.distribution.manifest.list.v2+json";
    "application/vnd.oci.image.manifest.v1+json";
    "application/vnd.oci.image.index.v1+json" ].

Definition buildAcceptHeader : string := String.concat "," GetManifestMediaType.

(** [parseAuthHeader]; the map as [gmap]. *)
Definition parseAuthHeader (text : Text) (header : string)
  : gmap string string :=
  let header := TrimPrefix header "Bearer " in
  let parts := Split header ","%char in
  fold_left
    (fun (params : gmap string string) part =>
       let part := TrimSpace text part in
       match SplitN2 part "="%char with
       | Some (k, v) =>
           let key := TrimSpace text k in
           let value := Trim_quote (TrimSpace text v) in
           <[key := value]> params
       | None => params
       end)
    parts (∅ : gmap string string).

(** [params[key]]: the zero value when the key is absent. *)
Definition param (params : gmap string string) (key : string) : string :=
  match params !! key with Some v => v | None => "" end.

Section Client.
Context (lib : Lib) (env : Env).

(** [*url.Error], what [http.Client.Do] returns: [Op "url": err], where
    [Op] is the method with only its first letter in upper case. *)
Definition url_Error (method url : string) (err : error) : error :=
  let quote := String (ascii_of_nat 34) EmptyString in
  let op := match method with
            | EmptyString => "Get"
            | String c rest => String c (ToLower (text lib) rest)
            end in
  let e := Wrapf (op +:+ " " +:+ quote +:+ url +:+ quote +:+ ": ") err in
  mkError (Error e) (is_Canceled e) (is_DeadlineExceeded e)
          (Some {| Timeout := is_DeadlineExceeded e;
                   Temporary := is_DeadlineExceeded e |})
          (is_ECONNREFUSED e) (is_ECONNRESET e) (is_ETIMEDOUT e)
          (as_DNSError e).

(** [c.HTTPClient.Do(req)].  The request was built with the execution
    context: once that context is done the transport returns its error
    and nothing is sent; otherwise the round trip is whatever the peer
    makes of it. *)
Definition Do (req : Request) : M World RoundTrip :=
  fun w =>
    match ctx_Err env w with
    | Some e =>
        (Returned {| Consumed := 0;
                     Reply := Err (url_Error (Method req) (URL req) e) |}, w)
    | None =>
        let rt := transport env (wire w) req in
        (Returned rt, add_exchange {| Sent := req; Got := rt |} w)
    end.

(** [c.Limiter.Wait(ctx)]: nil when the limiter is disabled; an enabled
    limiter first looks at the context. *)
Definition Limiter_Wait (c : Client) : M World (option error) :=
  fun w =>
    if Limiter c then
      match ctx_Err env w with
      | Some e => (Returned (Some e), w)
      | None => (Returned (limiter_Wait env (BaseURL c) w), w)
      end
    else (Returned None, w).

(** [io.ReadAll(resp.Body)] *)
Definition io_ReadAll (resp : Response) : result string :=
  match ReadErr resp with
  | Some err => Err err
  | None => Ok (RespBody resp)
  end.

(** [json.NewDecoder(resp.Body).Decode(&v)]: a read error on the way is
    the decoder's error. *)
Definition Decode {A} (decode : string -> result A) (resp : Response)
  : result A :=
  match ReadErr resp with
  | Some err => Err err
  | None => decode (RespBody resp)
  end.

Definition PingCheck (c : Client) : M World (option error) :=
  match http_NewRequest_err lib "GET" (BaseURL c +:+ "/v2/") with
  | Some err => ret (Some err)
  | None =>
      rt <- Do {| Method := "GET"; URL := BaseURL c +:+ "/v2/";
                  Header := []; Auth := None; Body := "" |} ;;
      match Reply rt with
      | Err err => ret (Some (Wrapf "failed to ping registry: " err))
      | Ok resp =>
          if ((StatusCode resp =? StatusOK) ||
              (StatusCode resp =? StatusUnauthorized))%bool
          then ret None
          else ret (Some (Errorf ("unexpected status code: "
                                  +:+ itoa (StatusCode resp))))
      end
  end.

Definition getBearerToken (c : Client) (authHeader requestPath : string)
  : M World (result string) :=
  let params := parseAuthHeader (text lib) authHeader in
  let realm := param params "realm" in
  if String.eqb realm "" then
    ret (Err (Errorf "no realm in WWW-Authenticate header"))
  else
    let service := param params "service" in
    let scope := param params "scope" in
    let q := (if nonempty service then [("service", service)] else [])
             ++ (if nonempty scope then [("scope", scope)] else []) in
    match url_set_query lib realm q with
    | Err err => ret (Err err)
    | Ok tokenURL =>
        match http_NewRequest_err lib "GET" tokenURL with
        | Some err => ret (Err err)
        | None =>
            rt <- Do {| Method := "GET"; URL := tokenURL; Header := [];
                        Auth := basicAuth c; Body := "" |} ;;
            match Reply rt with
            | Err err => ret (Err err)
            | Ok resp =>
                if negb (StatusCode resp =? StatusOK) then
                  ret (Err (Errorf ("token request failed: "
                                    +:+ itoa (StatusCode resp) +:+ " "
                                    +:+ RespBody resp)))
                else
                  match Decode (json_Decode_token lib) resp with
                  | Err err => ret (Err err)
                  | Ok (Token, AccessToken) =>
                      if nonempty Token then ret (Ok Token)
                      else ret (Ok AccessToken)
                  end
            end
        end
    end.

(** [doRequest].  The three requests it can build all take the same
    [body] reader; whatever the first round trip read from it is gone
    when the request is built again after a 401. *)
Definition doRequest (c : Client) (method path : string) (body : Reader)
           (headers : list (string * string)) : M World (result Response) :=
  limited <- Limiter_Wait c ;;
  match limited with
  | Some err => ret (Err err)
  | None =>
      let fullURL := BaseURL c +:+ path in
      match http_NewRequest_err lib method fullURL with
      | Some err => ret (Err err)
      | None =>
          rt <- Do {| Method := method; URL := fullURL; Header := headers;
                      Auth := basicAuth c; Body := unread body |} ;;
          match Reply rt with
          | Err err => ret (Err err)
          | Ok resp =>
              if StatusCode resp =? StatusUnauthorized then
                let body := advance body (Consumed rt) in
                let authHeader :=
                  Header_Get (RespHeader resp) "WWW-Authenticate" in
                if String.eqb authHeader "" then
                  rt <- Do {| Method := method; URL := fullURL;
                              Header := headers;
                              Auth := Some (Basic (Username c) (Password c));
                              Body := unread body |} ;;
                  ret (Reply rt)
                else
                  token <- getBearerToken c authHeader path ;;
                  match token with
                  | Err err =>
                      ret (Err (Wrapf "failed to get bearer token: " err))
                  | Ok token =>
                      rt <- Do {| Method := method; URL := fullURL;
                                  Header := headers;
                                  Auth := Some (Bearer token);
                                  Body := unread body |} ;;
                      ret (Reply rt)
                  end
              else ret (Ok resp)
          end
      end
  end.

(* --------------------------------------------------------------------- *)
(** ** pkg/registry/manifest.go *)
(* --------------------------------------------------------------------- *)

Definition GetManifest (c : Client) (repository reference : string)
  : M World (result Manifest.t) :=
  let path := "/v2/" +:+ repository +:+ "/manifests/" +:+ reference in
  let headers := [("Accept", buildAcceptHeader)] in
  r <- doRequest c "GET" path None headers ;;
  match r with
  | Err err => ret (Err err)
  | Ok resp =>
      if negb (StatusCode resp =? StatusOK) then
        ret (Err (Errorf ("failed to get manifest: "
                          +:+ itoa (StatusCode resp) +:+ " "
                          +:+ RespBody resp)))
      else
        match io_ReadAll resp with
        | Err err => ret (Err err)
        | Ok data =>
            match json_Unmarshal_Manifest lib data with
            | Err err => ret (Err (Wrapf "failed to parse manifest: " err))
            | Ok manifest =>
                ret (Ok (Manifest.with_Raw_ContentDigest manifest data
                           (Header_Get (RespHeader resp)
                                       "Docker-Content-Digest")))
            end
        end
  end.

Definition PutManifest (c : Client) (repository reference : string)
           (manifest : Manifest.t) : M World (result string) :=
  let path := "/v2/" +:+ repository +:+ "/manifests/" +:+ reference in
  let headers := [("Content-Type", Manifest.MediaType manifest)] in
  r <- doRequest c "PUT" path (Some (Manifest.Raw manifest)) headers ;;
  match r with
  | Err err => ret (Err err)
  | Ok resp =>
      if (negb (StatusCode resp =? StatusCreated) &&
          negb (StatusCode resp =? StatusOK))%bool then
        ret (Err (Errorf ("failed to put manifest: "
                          +:+ itoa (StatusCode resp) +:+ " "
                          +:+ RespBody resp)))
      else
        let digest := Header_Get (RespHeader resp) "Docker-Content-Digest" in
        let digest :=
          if String.eqb digest ""
          then Header_Get (RespHeader resp) "Location" else digest in
        ret (Ok digest)
  end.

Definition HeadManifest (c : Client) (repository reference : string)
  : M World (result (bool * string)) :=
  let path := "/v2/" +:+ repository +:+ "/manifests/" +:+ reference in
  let headers := [("Accept", buildAcceptHeader)] in
  r <- doRequest c "HEAD" path None headers ;;
  match r with
  | Err err => ret (Err err)
  | Ok resp =>
      if StatusCode resp =? StatusOK then
        ret (Ok (true, Header_Get (RespHeader resp) "Docker-Content-Digest"))
      else if StatusCode resp =? StatusNotFound then ret (Ok (false, ""))
      else ret (Err (Errorf ("unexpected status code: "
                             +:+ itoa (StatusCode resp))))
  end.

Definition IsManifestList (m : Manifest.t) : bool :=
  (Contains (Manifest.MediaType m) "manifest.list" ||
   Contains (Manifest.MediaType m) "image.index")%bool.

Definition GetAllBlobs (m : Manifest.t) : list Descriptor.t :=
  let blobs := [] in
  let blobs :=
    if nonempty (Descriptor.Digest (Manifest.Config m))
    then blobs ++ [Manifest.Config m] else blobs in
  blobs ++ Manifest.Layers m.

Definition FilterManifestsByArch (manifests : list ManifestEntry.t)
           (architectures : list string) : list ManifestEntry.t :=
  if (Z.of_nat (length architectures) =? 0) then manifests
  else
    let archMap : gmap string bool :=
      fold_left (fun (m : gmap string bool) arch => <[arch := true]> m)
                architectures (∅ : gmap string bool) in
    List.filter
      (fun m => match archMap !! Platform.Architecture (ManifestEntry.Platform m)
                with Some b => b | None => false end)
      manifests.

Definition ListTags (c : Client) (repository : string)
  : M World (result (list string)) :=
  let path := "/v2/" +:+ repository +:+ "/tags/list" in
  r <- doRequest c "GET" path None [] ;;
  match r with
  | Err err => ret (Err err)
  | Ok resp =>
      if negb (StatusCode resp =? StatusOK) then
        ret (Err (Errorf ("failed to list tags: "
                          +:+ itoa (StatusCode resp) +:+ " "
                          +:+ RespBody resp)))
      else ret (Decode (json_Decode_tags lib) resp)
  end.

(* --------------------------------------------------------------------- *)
(** ** Harbor helpers of pkg/registry/client.go *)
(* --------------------------------------------------------------------- *)

Definition pageSize : Z := 100.

(** The paging loops end when a page is short; how long that takes is up
    to the server, so they run on [fuel]. *)
Fixpoint listHarborProjects_from (fuel : nat) (c : Client) (page : Z)
         (allProjects : list string) : M World (result (list string)) :=
  match fuel with
  | O => fun w => (Unfinished, w)
  | S fuel' =>
      let apiPath := "/api/v2.0/projects?page=" +:+ itoa page
                     +:+ "&page_size=" +:+ itoa pageSize in
      match http_NewRequest_err lib "GET" (BaseURL c +:+ apiPath) with
      | Some err => ret (Err err)
      | None =>
          rt <- Do {| Method := "GET"; URL := BaseURL c +:+ apiPath;
                      Header := []; Auth := harborAuth c; Body := "" |} ;;
          match Reply rt with
          | Err err => ret (Err err)
          | Ok resp =>
              if negb (StatusCode resp =? StatusOK) then
                ret (Err (Errorf ("harbor API returned status "
                                  +:+ itoa (StatusCode resp))))
              else
                match Decode (json_Decode_projects lib) resp with
                | Err err => ret (Err err)
                | Ok harborProjects =>
                    let allProjects :=
                      allProjects ++ map HarborProject.Name harborProjects in
                    if Z.of_nat (length harborProjects) <? pageSize
                    then ret (Ok allProjects)
                    else listHarborProjects_from fuel' c (page + 1) allProjects
                end
          end
      end
  end.

Definition listHarborProjects (fuel : nat) (c : Client)
  : M World (result (list string)) :=
  listHarborProjects_from fuel c 1 [].

(** [strings.SplitN(repo, "/", 2)[0]] *)
Definition first_segment (repo : string) : string :=
  match SplitN2 repo "/"%char with
  | Some (project, _) => project
  | None => repo
  end.

(** The projects come out of a Go map, in no particular order; the code
    only ever tests membership in the result. *)
Definition listProjectsFromCatalog (c : Client)
  : M World (result (list string)) :=
  r <- doRequest c "GET" "/v2/_catalog" None [] ;;
  match r with
  | Err err => ret (Err err)
  | Ok resp =>
      if negb (StatusCode resp =? StatusOK) then
        ret (Err (Errorf ("failed to list catalog: status "
                          +:+ itoa (StatusCode resp))))
      else
        match Decode (json_Decode_catalog lib) resp with
        | Err err => ret (Err err)
        | Ok repositories =>
            let projectSet : gset string :=
              fold_left (fun (set : gset string) repo =>
                           {[ first_segment repo ]} ∪ set)
                        repositories (∅ : gset string) in
            ret (Ok (elements projectSet))
        end
  end.

Definition ListProjects (fuel : nat) (c : Client)
  : M World (result (list string)) :=
  r <- listHarborProjects fuel c ;;
  match r with
  | Ok projects => ret (Ok projects)
  | Err _ => listProjectsFromCatalog c
  end.

Fixpoint listHarborRepositories_from (fuel : nat) (c : Client)
         (project : string) (page : Z) (allRepos : list string)
  : M World (result (list string)) :=
  match fuel with
  | O => fun w => (Unfinished, w)
  | S fuel' =>
      let apiPath := "/api/v2.0/projects/" +:+ project
                     +:+ "/repositories?page=" +:+ itoa page
                     +:+ "&page_size=" +:+ itoa pageSize in
      match http_NewRequest_err lib "GET" (BaseURL c +:+ apiPath) with
      | Some err => ret (Err err)
      | None =>
          rt <- Do {| Method := "GET"; URL := BaseURL c +:+ apiPath;
                      Header := []; Auth := harborAuth c; Body := "" |} ;;
          match Reply rt with
          | Err err => ret (Err err)
          | Ok resp =>
              if negb (StatusCode resp =? StatusOK) then
                ret (Err (Errorf ("harbor API returned status "
                                  +:+ itoa (StatusCode resp))))
              else
                match Decode (json_Decode_repositories lib) resp with
                | Err err => ret (Err err)
                | Ok harborRepos =>
                    let allRepos :=
                      allRepos ++
                      map (fun r =>
                             match SplitN2 (HarborRepository.Name r) "/"%char with
                             | Some (_, repo) => repo
                             | None => HarborRepository.Name r
                             end) harborRepos in
                    if Z.of_nat (length harborRepos) <? pageSize
                    then ret (Ok allRepos)
                    else listHarborRepositories_from fuel' c project
                                                     (page + 1) allRepos
                end
          end
      end
  end.

Definition listHarborRepositories (fuel : nat) (c : Client) (project : string)
  : M World (result (list string)) :=
  listHarborRepositories_from fuel c project 1 [].

Definition listRepositoriesFromCatalog (c : Client) (project : string)
  : M World (result (list string)) :=
  r <- doRequest c "GET" "/v2/_catalog" None [] ;;
  match r with
  | Err err => ret (Err err)
  | Ok resp =>
      if negb (StatusCode resp =? StatusOK) then
        ret (Err (Errorf ("failed to list catalog: status "
                          +:+ itoa (StatusCode resp))))
      else
        match Decode (json_Decode_catalog lib) resp with
        | Err err => ret (Err err)
        | Ok repositories =>
            let prefix := project +:+ "/" in
            ret (Ok (map (fun repo => TrimPrefix repo prefix)
                         (List.filter (fun repo => HasPrefix repo prefix)
                                      repositories)))
        end
  end.

Definition ListRepositories (fuel : nat) (c : Client) (project : string)
  : M World (result (list string)) :=
  r <- listHarborRepositories fuel c project ;;
  match r with
  | Ok repos => ret (Ok repos)
  | Err _ => listRepositoriesFromCatalog c project
  end.

Definition createHarborProject (c : Client) (projectName : string)
           (public : bool) : M World (option error) :=
  let apiPath := "/api/v2.0/projects" in
  match json_Marshal_project lib projectName public with
  | Err err => ret (Some err)
  | Ok bodyBytes =>
      match http_NewRequest_err lib "POST" (BaseURL c +:+ apiPath) with
      | Some err => ret (Some err)
      | None =>
          rt <- Do {| Method := "POST"; URL := BaseURL c +:+ apiPath;
                      Header := [("Content-Type", "application/json")];
                      Auth := harborAuth c; Body := bodyBytes |} ;;
          match Reply rt with
          | Err err => ret (Some err)
          | Ok resp =>
              if ((StatusCode resp =? StatusCreated) ||
                  (StatusCode resp =? StatusOK))%bool then ret None
              else if StatusCode resp =? StatusConflict then ret None
              else ret (Some (Errorf ("failed to create project (status "
                                      +:+ itoa (StatusCode resp) +:+ "): "
                                      +:+ RespBody resp)))
          end
      end
  end.

Definition CreateProject (c : Client) (projectName : string) (public : bool)
  : M World (option error) :=
  createHarborProject c projectName public.

Definition ProjectExists (fuel : nat) (c : Client) (projectName : string)
  : M World (result bool) :=
  r <- ListProjects fuel c ;;
  match r with
  | Err err => ret (Err err)
  | Ok projects =>
      ret (Ok (existsb (fun p => String.eqb p projectName) projects))
  end.

(* --------------------------------------------------------------------- *)
(** ** pkg/registry/blob.go *)
(* --------------------------------------------------------------------- *)

Definition content_length (resp : Response) : Z :=
  let contentLength := Header_Get (RespHeader resp) "Content-Length" in
  if nonempty contentLength then strconv_ParseInt lib contentLength else 0.

Definition BlobExists (c : Client) (repository digest : string)
  : M World (result (bool * Z)) :=
  let path := "/v2/" +:+ repository +:+ "/blobs/" +:+ digest in
  r <- doRequest c "HEAD" path None [] ;;
  match r with
  | Err err => ret (Err err)
  | Ok resp =>
      if StatusCode resp =? StatusOK then ret (Ok (true, content_length resp))
      else if StatusCode resp =? StatusNotFound then ret (Ok (false, 0))
      else ret (Err (Errorf ("unexpected status code: "
                             +:+ itoa (StatusCode resp))))
  end.

(** On a status other than 200 the body is closed before it is read, so
    the text read for the message is empty. *)
Definition GetBlob (c : Client) (repository digest : string)
  : M World (result (Reader * Z)) :=
  let path := "/v2/" +:+ repository +:+ "/blobs/" +:+ digest in
  r <- doRequest c "GET" path None [] ;;
  match r with
  | Err err => ret (Err err)
  | Ok resp =>
      if negb (StatusCode resp =? StatusOK) then
        ret (Err (Errorf ("failed to get blob: "
                          +:+ itoa (StatusCode resp) +:+ " " +:+ "")))
      else ret (Ok (Some (RespBody resp), content_length resp))
  end.

(** Turning a [Location] into the next URL: "Handle relative URLs". *)
Definition resolve_location (c : Client) (location : string) : string :=
  if negb (HasPrefix location "http") then BaseURL c +:+ location
  else location.

Definition initiateUpload (c : Client) (repository digest : string)
  : M World (result string) :=
  let path := "/v2/" +:+ repository +:+ "/blobs/uploads/" in
  let path :=
    if nonempty digest
    then path +:+ "?mount=" +:+ digest +:+ "&from=" +:+ repository
    else path in
  r <- doRequest c "POST" path None [] ;;
  match r with
  | Err err => ret (Err err)
  | Ok resp =>
      if StatusCode resp =? StatusCreated then
        ret (Err (Errorf "blob already exists"))
      else if negb (StatusCode resp =? StatusAccepted) then
        ret (Err (Errorf ("failed to initiate upload: "
                          +:+ itoa (StatusCode resp) +:+ " "
                          +:+ RespBody resp)))
      else
        let location := Header_Get (RespHeader resp) "Location" in
        if String.eqb location "" then
          ret (Err (Errorf "no location header in response"))
        else ret (Ok (resolve_location c location))
  end.

Definition uploadContent (c : Client) (uploadURL : string) (content : Reader)
           (size : Z) : M World (result string) :=
  match http_NewRequest_err lib "PATCH" uploadURL with
  | Some err => ret (Err err)
  | None =>
      let header :=
        [("Content-Type", "application/octet-stream")]
        ++ (if size >? 0 then [("Content-Length", itoa size)] else []) in
      rt <- Do {| Method := "PATCH"; URL := uploadURL; Header := header;
                  Auth := basicAuth c; Body := unread content |} ;;
      match Reply rt with
      | Err err => ret (Err err)
      | Ok resp =>
          if negb (StatusCode resp =? StatusAccepted) then
            ret (Err (Errorf ("failed to upload content: "
                              +:+ itoa (StatusCode resp) +:+ " "
                              +:+ RespBody resp)))
          else
            let location := Header_Get (RespHeader resp) "Location" in
            if String.eqb location "" then
              ret (Err (Errorf "no location header in PATCH response"))
            else ret (Ok (resolve_location c location))
      end
  end.

Definition completeUpload (c : Client) (uploadURL digest : string)
  : M World (option error) :=
  match url_set_query lib uploadURL [("digest", digest)] with
  | Err err => ret (Some err)
  | Ok u =>
      match http_NewRequest_err lib "PUT" u with
      | Some err => ret (Some err)
      | None =>
          rt <- Do {| Method := "PUT"; URL := u;
                      Header := [("Content-Length", "0")];
                      Auth := basicAuth c; Body := "" |} ;;
          match Reply rt with
          | Err err => ret (Some err)
          | Ok resp =>
              if negb (StatusCode resp =? StatusCreated) then
                ret (Some (Errorf ("failed to complete upload: "
                                   +:+ itoa (StatusCode resp) +:+ " "
                                   +:+ RespBody resp)))
              else ret None
          end
      end
  end.

Definition PutBlob (c : Client) (repository digest : string)
           (content : Reader) (size : Z) : M World (option error) :=
  (* Step 1: Initiate upload *)
  r <- initiateUpload c repository digest ;;
  match r with
  | Err err => ret (Some (Wrapf "failed to initiate upload: " err))
  | Ok uploadURL =>
      (* Step 2: Upload content (returns new Location) *)
      r <- uploadContent c uploadURL content size ;;
      match r with
      | Err err => ret (Some (Wrapf "failed to upload content: " err))
      | Ok newUploadURL =>
          (* Step 3: Complete upload using the new Location *)
          r <- completeUpload c newUploadURL digest ;;
          match r with
          | Some err => ret (Some (Wrapf "failed to complete upload: " err))
          | None => ret None
          end
      end
  end.

Definition MountBlob (c : Client) (fromRepo toRepo digest : string)
  : M World (result bool) :=
  let path := "/v2/" +:+ toRepo +:+ "/blobs/uploads/?mount=" +:+ digest
              +:+ "&from=" +:+ fromRepo in
  r <- doRequest c "POST" path None [] ;;
  match r with
  | Err err => ret (Err err)
  | Ok resp =>
      if StatusCode resp =? StatusCreated then ret (Ok true)
      else if StatusCode resp =? StatusAccepted then ret (Ok false)
      else ret (Err (Errorf ("failed to mount blob: "
                             +:+ itoa (StatusCode resp) +:+ " "
                             +:+ RespBody resp)))
  end.

Definition CopyBlob (source target : Client)
           (sourceRepo targetRepo digest : string) (size : Z)
  : M World (option error) :=
  r <- BlobExists target targetRepo digest ;;
  match r with
  | Err err => ret (Some (Wrapf "failed to check blob existence: " err))
  | Ok (exists_, _) =>
      if exists_ then ret None
      else
        m <- MountBlob target targetRepo targetRepo digest ;;
        match m with
        | Ok true => ret None
        | _ =>
            g <- GetBlob source sourceRepo digest ;;
            match g with
            | Err err => ret (Some (Wrapf "failed to download blob: " err))
            | Ok (reader, _) =>
                u <- PutBlob target targetRepo digest reader size ;;
                match u with
                | Some err => ret (Some (Wrapf "failed to upload blob: " err))
                | None => ret None
                end
            end
        end
  end.

End Client.
End registry.

(* ===================================================================== *)
(** * pkg/sync/worker.go and pkg/sync/engine.go *)
(* ===================================================================== *)

Module engine.
Import GoString retry registry.

(** [config.SyncRule], the fields the engine reads. *)
Record SyncRule := {
  Name : string;
  Source_Repository : string;
  Target_Repository : string;
  Architectures : list string
}.

Record Engine := {
  Concurrency : Z;            (* config.Global.Concurrency *)
  retryConfig : RetryConfig;
  dryRun : bool
}.

(** The progress callbacks ([progressFunc], [OnProgress]) and the lines
    printed to standard output are observers; they are left out. *)
Record BlobSyncTask := {
  Source : Client;
  Target : Client;
  SourceRepo : string;
  TargetRepo : string;
  Digest : string;
  Size : Z;
  RetryConfig_ : RetryConfig
}.

(** [t.Digest[:12]] *)
Definition Digest12 (t : BlobSyncTask) : outcome string :=
  match slice_to (Digest t) 12 with
  | Some d => Returned d
  | None =>
      Panicked ("runtime error: slice bounds out of range [:12] with length "
                +:+ itoa (len (Digest t)))
  end.

Definition Description (t : BlobSyncTask) : outcome string :=
  match Digest12 t with
  | Returned d => Returned ("sync blob " +:+ d)
  | Panicked msg => Panicked msg
  | Unfinished => Unfinished
  end.

Section Engine.
Context (lib : Lib) (env : Env).

(** The [select] of [RetryWithBackoff] in this world. *)
Definition after (backoff : Z) : M World (option error) :=
  fun w =>
    match ctx_Err env w with
    | Some e => (Returned (Some e), w)
    | None => (Returned None, add_sleep backoff w)
    end.

Definition Execute (t : BlobSyncTask) : M World (option error) :=
  r <- BlobExists lib env (Target t) (TargetRepo t) (Digest t) ;;
  match r with
  | Err err => ret (Some (Wrapf "failed to check blob existence: " err))
  | Ok (exists_, _) =>
      if exists_ then
        _ <- eval (Digest12 t) ;;   (* "Blob already exists: %s" *)
        ret None
      else
        _ <- eval (Digest12 t) ;;   (* "Syncing blob: %s" *)
        err <- RetryWithBackoff (text lib) after (RetryConfig_ t)
                 (CopyBlob lib env (Source t) (Target t) (SourceRepo t)
                           (TargetRepo t) (Digest t) (Size t)) ;;
        match err with
        | Some err =>
            d <- eval (Digest12 t) ;;
            ret (Some (Wrapf ("failed to copy blob " +:+ d +:+ ": ") err))
        | None =>
            _ <- eval (Digest12 t) ;; (* "Blob synced: %s" *)
            ret None
        end
  end.

(** ** The worker pool

    [taskCh] holds the tasks buffered in the channel, [capacity] is the
    size the channel was made with, [wg] counts the worker goroutines
    that [Start] launched, and [stopped] tells that [Stop] cancelled the
    context of the pool.

    The Go scheduler is free in the order in which it runs the
    goroutines, and a [select] with several ready cases takes any of
    them.  The functions below follow one of these schedules: a worker
    runs only while the submitting goroutine cannot go on, that is,
    while its [Submit] waits for room in the channel or while it is in
    [Wait]; it is worker 0 that receives every task, and it runs the
    task to its end before any other goroutine goes on; and a [select]
    that finds the context done takes that case.  What holds of them
    holds of that schedule, not of every one. *)
Record WorkerPool := {
  workers : Z;
  capacity : Z;
  wg : Z;
  stopped : bool;
  taskCh : list BlobSyncTask;
  errors : list error;
  totalTasks : Z;
  doneTasks : Z;
  failedTasks : Z
}.

Definition set_taskCh (taskCh : list BlobSyncTask) (p : WorkerPool)
  : WorkerPool :=
  {| workers := workers p; capacity := capacity p; wg := wg p;
     stopped := stopped p; taskCh := taskCh; errors := errors p;
     totalTasks := totalTasks p; doneTasks := doneTasks p;
     failedTasks := failedTasks p |}.

(** [make(chan Task, workers*2)] panics on a negative size; memory is
    taken to suffice for any other. *)
Definition NewWorkerPool (workers : Z) : outcome WorkerPool :=
  let size := wrap64 (workers * 2) in
  if size <? 0 then Panicked "makechan: size out of range"
  else Returned {| workers := workers; capacity := size; wg := 0;
                   stopped := false; taskCh := []; errors := [];
                   totalTasks := 0; doneTasks := 0; failedTasks := 0 |}.

(** [Start]: one goroutine for each [i] with [0 <= i < workers]. *)
Definition Start (p : WorkerPool) : WorkerPool :=
  {| workers := workers p; capacity := capacity p;
     wg := wg p + Z.max 0 (workers p);
     stopped := stopped p; taskCh := taskCh p; errors := errors p;
     totalTasks := totalTasks p; doneTasks := doneTasks p;
     failedTasks := failedTasks p |}.

(** [Stop] cancels the context of the pool. *)
Definition Stop (p : WorkerPool) : WorkerPool :=
  {| workers := workers p; capacity := capacity p; wg := wg p;
     stopped := true; taskCh := taskCh p; errors := errors p;
     totalTasks := totalTasks p; doneTasks := doneTasks p;
     failedTasks := failedTasks p |}.

(** [p.ctx.Err()]: the context of the pool is done when [Stop] cancelled
    it or when the context it was derived from is done. *)
Definition pool_Err (p : WorkerPool) (w : World) : option error :=
  if stopped p then Some Canceled else ctx_Err env w.

(** What [worker] does with a task it received. *)
Definition run_task (id : Z) (task : BlobSyncTask) (p : WorkerPool)
  : M World WorkerPool :=
  err <- Execute task ;;
  p <- match err with
       | Some err =>
           desc <- eval (Description task) ;;
           ret {| workers := workers p; capacity := capacity p; wg := wg p;
                  stopped := stopped p; taskCh := taskCh p;
                  errors := errors p ++
                    [Wrapf ("worker " +:+ itoa id +:+ ": task "
                            +:+ desc +:+ " failed: ") err];
                  totalTasks := totalTasks p;
                  doneTasks := doneTasks p;
                  failedTasks := failedTasks p + 1 |}
       | None => ret p
       end ;;
  ret {| workers := workers p; capacity := capacity p; wg := wg p;
         stopped := stopped p; taskCh := taskCh p;
         errors := errors p; totalTasks := totalTasks p;
         doneTasks := doneTasks p + 1;
         failedTasks := failedTasks p |}.

(** [Submit] counts the task and then waits for the context or for the
    channel.  With room in the buffer the task is sent at once.  With a
    full buffer the send waits for a worker: worker 0 receives the
    oldest task, which lets the send through, and runs it.  Without a
    worker the send waits for ever. *)
Definition Submit (p : WorkerPool) (task : BlobSyncTask)
  : M World (WorkerPool * option error) :=
  fun w =>
    let p := {| workers := workers p; capacity := capacity p; wg := wg p;
                stopped := stopped p; taskCh := taskCh p;
                errors := errors p;
                totalTasks := totalTasks p + 1; doneTasks := doneTasks p;
                failedTasks := failedTasks p |} in
    match pool_Err p w with
    | Some e => (Returned (p, Some e), w)
    | None =>
        if Z.of_nat (length (taskCh p)) <? capacity p then
          (Returned (set_taskCh (taskCh p ++ [task]) p, None), w)
        else if 0 <? wg p then
          match taskCh p ++ [task] with
          | oldest :: queue =>
              (p <- run_task 0 oldest (set_taskCh queue p) ;;
               ret (p, None)) w
          | [] => (Returned (p, None), w)
          end
        else (Unfinished, w)
    end.

(** The loop of [worker] once the channel is closed: leave when the
    context is done, otherwise take the next task; the empty channel
    ends it. *)
Fixpoint worker (id : Z) (queue : list BlobSyncTask) (p : WorkerPool)
  : M World WorkerPool :=
  match queue with
  | [] => ret p
  | task :: queue' =>
      w <- get ;;
      match pool_Err p w with
      | Some _ => ret p
      | None =>
          p <- run_task id task (set_taskCh queue' p) ;;
          worker id queue' p
      end
  end.

(** [Wait]: close the channel, wait for the workers, report the first
    error ([%v], so nothing is wrapped).  Without workers there is
    nothing to wait for, and what the channel holds stays there. *)
Definition Wait (p : WorkerPool) : M World (WorkerPool * option error) :=
  p <- (if 0 <? wg p then worker 0 (taskCh p) p else ret p) ;;
  match errors p with
  | first :: _ =>
      ret (p, Some (Errorf ("worker pool encountered "
                            +:+ itoa (Z.of_nat (length (errors p)))
                            +:+ " errors: " +:+ Error first)))
  | [] => ret (p, None)
  end.

(** The loop of [SyncSingleManifest] over the blobs. *)
Fixpoint submit_all (p : WorkerPool) (tasks : list BlobSyncTask)
  : M World (WorkerPool * option error) :=
  match tasks with
  | [] => ret (p, None)
  | task :: tasks' =>
      r <- Submit p task ;;
      match r with
      | (p, Some err) => ret (Stop p, Some err)
      | (p, None) => submit_all p tasks'
      end
  end.

Definition SyncSingleManifest (e : Engine) (source target : Client)
           (rule : SyncRule) (reference : string) (manifest : Manifest.t)
  : M World (option error) :=
  let blobs := GetAllBlobs manifest in
  pool <- eval (NewWorkerPool (Concurrency e)) ;;
  let pool := Start pool in
  r <- submit_all pool
         (map (fun blob =>
                 {| Source := source; Target := target;
                    SourceRepo := Source_Repository rule;
                    TargetRepo := Target_Repository rule;
                    Digest := Descriptor.Digest blob;
                    Size := Descriptor.Size blob;
                    RetryConfig_ := retryConfig e |}) blobs) ;;
  match r with
  | (_, Some err) => ret (Some err)
  | (pool, None) =>
      r <- Wait pool ;;
      match r with
      | (_, Some err) => ret (Some (Wrapf "blob sync failed: " err))
      | (_, None) =>
          r <- PutManifest lib env target (Target_Repository rule)
                           reference manifest ;;
          match r with
          | Err err => ret (Some (Wrapf "failed to upload manifest: " err))
          | Ok _ => ret None
          end
      end
  end.

Fixpoint sync_entries (e : Engine) (source target : Client) (rule : SyncRule)
         (entries : list ManifestEntry.t) : M World (option error) :=
  match entries with
  | [] => ret None
  | entry :: entries' =>
      r <- GetManifest lib env source (Source_Repository rule)
                       (ManifestEntry.Digest entry) ;;
      match r with
      | Err err =>
          ret (Some (Wrapf ("failed to get manifest for "
                            +:+ ManifestEntry.Digest entry +:+ ": ") err))
      | Ok archManifest =>
          r <- SyncSingleManifest e source target rule
                                  (ManifestEntry.Digest entry) archManifest ;;
          match r with
          | Some err => ret (Some err)
          | None => sync_entries e source target rule entries'
          end
      end
  end.

Definition SyncManifestList (e : Engine) (source target : Client)
           (rule : SyncRule) (tag : string) (manifestList : Manifest.t)
  : M World (option error) :=
  let entries := FilterManifestsByArch (Manifest.Manifests manifestList)
                                       (Architectures rule) in
  r <- sync_entries e source target rule entries ;;
  match r with
  | Some err => ret (Some err)
  | None =>
      r <- PutManifest lib env target (Target_Repository rule) tag
                       manifestList ;;
      match r with
      | Err err => ret (Some (Wrapf "failed to upload manifest list: " err))
      | Ok _ => ret None
      end
  end.

Definition SyncTag (e : Engine) (source target : Client) (rule : SyncRule)
           (tag : string) : M World (option error) :=
  r <- GetManifest lib env source (Source_Repository rule) tag ;;
  match r with
  | Err err => ret (Some (Wrapf "failed to get manifest: " err))
  | Ok manifest =>
      if IsManifestList manifest
      then SyncManifestList e source target rule tag manifest
      else SyncSingleManifest e source target rule tag manifest
  end.

End Engine.
End engine.

(* ===================================================================== *)
(** * pkg/config and internal/db/models *)
(* ===================================================================== *)

Module config.
Import GoString.

Definition NormalizeRegistryURL (url : string) : string :=
  let url := TrimRight_slash url in
  if (negb (HasPrefix url "http://") && negb (HasPrefix url "https://"))%bool
  then "https://" +:+ url
  else url.


(** ** pkg/config/config.go: the configuration file *)

Module Registry.
Record t := {
  URL : string;
  Username : string;
  Password : string;
  Insecure : bool;
  RateLimit_QPS : Z
}.
End Registry.

Module TagFilter.
Record t := {
  Include : list string;
  Exclude : list string;
  Latest : Z
}.
End TagFilter.

Module SyncRule.
Record t := {
  Name : string;
  Source_Registry : string;
  Source_Repository : string;
  Target_Registry : string;
  Target_Repository : string;
  Tags : TagFilter.t;
  Architectures : list string;
  Enabled : bool
}.
End SyncRule.

Module GlobalConfig.
Record t := {
  Concurrency : Z;
  Retry_MaxAttempts : Z;
  Retry_InitialInterval : Z;
  Retry_MaxInterval : Z;
  Timeout : Z
}.
End GlobalConfig.

Module Config.
Record t := {
  Version : string;
  Global : GlobalConfig.t;
  Registries : gmap string Registry.t;
  SyncRules : list SyncRule.t
}.
End Config.

(** The loop over [c.Registries]: the first registry without URL among
    those the [range] statement visits.  Go leaves the order of the
    visits open; it is the order of [map_to_list] here. *)
Fixpoint first_without_URL (registries : list (string * Registry.t))
  : option string :=
  match registries with
  | [] => None
  | (name, reg) :: registries' =>
      if String.eqb (Registry.URL reg) "" then Some name
      else first_without_URL registries'
  end.

(** The two loops over the patterns of a rule. *)
Fixpoint validate_patterns (lib : Lib) (rule kind : string)
         (patterns : list string) : option error :=
  match patterns with
  | [] => None
  | pattern :: patterns' =>
      match regexp_Compile lib pattern with
      | Err err =>
          Some (Wrapf ("sync rule " +:+ rule +:+ ": invalid " +:+ kind
                       +:+ " pattern " +:+ pattern +:+ ": ") err)
      | Ok _ => validate_patterns lib rule kind patterns'
      end
  end.

Definition defined (c : Config.t) (name : string) : bool :=
  match Config.Registries c !! name with Some _ => true | None => false end.

(** The loop over [c.SyncRules], [i] being the index of the first rule
    of [rules]. *)
Fixpoint validate_rules (lib : Lib) (c : Config.t) (i : Z)
         (rules : list SyncRule.t) : option error :=
  match rules with
  | [] => None
  | rule :: rules' =>
      if String.eqb (SyncRule.Name rule) "" then
        Some (Errorf ("sync rule " +:+ itoa i +:+ ": name is required"))
      else if negb (defined c (SyncRule.Source_Registry rule)) then
        Some (Errorf ("sync rule " +:+ SyncRule.Name rule
                      +:+ ": source registry "
                      +:+ SyncRule.Source_Registry rule +:+ " not found"))
      else if negb (defined c (SyncRule.Target_Registry rule)) then
        Some (Errorf ("sync rule " +:+ SyncRule.Name rule
                      +:+ ": target registry "
                      +:+ SyncRule.Target_Registry rule +:+ " not found"))
      else if String.eqb (SyncRule.Source_Repository rule) "" then
        Some (Errorf ("sync rule " +:+ SyncRule.Name rule
                      +:+ ": source repository is required"))
      else if String.eqb (SyncRule.Target_Repository rule) "" then
        Some (Errorf ("sync rule " +:+ SyncRule.Name rule
                      +:+ ": target repository is required"))
      else
        match validate_patterns lib (SyncRule.Name rule) "include"
                                (TagFilter.Include (SyncRule.Tags rule)) with
        | Some err => Some err
        | None =>
            match validate_patterns lib (SyncRule.Name rule) "exclude"
                                    (TagFilter.Exclude (SyncRule.Tags rule)) with
            | Some err => Some err
            | None => validate_rules lib c (i + 1) rules'
            end
        end
  end.

Definition Validate (lib : Lib) (c : Config.t) : option error :=
  if Z.of_nat (size (Config.Registries c)) =? 0 then
    Some (Errorf "no registries defined")
  else
    match first_without_URL (map_to_list (Config.Registries c)) with
    | Some name => Some (Errorf ("registry " +:+ name +:+ ": URL is required"))
    | None => validate_rules lib c 0 (Config.SyncRules c)
    end.

(** [GetRegistry] *)
Definition GetRegistry (c : Config.t) (name : string) : result Registry.t :=
  match Config.Registries c !! name with
  | Some reg => Ok reg
  | None => Err (Errorf ("registry " +:+ name +:+ " not found"))
  end.

(** [GetEnabledRules] *)
Definition GetEnabledRules (c : Config.t) : list SyncRule.t :=
  List.filter SyncRule.Enabled (Config.SyncRules c).

(** What [LoadConfig] reads with: [os.ReadFile], [os.ExpandEnv] and
    [yaml.Unmarshal] into a zero [Config]. *)
Record Files := {
  os_ReadFile : string -> result string;
  os_ExpandEnv : string -> string;
  yaml_Unmarshal_Config : string -> result Config.t
}.

Definition Minute : Z := 60 * 1000000000.

(** "Set defaults" *)
Definition set_defaults (c : Config.t) : Config.t :=
  let g := Config.Global c in
  {| Config.Version := Config.Version c;
     Config.Global :=
       {| GlobalConfig.Concurrency :=
            if GlobalConfig.Concurrency g =? 0 then 3
            else GlobalConfig.Concurrency g;
          GlobalConfig.Retry_MaxAttempts :=
            if GlobalConfig.Retry_MaxAttempts g =? 0 then 3
            else GlobalConfig.Retry_MaxAttempts g;
          GlobalConfig.Retry_InitialInterval :=
            if GlobalConfig.Retry_InitialInterval g =? 0 then 1 * 1000000000
            else GlobalConfig.Retry_InitialInterval g;
          GlobalConfig.Retry_MaxInterval :=
            if GlobalConfig.Retry_MaxInterval g =? 0 then 30 * 1000000000
            else GlobalConfig.Retry_MaxInterval g;
          GlobalConfig.Timeout :=
            if GlobalConfig.Timeout g =? 0 then 10 * Minute
            else GlobalConfig.Timeout g |};
     Config.Registries := Config.Registries c;
     Config.SyncRules := Config.SyncRules c |}.

Definition LoadConfig (files : Files) (lib : Lib) (path : string)
  : result Config.t :=
  match os_ReadFile files path with
  | Err err => Err (Wrapf "failed to read config file: " err)
  | Ok data =>
      let expanded := os_ExpandEnv files data in
      match yaml_Unmarshal_Config files expanded with
      | Err err => Err (Wrapf "failed to parse config: " err)
      | Ok config =>
          let config := set_defaults config in
          match Validate lib config with
          | Some err => Err err
          | None => Ok config
          end
      end
  end.

End config.

Module models.

Inductive ExecutionStatus : Type :=
| StatusPending
| StatusRunning
| StatusSuccess
| StatusFailed
| StatusCanceled.

(** [string(status)] *)
Definition status_string (st : ExecutionStatus) : string :=
  match st with
  | StatusPending => "pending"
  | StatusRunning => "running"
  | StatusSuccess => "success"
  | StatusFailed => "failed"
  | StatusCanceled => "canceled"
  end.

Definition LogLevelInfo : string := "info".
Definition LogLevelWarn : string := "warn".
Definition LogLevelError : string := "error".
Definition LogLevelDebug : string := "debug".

Module Registry.
Record t := {
  ID : N;
  Name : string;
  URL : string;
  Username : string;
  Password : string;
  Insecure : bool;
  RateLimit : Z
}.
End Registry.

Module SyncTask.
Record t := {
  ID : N;
  Name : string;
  SourceRegistry : N;
  SourceProject : string;
  SourceRepo : string;
  TargetRegistry : N;
  TargetProject : string;
  TargetRepo : string;
  TagInclude : list string;
  TagExclude : list string;
  TagLatest : Z;
  Architectures : list string;
  Enabled : bool;
  CronExpression : string;
  SendNotification : bool;
  NotificationCondition : string;
  NotificationChannelIDs : string
}.

Definition GetSourceRepoPath (t : t) : string :=
  if String.eqb (SourceRepo t) "" then SourceProject t
  else SourceProject t +:+ "/" +:+ SourceRepo t.

Definition GetTargetRepoPath (t : t) (sourceRepo : string) : string :=
  let targetRepo := sourceRepo in
  let targetRepo :=
    if negb (String.eqb (TargetRepo t) "") then TargetRepo t else targetRepo in
  TargetProject t +:+ "/" +:+ targetRepo.
End SyncTask.

Module Execution.
Record t := {
  ID : N;
  TaskID : N;
  Status : ExecutionStatus;
  StartTime : Z;
  EndTime : option Z;
  TotalBlobs : Z;
  SyncedBlobs : Z;
  SkippedBlobs : Z;
  FailedBlobs : Z;
  TotalSize : Z;
  SyncedSize : Z;
  ErrorMessage : string
}.

Definition IsRunning (e : t) : bool :=
  match Status e with StatusRunning => true | _ => false end.

Definition IsComplete (e : t) : bool :=
  match Status e with
  | StatusSuccess | StatusFailed | StatusCanceled => true
  | _ => false
  end.

(** Field assignments *)
Definition set_TotalBlobs (n : Z) (e : t) : t :=
  {| ID := ID e; TaskID := TaskID e; Status := Status e;
     StartTime := StartTime e; EndTime := EndTime e; TotalBlobs := n;
     SyncedBlobs := SyncedBlobs e; SkippedBlobs := SkippedBlobs e;
     FailedBlobs := FailedBlobs e; TotalSize := TotalSize e;
     SyncedSize := SyncedSize e; ErrorMessage := ErrorMessage e |}.

Definition set_counters (synced skipped failed size : Z) (e : t) : t :=
  {| ID := ID e; TaskID := TaskID e; Status := Status e;
     StartTime := StartTime e; EndTime := EndTime e;
     TotalBlobs := TotalBlobs e;
     SyncedBlobs := synced; SkippedBlobs := skipped;
     FailedBlobs := failed; TotalSize := TotalSize e;
     SyncedSize := size; ErrorMessage := ErrorMessage e |}.

Definition finish (st : ExecutionStatus) (endTime : Z) (message : string)
           (e : t) : t :=
  {| ID := ID e; TaskID := TaskID e; Status := st;
     StartTime := StartTime e; EndTime := Some endTime;
     TotalBlobs := TotalBlobs e;
     SyncedBlobs := SyncedBlobs e; SkippedBlobs := SkippedBlobs e;
     FailedBlobs := FailedBlobs e; TotalSize := TotalSize e;
     SyncedSize := SyncedSize e; ErrorMessage := message |}.
End Execution.

Module NotificationChannel.
Record t := {
  ID : N;
  Name : string;
  Type_ : string;
  Enabled : bool
}.
End NotificationChannel.

End models.

(** [internal/db/store]: the reads the scheduler makes.  Writing a log
    row appends to the journal of the world; saving an execution has no
    effect the scheduler reads back. *)
Record Store := {
  GetRegistry : N -> result models.Registry.t;
  GetTask : N -> result models.SyncTask.t;
  GetNotificationChannel : N -> result models.NotificationChannel.t
}.

(* ===================================================================== *)
(** * internal/scheduler/scheduler.go *)
(* ===================================================================== *)

Module scheduler.
Import GoString registry models.

Record repoTagInfo := {
  repoName : string;
  tag : string;
  manifest : Manifest.t;
  sourceRepo : string;
  targetRepo : string
}.

(** [blob.Digest[:12]] *)
Definition digest12 (digest : string) : outcome string :=
  match slice_to digest 12 with
  | Some d => Returned d
  | None =>
      Panicked ("runtime error: slice bounds out of range [:12] with length "
                +:+ itoa (len digest))
  end.

Section RunTask.
Context `{SliceSorter} (lib : Lib) (env : Env) (store : Store) (fuel : nat).

(** [s.store.CreateExecutionLog(&models.ExecutionLog{...})] *)
Definition CreateExecutionLog (level message : string) : M World unit :=
  modify (add_log level message).

(** [time.Now()] *)
Definition Now : M World Z :=
  fun w => (Returned (time_Now env (ticks w)), add_tick w).

(** [tagInfos[i] = filter.TagInfo{Name: tag, Updated: time.Now()}] *)
Fixpoint tag_infos (tags : list string) : M World (list filter.TagInfo) :=
  match tags with
  | [] => ret []
  | tag :: tags' =>
      now <- Now ;;
      rest <- tag_infos tags' ;;
      ret ({| filter.Name := tag; filter.Updated := now |} :: rest)
  end.

(** "Get manifests and count blobs": the loop over [filteredTags]. *)
Fixpoint plan_tags (sourceClient : Client) (task : SyncTask.t)
         (repoName sourceRepoPath : string) (filteredTags : list string)
         (allRepoTags : list repoTagInfo) (totalBlobsCount : Z)
  : M World (list repoTagInfo * Z) :=
  match filteredTags with
  | [] => ret (allRepoTags, totalBlobsCount)
  | tag :: filteredTags' =>
      r <- GetManifest lib env sourceClient sourceRepoPath tag ;;
      match r with
      | Err err =>
          CreateExecutionLog LogLevelError
            ("获取 manifest 失败 (" +:+ sourceRepoPath +:+ ":" +:+ tag
             +:+ "): " +:+ Error err) ;;;
          plan_tags sourceClient task repoName sourceRepoPath filteredTags'
                    allRepoTags totalBlobsCount
      | Ok manifest =>
          let blobs := GetAllBlobs manifest in
          let totalBlobsCount := totalBlobsCount + Z.of_nat (length blobs) in
          let allRepoTags :=
            allRepoTags ++
            [{| repoName := repoName; tag := tag; manifest := manifest;
                sourceRepo := sourceRepoPath;
                targetRepo := SyncTask.GetTargetRepoPath task repoName |}] in
          plan_tags sourceClient task repoName sourceRepoPath filteredTags'
                    allRepoTags totalBlobsCount
      end
  end.

(** The first loop over [repositories]. *)
Fixpoint plan_repositories (sourceClient : Client) (task : SyncTask.t)
         (repositories : list string)
         (allRepoTags : list repoTagInfo) (totalBlobsCount : Z)
  : M World (list repoTagInfo * Z) :=
  match repositories with
  | [] => ret (allRepoTags, totalBlobsCount)
  | repoName :: repositories' =>
      let sourceRepoPath := SyncTask.SourceProject task +:+ "/" +:+ repoName in
      r <- ListTags lib env sourceClient sourceRepoPath ;;
      match r with
      | Err err =>
          CreateExecutionLog LogLevelError
            ("获取仓库 " +:+ sourceRepoPath +:+ " 的 tag 列表失败: "
             +:+ Error err) ;;;
          plan_repositories sourceClient task repositories'
                            allRepoTags totalBlobsCount
      | Ok tags =>
          match filter.NewFilter lib (SyncTask.TagInclude task)
                                 (SyncTask.TagExclude task)
                                 (SyncTask.TagLatest task) with
          | Err err =>
              CreateExecutionLog LogLevelError
                ("创建 tag 过滤器失败: " +:+ Error err) ;;;
              plan_repositories sourceClient task repositories'
                                allRepoTags totalBlobsCount
          | Ok tagFilter =>
              tagInfos <- tag_infos tags ;;
              let filteredTags := filter.FilterTags tagFilter tagInfos in
              r <- plan_tags sourceClient task repoName sourceRepoPath
                             filteredTags allRepoTags totalBlobsCount ;;
              plan_repositories sourceClient task repositories'
                                (fst r) (snd r)
          end
      end
  end.

(** "Sync blobs": the loop over the blobs of one tag.  The counters are
    Go [int]s that count loop iterations; [SyncedSize] is an [int64] sum
    of sizes read from the manifest. *)
Fixpoint sync_blobs (sourceClient targetClient : Client) (repoTag : repoTagInfo)
         (blobs : list Descriptor.t) (execution : Execution.t)
  : M World Execution.t :=
  match blobs with
  | [] => ret execution
  | blob :: blobs' =>
      r <- BlobExists lib env targetClient (targetRepo repoTag)
                      (Descriptor.Digest blob) ;;
      match r with
      | Err err =>
          CreateExecutionLog LogLevelError
            ("检查 blob 失败: " +:+ Error err) ;;;
          sync_blobs sourceClient targetClient repoTag blobs'
            (Execution.set_counters
               (Execution.SyncedBlobs execution)
               (Execution.SkippedBlobs execution)
               (Execution.FailedBlobs execution + 1)
               (Execution.SyncedSize execution) execution)
      | Ok (exists_, _) =>
          execution <-
            (if exists_ then
               ret (Execution.set_counters
                      (Execution.SyncedBlobs execution + 1)
                      (Execution.SkippedBlobs execution + 1)
                      (Execution.FailedBlobs execution)
                      (Execution.SyncedSize execution) execution)
             else
               err <- CopyBlob lib env sourceClient targetClient
                               (sourceRepo repoTag) (targetRepo repoTag)
                               (Descriptor.Digest blob)
                               (Descriptor.Size blob) ;;
               match err with
               | Some err =>
                   d <- eval (digest12 (Descriptor.Digest blob)) ;;
                   CreateExecutionLog LogLevelError
                     ("复制 blob 失败 (" +:+ d +:+ "): " +:+ Error err) ;;;
                   ret (Execution.set_counters
                          (Execution.SyncedBlobs execution)
                          (Execution.SkippedBlobs execution)
                          (Execution.FailedBlobs execution + 1)
                          (Execution.SyncedSize execution) execution)
               | None =>
                   ret (Execution.set_counters
                          (Execution.SyncedBlobs execution + 1)
                          (Execution.SkippedBlobs execution)
                          (Execution.FailedBlobs execution)
                          (wrap64 (Execution.SyncedSize execution
                                   + Descriptor.Size blob)) execution)
               end) ;;
          (* s.store.UpdateExecution(execution); s.hub.BroadcastProgress(...) *)
          sync_blobs sourceClient targetClient repoTag blobs' execution
      end
  end.

(** The second loop, over [allRepoTags]. *)
Fixpoint sync_tags (sourceClient targetClient : Client) (total : nat)
         (tagIndex : Z) (currentRepo : string) (allRepoTags : list repoTagInfo)
         (execution : Execution.t) : M World Execution.t :=
  match allRepoTags with
  | [] => ret execution
  | repoTag :: allRepoTags' =>
      (if negb (String.eqb (repoName repoTag) currentRepo) then
         CreateExecutionLog LogLevelInfo
           ("开始同步仓库: " +:+ sourceRepo repoTag +:+ " -> "
            +:+ targetRepo repoTag)
       else ret tt) ;;;
      let currentRepo := repoName repoTag in
      CreateExecutionLog LogLevelInfo
        ("[" +:+ itoa (tagIndex + 1) +:+ "/" +:+ itoa (Z.of_nat total)
         +:+ "] 同步 tag: " +:+ repoName repoTag +:+ ":" +:+ tag repoTag) ;;;
      let blobs := GetAllBlobs (manifest repoTag) in
      CreateExecutionLog LogLevelInfo
        ("tag " +:+ tag repoTag +:+ " 有 "
         +:+ itoa (Z.of_nat (length blobs)) +:+ " 个 blob") ;;;
      execution <- sync_blobs sourceClient targetClient repoTag blobs
                              execution ;;
      r <- PutManifest lib env targetClient (targetRepo repoTag)
                       (tag repoTag) (manifest repoTag) ;;
      match r with
      | Err err =>
          CreateExecutionLog LogLevelError
            ("上传 manifest 失败 (" +:+ tag repoTag +:+ "): "
             +:+ Error err) ;;;
          sync_tags sourceClient targetClient total (tagIndex + 1)
                    currentRepo allRepoTags' execution
      | Ok _ =>
          CreateExecutionLog LogLevelInfo
            ("tag " +:+ tag repoTag +:+ " 同步完成") ;;;
          sync_tags sourceClient targetClient total (tagIndex + 1)
                    currentRepo allRepoTags' execution
      end
  end.

(** [runTask] in two parts.  [prepare] is its first part, up to the
    list of repositories: what it hands on are the two clients and that
    list, or the error [runTask] returns.  The errors of this part are
    made with [fmt.Errorf(errMsg)]: a new error that wraps nothing,
    whose text is [errMsg] read as a format.  The execution record is
    updated in place in the source; here its final value comes back
    with the error. *)
Definition prepare (task : SyncTask.t)
  : M World (result (Client * Client * list string)) :=
  match GetRegistry store (SyncTask.SourceRegistry task) with
  | Err err => ret (Err (Wrapf "failed to load source registry: " err))
  | Ok sourceReg =>
  match GetRegistry store (SyncTask.TargetRegistry task) with
  | Err err => ret (Err (Wrapf "failed to load target registry: " err))
  | Ok targetReg =>
  CreateExecutionLog LogLevelInfo
    ("开始同步: " +:+ Registry.Name sourceReg +:+ "/"
     +:+ SyncTask.GetSourceRepoPath task +:+ " -> "
     +:+ Registry.Name targetReg +:+ "/" +:+ SyncTask.TargetProject task) ;;;
  let sourceClient :=
    NewClient (config.NormalizeRegistryURL (Registry.URL sourceReg))
              (Registry.Username sourceReg) (Registry.Password sourceReg)
              (Registry.Insecure sourceReg) (Registry.RateLimit sourceReg) in
  let targetClient :=
    NewClient (config.NormalizeRegistryURL (Registry.URL targetReg))
              (Registry.Username targetReg) (Registry.Password targetReg)
              (Registry.Insecure targetReg) (Registry.RateLimit targetReg) in
  CreateExecutionLog LogLevelInfo "测试 Registry 连接..." ;;;
  ping <- PingCheck lib env sourceClient ;;
  match ping with
  | Some err =>
      let errMsg := "源 Registry 连接失败: " +:+ Error err in
      CreateExecutionLog LogLevelError errMsg ;;;
      ret (Err (Errorf (Sprintf (text lib) errMsg)))
  | None =>
  ping <- PingCheck lib env targetClient ;;
  match ping with
  | Some err =>
      let errMsg := "目标 Registry 连接失败: " +:+ Error err in
      CreateExecutionLog LogLevelError errMsg ;;;
      ret (Err (Errorf (Sprintf (text lib) errMsg)))
  | None =>
  CreateExecutionLog LogLevelInfo "Registry 连接成功" ;;;
  CreateExecutionLog LogLevelInfo
    ("检查目标项目 " +:+ SyncTask.TargetProject task +:+ " 是否存在...") ;;;
  found <- ProjectExists lib env fuel targetClient
                         (SyncTask.TargetProject task) ;;
  created <-
    match found with
    | Err err =>
        CreateExecutionLog LogLevelInfo
          ("无法检查项目存在性（可能不是 Harbor）: " +:+ Error err) ;;;
        ret None
    | Ok false =>
        CreateExecutionLog LogLevelInfo
          ("目标项目 " +:+ SyncTask.TargetProject task
           +:+ " 不存在，正在创建...") ;;;
        c <- CreateProject lib env targetClient
                           (SyncTask.TargetProject task) true ;;
        match c with
        | Some err =>
            let errMsg := "创建目标项目失败: " +:+ Error err in
            CreateExecutionLog LogLevelError errMsg ;;;
            ret (Some (Errorf (Sprintf (text lib) errMsg)))
        | None =>
            CreateExecutionLog LogLevelInfo
              ("成功创建目标项目 " +:+ SyncTask.TargetProject task) ;;;
            ret None
        end
    | Ok true =>
        CreateExecutionLog LogLevelInfo
          ("目标项目 " +:+ SyncTask.TargetProject task +:+ " 已存在") ;;;
        ret None
    end ;;
  match created with
  | Some err => ret (Err err)
  | None =>
  listed <-
    (if String.eqb (SyncTask.SourceRepo task) "" then
       CreateExecutionLog LogLevelInfo
         ("获取项目 " +:+ SyncTask.SourceProject task
          +:+ " 的仓库列表...") ;;;
       repos <- ListRepositories lib env fuel sourceClient
                                 (SyncTask.SourceProject task) ;;
       match repos with
       | Err err =>
           let errMsg := "获取仓库列表失败: " +:+ Error err in
           CreateExecutionLog LogLevelError errMsg ;;;
           ret (Err (Errorf (Sprintf (text lib) errMsg)))
       | Ok repos =>
           CreateExecutionLog LogLevelInfo
             ("找到 " +:+ itoa (Z.of_nat (length repos)) +:+ " 个仓库: "
              +:+ show_strings repos) ;;;
           ret (Ok repos)
       end
     else
       CreateExecutionLog LogLevelInfo
         ("同步单个仓库: " +:+ SyncTask.SourceRepo task) ;;;
       ret (Ok [SyncTask.SourceRepo task])) ;;
  match listed with
  | Err err => ret (Err err)
  | Ok repositories => ret (Ok (sourceClient, targetClient, repositories))
  end end end end end end.

Definition runTask (task : SyncTask.t) (execution : Execution.t)
  : M World (Execution.t * option error) :=
  ready <- prepare task ;;
  match ready with
  | Err err => ret (execution, Some err)
  | Ok (sourceClient, targetClient, repositories) =>
  CreateExecutionLog LogLevelInfo
    "正在分析所有仓库，计算需要同步的总数据量..." ;;;
  plan <- plan_repositories sourceClient task repositories [] 0 ;;
  let allRepoTags := fst plan in
  let totalBlobsCount := snd plan in
  let execution := Execution.set_TotalBlobs totalBlobsCount execution in
  CreateExecutionLog LogLevelInfo
    ("分析完成：共 " +:+ itoa (Z.of_nat (length repositories))
     +:+ " 个仓库，" +:+ itoa (Z.of_nat (length allRepoTags))
     +:+ " 个 tag，" +:+ itoa totalBlobsCount +:+ " 个 blob 需要同步") ;;;
  execution <- sync_tags sourceClient targetClient (length allRepoTags) 0 ""
                         allRepoTags execution ;;
  CreateExecutionLog LogLevelInfo
    ("全部完成！共同步 " +:+ itoa (Execution.SyncedBlobs execution)
     +:+ " 个 blob，跳过 " +:+ itoa (Execution.SkippedBlobs execution)
     +:+ " 个，失败 " +:+ itoa (Execution.FailedBlobs execution) +:+ " 个") ;;;
  ret (execution, None)
  end.

(** [pkg/notification]: a task notification goes out to a channel of a
    supported type; the webhook call itself is recorded as a notice. *)
Definition SendTaskNotification (channel : NotificationChannel.t)
           (status : string) : M World (option error) :=
  if (String.eqb (NotificationChannel.Type_ channel) "wechat" ||
      String.eqb (NotificationChannel.Type_ channel) "dingtalk")%bool
  then modify (add_notice (NotificationChannel.ID channel) status) ;;;
       ret None
  else ret (Some (Errorf ("unsupported channel type: "
                          +:+ NotificationChannel.Type_ channel))).

Fixpoint notify_channels (status : string) (channelIDs : list N)
  : M World unit :=
  match channelIDs with
  | [] => ret tt
  | channelID :: channelIDs' =>
      match GetNotificationChannel store channelID with
      | Err _ => notify_channels status channelIDs'
      | Ok channel =>
          if negb (NotificationChannel.Enabled channel)
          then notify_channels status channelIDs'
          else
            SendTaskNotification channel status ;;;
            notify_channels status channelIDs'
      end
  end.

Definition sendNotification (task : SyncTask.t) (status : string)
           (execution : Execution.t) : M World unit :=
  if negb (SyncTask.SendNotification task) then ret tt
  else if (String.eqb (SyncTask.NotificationCondition task) "failed" &&
           negb (String.eqb status (status_string StatusFailed)))%bool
  then ret tt
  else
    match (if negb (String.eqb (SyncTask.NotificationChannelIDs task) "")
           then json_Unmarshal_uints lib (SyncTask.NotificationChannelIDs task)
           else Ok []) with
    | Err _ => ret tt
    | Ok channelIDs =>
        if Z.of_nat (length channelIDs) =? 0 then ret tt
        else notify_channels status channelIDs
    end.

(** The body of the goroutine started by [ExecuteTask], up to the final
    progress broadcast. *)
Definition background (task : SyncTask.t) (execution : Execution.t)
  : M World Execution.t :=
  r <- runTask task execution ;;
  let execution := fst r in
  match snd r with
  | Some err =>
      endTime <- Now ;;
      let execution :=
        Execution.finish StatusFailed endTime (Error err) execution in
      (* s.store.UpdateExecution(execution); s.hub.BroadcastLog(...) *)
      sendNotification task (status_string (Execution.Status execution))
                       execution ;;;
      ret execution
  | None =>
      endTime <- Now ;;
      let execution :=
        Execution.finish StatusSuccess endTime
                         (Execution.ErrorMessage execution) execution in
      sendNotification task (status_string (Execution.Status execution))
                       execution ;;;
      ret execution
  end.

End RunTask.

(** ** The scheduler and its [running] map

    [running] maps a task id to the cancel function of its execution
    context; a cancel function is named by the ID of the execution it
    belongs to.  [executions] is the table of the store, [cancelled] the
    contexts whose cancel function has been called. *)
Record Scheduler := {
  running : gmap N N;
  executions : list Execution.t;
  cancelled : gset N
}.

Definition NewScheduler : Scheduler :=
  {| running := ∅; executions := []; cancelled := ∅ |}.

(** [ExecuteTask] takes no lock, and the handlers of the API, the cron
    jobs and the goroutines of earlier calls all reach the scheduler.
    A call is therefore three steps between which others may run: the
    check of [running], the creation of the execution, and the entry
    into [running] that precedes the start of the goroutine. *)

(** The check: [if _, exists := s.running[taskID]; exists]. *)
Definition already_running (s : Scheduler) (taskID : N) : option error :=
  match running s !! taskID with
  | Some _ =>
      Some (Errorf ("task " +:+ itoa (Z.of_N taskID)
                    +:+ " is already running"))
  | None => None
  end.

(** From [store.GetTask] to [store.CreateExecution].  [now] is the
    clock, [created] is what [store.CreateExecution] answers. *)
Definition create_execution (store : Store) (s : Scheduler) (taskID : N)
           (now : Z) (created : option error)
  : Scheduler * result Execution.t :=
  match GetTask store taskID with
  | Err err => (s, Err (Wrapf "failed to load task: " err))
  | Ok task =>
      match created with
      | Some err => (s, Err (Wrapf "failed to create execution: " err))
      | None =>
          let id := (N.of_nat (length (executions s)) + 1)%N in
          let execution :=
            {| Execution.ID := id;
               Execution.TaskID := SyncTask.ID task;
               Execution.Status := StatusRunning;
               Execution.StartTime := now;
               Execution.EndTime := None;
               Execution.TotalBlobs := 0;
               Execution.SyncedBlobs := 0;
               Execution.SkippedBlobs := 0;
               Execution.FailedBlobs := 0;
               Execution.TotalSize := 0;
               Execution.SyncedSize := 0;
               Execution.ErrorMessage := "" |} in
          ({| running := running s;
              executions := executions s ++ [execution];
              cancelled := cancelled s |}, Ok execution)
      end
  end.

(** [s.running[taskID] = cancel] *)
Definition register (s : Scheduler) (taskID : N) (execution : Execution.t)
  : Scheduler :=
  {| running := <[taskID := Execution.ID execution]> (running s);
     executions := executions s;
     cancelled := cancelled s |}.

(** [ExecuteTask] when nothing else runs between its steps, up to the
    start of the goroutine. *)
Definition ExecuteTask (store : Store) (s : Scheduler) (taskID : N)
           (now : Z) (created : option error) : Scheduler * option error :=
  match already_running s taskID with
  | Some err => (s, Some err)
  | None =>
      match create_execution store s taskID now created with
      | (s, Err err) => (s, Some err)
      | (s, Ok execution) => (register s taskID execution, None)
      end
  end.

Definition CancelTask (s : Scheduler) (taskID : N)
  : Scheduler * option error :=
  match running s !! taskID with
  | None =>
      (s, Some (Errorf ("task " +:+ itoa (Z.of_N taskID)
                        +:+ " is not running")))
  | Some cancel =>
      ({| running := delete taskID (running s);
          executions := executions s;
          cancelled := {[ cancel ]} ∪ cancelled s |}, None)
  end.

(** [s.store.UpdateExecution(execution)] *)
Definition UpdateExecution (execution : Execution.t)
           (table : list Execution.t) : list Execution.t :=
  map (fun row => if (Execution.ID row =? Execution.ID execution)%N
                  then execution else row) table.

(** The goroutine of an execution saves its record while it runs and
    when it ends. *)
Definition save (s : Scheduler) (execution : Execution.t) : Scheduler :=
  {| running := running s;
     executions := UpdateExecution execution (executions s);
     cancelled := cancelled s |}.

(** The deferred [delete(s.running, taskID)] of the goroutine. *)
Definition forget (s : Scheduler) (taskID : N) : Scheduler :=
  {| running := delete taskID (running s);
     executions := executions s;
     cancelled := cancelled s |}.

(** Executions of a task that hold status [running]. *)
Definition running_executions (s : Scheduler) (taskID : N)
  : list Execution.t :=
  List.filter (fun e => ((Execution.TaskID e =? taskID)%N
                         && Execution.IsRunning e)%bool)
              (executions s).

End scheduler.

(* ===================================================================== *)
(** * pkg/sync/worker.go: the rest of the pool *)
(* ===================================================================== *)

Module worker.
Import GoString engine.

Section Pool.
Context (lib : Lib) (env : Env).

(** [BatchSubmit]: the first task that cannot be submitted ends it. *)
Fixpoint BatchSubmit (p : WorkerPool) (tasks : list BlobSyncTask)
  : M World (WorkerPool * option error) :=
  match tasks with
  | [] => ret (p, None)
  | task :: tasks' =>
      r <- Submit lib env p task ;;
      match r with
      | (p, Some err) => ret (p, Some err)
      | (p, None) => BatchSubmit p tasks'
      end
  end.

End Pool.

(** [GetErrors] hands out a copy of the errors. *)
Definition GetErrors (p : WorkerPool) : list error := errors p.

(** [GetProgress] *)
Definition GetProgress (p : WorkerPool) : Z * Z * Z :=
  (totalTasks p, doneTasks p, failedTasks p).

(** [IsComplete] *)
Definition IsComplete (p : WorkerPool) : bool :=
  ((totalTasks p >? 0) && (totalTasks p =? doneTasks p))%bool.

End worker.

(* ===================================================================== *)
(** * pkg/sync/retry.go: the retrying HTTP client *)
(* ===================================================================== *)

Module retry_client.
Import GoString retry.

(** [RetryableHTTPClient.Do] runs one and the same [*http.Request]
    through [RetryWithBackoff].  Besides the world, the function literal
    shares with [Do] the body reader of the request, which every round
    trip reads further, and the variable [resp]. *)
Record Pending := {
  world : World;
  unsent : string;           (* what the body reader of [req] still holds *)
  resp : option Response     (* nil until a round trip assigns it *)
}.

Section Do.
Context (lib : Lib) (env : Env).

(** [case <-time.After(backoff)] against [<-ctx.Done()], for the context
    of the request. *)
Definition after (backoff : Z) : M Pending (option error) :=
  fun s =>
    match ctx_Err env (world s) with
    | Some e => (Returned (Some e), s)
    | None =>
        (Returned None,
         {| world := add_sleep backoff (world s); unsent := unsent s;
            resp := resp s |})
    end.

(** The function literal: [resp, err = r.Client.Do(req)], then the
    check of the status. *)
Definition attempt (req : Request) : M Pending (option error) :=
  fun s =>
    let sent := {| Method := Method req; URL := URL req;
                   Header := Header req; Auth := Auth req;
                   Body := unsent s |} in
    match registry.Do lib env sent (world s) with
    | (Returned rt, w) =>
        let rest := String.substring (Consumed rt)
                                     (String.length (unsent s) - Consumed rt)
                                     (unsent s) in
        match Reply rt with
        | Err err =>
            (Returned (Some err),
             {| world := w; unsent := rest; resp := None |})
        | Ok r =>
            let s' := {| world := w; unsent := rest; resp := Some r |} in
            if ((StatusCode r >=? 500) || (StatusCode r =? 429))%bool
            then (Returned (Some (Errorf ("retryable status code: "
                                          +:+ itoa (StatusCode r)))), s')
            else (Returned None, s')
        end
    | (Panicked msg, w) =>
        (Panicked msg, {| world := w; unsent := unsent s; resp := resp s |})
    | (Unfinished, w) =>
        (Unfinished, {| world := w; unsent := unsent s; resp := resp s |})
    end.

(** [Do]: the response and the error it returns. *)
Definition Do (config : RetryConfig) (req : Request)
  : M World (option Response * option error) :=
  fun w =>
    match RetryWithBackoff (text lib) after config (attempt req)
                           {| world := w; unsent := Body req; resp := None |}
    with
    | (Returned (Some retryErr), s) => (Returned (None, Some retryErr), world s)
    | (Returned None, s) => (Returned (resp s, None), world s)
    | (Panicked msg, s) => (Panicked msg, world s)
    | (Unfinished, s) => (Unfinished, world s)
    end.

(** [WithRetry] *)
Definition WithRetry {S} (after : Z -> M S (option error))
           (config : RetryConfig) (fn : M S (option error))
  : M S (option error) :=
  RetryWithBackoff (text lib) after config fn.

End Do.
End retry_client.

(* ===================================================================== *)
(** * pkg/sync/engine.go: rules *)
(* ===================================================================== *)

Module rules.
Import GoString retry registry.

(** The engine with its configuration; [core] is what [SyncTag] and the
    functions below it read. *)
Record Engine := {
  cfg : config.Config.t;
  core : engine.Engine
}.

Definition NewEngine (cfg : config.Config.t) (dryRun : bool) : Engine :=
  let g := config.Config.Global cfg in
  {| cfg := cfg;
     core :=
       {| engine.Concurrency := config.GlobalConfig.Concurrency g;
          engine.retryConfig :=
            {| MaxAttempts := config.GlobalConfig.Retry_MaxAttempts g;
               InitialInterval := config.GlobalConfig.Retry_InitialInterval g;
               MaxInterval := config.GlobalConfig.Retry_MaxInterval g |};
          engine.dryRun := dryRun |} |}.

(** The fields of a rule that [SyncTag] reads. *)
Definition view (rule : config.SyncRule.t) : engine.SyncRule :=
  {| engine.Name := config.SyncRule.Name rule;
     engine.Source_Repository := config.SyncRule.Source_Repository rule;
     engine.Target_Repository := config.SyncRule.Target_Repository rule;
     engine.Architectures := config.SyncRule.Architectures rule |}.

Definition client_of (reg : config.Registry.t) : Client :=
  NewClient (config.NormalizeRegistryURL (config.Registry.URL reg))
            (config.Registry.Username reg) (config.Registry.Password reg)
            (config.Registry.Insecure reg) (config.Registry.RateLimit_QPS reg).

Section Rules.
Context `{SliceSorter} (lib : Lib) (env : Env).

(** "Sync each tag" *)
Fixpoint sync_each (e : Engine) (source target : Client)
         (rule : config.SyncRule.t) (tags : list string)
  : M World (option error) :=
  match tags with
  | [] => ret None
  | tag :: tags' =>
      r <- engine.SyncTag lib env (core e) source target (view rule) tag ;;
      match r with
      | Some err =>
          ret (Some (Wrapf ("failed to sync tag " +:+ tag +:+ ": ") err))
      | None => sync_each e source target rule tags'
      end
  end.

Definition SyncRule (e : Engine) (rule : config.SyncRule.t)
  : M World (option error) :=
  match config.GetRegistry (cfg e) (config.SyncRule.Source_Registry rule) with
  | Err err => ret (Some err)
  | Ok sourceReg =>
  match config.GetRegistry (cfg e) (config.SyncRule.Target_Registry rule) with
  | Err err => ret (Some err)
  | Ok targetReg =>
  let sourceClient := client_of sourceReg in
  let targetClient := client_of targetReg in
  ping <- PingCheck lib env sourceClient ;;
  match ping with
  | Some err =>
      ret (Some (Wrapf "failed to connect to source registry: " err))
  | None =>
  ping <- PingCheck lib env targetClient ;;
  match ping with
  | Some err =>
      ret (Some (Wrapf "failed to connect to target registry: " err))
  | None =>
  r <- ListTags lib env sourceClient (config.SyncRule.Source_Repository rule) ;;
  match r with
  | Err err => ret (Some (Wrapf "failed to list tags: " err))
  | Ok tags =>
  match filter.NewFilter lib
          (config.TagFilter.Include (config.SyncRule.Tags rule))
          (config.TagFilter.Exclude (config.SyncRule.Tags rule))
          (config.TagFilter.Latest (config.SyncRule.Tags rule)) with
  | Err err => ret (Some (Wrapf "failed to create tag filter: " err))
  | Ok tagFilter =>
  tagInfos <- scheduler.tag_infos env tags ;;
  let filteredTags := filter.FilterTags tagFilter tagInfos in
  if Z.of_nat (length filteredTags) =? 0 then ret None
  else if engine.dryRun (core e) then ret None
  else sync_each e sourceClient targetClient rule filteredTags
  end end end end end end.

Fixpoint sync_rules (e : Engine) (rules : list config.SyncRule.t)
  : M World (option error) :=
  match rules with
  | [] => ret None
  | rule :: rules' =>
      r <- SyncRule e rule ;;
      match r with
      | Some err => ret (Some err)
      | None => sync_rules e rules'
      end
  end.

Definition SyncAll (e : Engine) : M World (option error) :=
  let rules := config.GetEnabledRules (cfg e) in
  if Z.of_nat (length rules) =? 0
  then ret (Some (Errorf "no enabled sync rules found"))
  else sync_rules e rules.

End Rules.
End rules.

(* ===================================================================== *)
(** * internal/websocket/hub.go *)
(* ===================================================================== *)

Module websocket.

(** A [chan []byte] with a buffer: the messages waiting in it, and
    whether it has been closed. *)
Record Channel := { queue : list string; closed : bool }.

(** [make(chan []byte, 256)] *)
Definition capacity : nat := 256.

(** The hub and the clients that exist.  A [*Client] is the position of
    its [send] channel in [heap]; [clients] is the set of keys of the
    map [h.clients]. *)
Record Hub := { clients : gset nat; heap : list Channel }.

Definition NewHub : Hub := {| clients := ∅; heap := [] |}.

(** [NewClient]: a new client with an empty, open channel. *)
Definition NewClient : M Hub nat :=
  fun h =>
    (Returned (length (heap h)),
     {| clients := clients h;
        heap := heap h ++ [{| queue := []; closed := false |}] |}).

(** [close(client.send)] *)
Definition close_send (c : nat) : M Hub unit :=
  fun h =>
    match heap h !! c with
    | None => (Panicked "close of nil channel", h)
    | Some ch =>
        if closed ch then (Panicked "close of closed channel", h)
        else (Returned tt,
              {| clients := clients h;
                 heap := <[c := {| queue := queue ch; closed := true |}]> (heap h) |})
    end.

(** [delete(h.clients, client)] *)
Definition forget (c : nat) : M Hub unit :=
  modify (fun h => {| clients := clients h ∖ {[ c ]}; heap := heap h |}).

(** The three cases of the [select] of [Run]. *)
Definition on_register (c : nat) : M Hub unit :=
  modify (fun h => {| clients := {[ c ]} ∪ clients h; heap := heap h |}).

Definition on_unregister (c : nat) : M Hub unit :=
  h <- get ;;
  if decide (c ∈ clients h) then (forget c ;;; close_send c) else ret tt.

(** The inner [select]: the message goes into the channel of the client
    if there is room; otherwise the client is closed and dropped.  A
    send on a closed channel panics, whatever the [default]. *)
Definition offer (message : string) (c : nat) : M Hub unit :=
  h <- get ;;
  match heap h !! c with
  | Some ch =>
      if closed ch then fun h => (Panicked "send on closed channel", h)
      else if (length (queue ch) <? capacity)%nat then
        modify (fun h =>
                  {| clients := clients h;
                     heap := <[c := {| queue := queue ch ++ [message];
                                       closed := false |}]> (heap h) |})
      else close_send c ;;; forget c
  | None => close_send c ;;; forget c
  end.

Fixpoint offer_all (message : string) (cs : list nat) : M Hub unit :=
  match cs with
  | [] => ret tt
  | c :: cs' => offer message c ;;; offer_all message cs'
  end.

(** The clients come out of the map in no particular order; what is done
    for one of them does not touch another. *)
Definition on_broadcast (message : string) : M Hub unit :=
  h <- get ;;
  offer_all message (elements (clients h)).

(** [WritePump] takes the next message out of the channel of its
    client. *)
Definition receive (c : nat) : M Hub (option string) :=
  fun h =>
    match heap h !! c with
    | Some ch =>
        match queue ch with
        | message :: rest =>
            (Returned (Some message),
             {| clients := clients h;
                heap := <[c := {| queue := rest; closed := closed ch |}]> (heap h) |})
        | [] => (Returned None, h)
        end
    | None => (Returned None, h)
    end.

(** What happens to a hub that serves connections as [main] sets them
    up: a connection makes a client and registers it; the read pump of
    a client unregisters it when it ends; the scheduler broadcasts; the
    write pump of a client takes a message. *)
Inductive Action : Type :=
| Connect
| Leave (c : nat)
| Publish (message : string)
| Deliver (c : nat).

Definition act (a : Action) : M Hub unit :=
  match a with
  | Connect => c <- NewClient ;; on_register c
  | Leave c => on_unregister c
  | Publish message => on_broadcast message
  | Deliver c => receive c ;;; ret tt
  end.

Fixpoint run (actions : list Action) : M Hub unit :=
  match actions with
  | [] => ret tt
  | a :: actions' => act a ;;; run actions'
  end.

End websocket.

(* ===================================================================== *)
(** * Proofs *)
(* ===================================================================== *)

(** ** The monad *)

Lemma bind_returned {S A B} (c : M S A) (k : A -> M S B) s a s' :
  c s = (Returned a, s') -> bind c k s = k a s'.
Proof. intros E. unfold bind. now rewrite E. Qed.

Lemma bind_panicked {S A B} (c : M S A) (k : A -> M S B) s msg s' :
  c s = (Panicked msg, s') -> bind c k s = (Panicked msg, s').
Proof. intros E. unfold bind. now rewrite E. Qed.

Lemma bind_inv {S A B} (c : M S A) (k : A -> M S B) s b s2 :
  bind c k s = (Returned b, s2) ->
  exists a s1, c s = (Returned a, s1) /\ k a s1 = (Returned b, s2).
Proof.
  unfold bind. destruct (c s) as [[a | msg | ] s1]; intros E; try discriminate.
  now exists a, s1.
Qed.

(** ** An instance of the sorting contract: insertion sort *)

Module insertion.

Fixpoint insert {A} (less : A -> A -> bool) (x : A) (l : list A) : list A :=
  match l with
  | [] => [x]
  | y :: l' => if less x y then x :: l else y :: insert less x l'
  end.

Definition sort {A} (less : A -> A -> bool) (l : list A) : list A :=
  fold_right (insert less) [] l.

Lemma insert_perm {A} (less : A -> A -> bool) x l :
  Permutation (insert less x l) (x :: l).
Proof.
  induction l as [| y l IH]; simpl.
  - reflexivity.
  - destruct (less x y).
    + reflexivity.
    + rewrite IH. apply perm_swap.
Qed.

Lemma sort_perm {A} (less : A -> A -> bool) l : Permutation (sort less l) l.
Proof.
  induction l as [| x l IH]; simpl.
  - reflexivity.
  - rewrite insert_perm. now constructor.
Qed.

Lemma insert_sorted {A} (key : A -> Z) x l :
  StronglySorted (fun a b => key b <= key a) l ->
  StronglySorted (fun a b => key b <= key a)
                 (insert (fun a b => key b <? key a) x l).
Proof.
  induction 1 as [| y l Hl IH Hy]; simpl.
  - repeat constructor.
  - destruct (Z.ltb_spec (key y) (key x)) as [Hlt | Hge].
    + constructor; [now constructor |].
      constructor; [lia |].
      eapply List.Forall_impl; [| exact Hy]. simpl. intros z Hz. lia.
    + constructor; [exact IH |].
      rewrite List.Forall_forall. intros z Hz.
      apply (Permutation_in _ (insert_perm _ x l)) in Hz.
      destruct Hz as [-> | Hz]; [lia |].
      rewrite List.Forall_forall in Hy. now apply Hy.
Qed.

Lemma sort_sorted {A} (key : A -> Z) l :
  StronglySorted (fun a b => key b <= key a)
                 (sort (fun a b => key b <? key a) l).
Proof.
  induction l as [| x l IH]; simpl.
  - constructor.
  - now apply insert_sorted.
Qed.

End insertion.

#[export] Instance insertion_sorter : SliceSorter :=
  {| sort_Slice := @insertion.sort;
     sort_Slice_perm := @insertion.sort_perm;
     sort_Slice_sorted := @insertion.sort_sorted |}.

(** ** pkg/filter *)

Module filter_proofs.
Import regexp filter.

(** What the specification keeps: no exclude pattern matches, and some
    include pattern does unless there is none. *)
Definition kept (f : Filter) (t : TagInfo) : bool :=
  (negb (existsb (fun re => MatchString re (Name t)) (Exclude f)) &&
   match Include f with
   | [] => true
   | _ => existsb (fun re => MatchString re (Name t)) (Include f)
   end)%bool.

Lemma Match_kept f t : Match f (Name t) = kept f t.
Proof.
  unfold Match, kept.
  destruct (existsb _ (Exclude f)); simpl; [reflexivity |].
  destruct (Include f) as [| re res]; simpl; [reflexivity |].
  now destruct (MatchString re (Name t) || existsb _ res)%bool.
Qed.

Lemma In_firstn {A} (n : nat) (l : list A) x : In x (firstn n l) -> In x l.
Proof.
  intros Hx. rewrite <- (firstn_skipn n l). apply in_or_app. now left.
Qed.

Lemma latest_limit {A} (n : Z) (l : list A) :
  (if ((n >? 0) && (Z.of_nat (length l) >? n))%bool
   then firstn (Z.to_nat n) l else l)
  = if n >? 0 then firstn (Z.to_nat n) l else l.
Proof.
  destruct (Z.gtb_spec n 0) as [Hn | Hn]; simpl; [| reflexivity].
  destruct (Z.gtb_spec (Z.of_nat (length l)) n) as [Hl | Hl]; [reflexivity |].
  symmetry. apply firstn_all2. lia.
Qed.

(** C3.  For every filter and every list of (tag, updated-at) pairs,
    [FilterTags] returns the names of a list [sorted] where [sorted] is
    a rearrangement of exactly the tags the filter keeps (no exclude
    pattern matches; some include pattern matches, or there is none),
    ordered by updated-at descending, cut to its first N entries when
    N > 0; and a name matched by an exclude pattern never comes out,
    whatever the include patterns say. *)
Theorem FilterTags_equation `{SliceSorter} (f : Filter) (tags : list TagInfo) :
  (exists sorted : list TagInfo,
      Permutation sorted (List.filter (kept f) tags) /\
      StronglySorted (fun a b => Updated b <= Updated a) sorted /\
      FilterTags f tags =
        map Name (if Latest f >? 0
                  then firstn (Z.to_nat (Latest f)) sorted else sorted)) /\
  (forall name,
      existsb (fun re => MatchString re name) (Exclude f) = true ->
      ~ In name (FilterTags f tags)).
Proof.
  set (matched := List.filter (fun tag => Match f (Name tag)) tags).
  set (sorted := sort_Slice (fun a b => After (Updated a) (Updated b)) matched).
  assert (Hperm : Permutation sorted (List.filter (kept f) tags)).
  { unfold sorted. rewrite sort_Slice_perm. unfold matched.
    erewrite filter_ext; [reflexivity |]. intros t. apply Match_kept. }
  assert (Heq : FilterTags f tags =
                map Name (if Latest f >? 0
                          then firstn (Z.to_nat (Latest f)) sorted else sorted)).
  { unfold FilterTags. fold matched. fold sorted. now rewrite latest_limit. }
  split.
  - exists sorted. split; [exact Hperm |]. split; [| exact Heq].
    exact (sort_Slice_sorted TagInfo Updated matched).
  - intros name Hex Hin. rewrite Heq in Hin.
    apply in_map_iff in Hin. destruct Hin as [t [Hname Ht]].
    assert (Hs : In t sorted).
    { destruct (Latest f >? 0); [now apply In_firstn in Ht | exact Ht]. }
    apply (Permutation_in _ Hperm) in Hs.
    apply filter_In in Hs. destruct Hs as [_ Hk].
    unfold kept in Hk. rewrite Hname, Hex in Hk. discriminate.
Qed.

(** The equation at work: four tags, one include and one exclude
    pattern (given by the names they match), keep the latest two. *)
Example FilterTags_example :
  FilterTags
    {| Include := [fun s => String.prefix "v" s];
       Exclude := [fun s => String.eqb s "v2-rc"];
       Latest := 2 |}
    [ {| Name := "v1"; Updated := 10 |};
      {| Name := "v2-rc"; Updated := 40 |};
      {| Name := "latest"; Updated := 50 |};
      {| Name := "v3"; Updated := 30 |};
      {| Name := "v2"; Updated := 20 |} ]
  = ["v3"; "v2"].
Proof. reflexivity. Qed.

End filter_proofs.

(** ** pkg/sync/retry.go *)

Module retry_proofs.
Import GoString retry.

(** *** Observing [RetryWithBackoff]

    The operation is given by the result of each of its invocations; the
    context by whether it is done during each wait.  The trace records,
    for every invocation, how many waits preceded it, and every wait. *)
Record Trace := { calls : list nat; waits : list Z }.

Definition scripted (results : nat -> option error) : M Trace (option error) :=
  fun s =>
    (Returned (results (length (calls s))),
     {| calls := calls s ++ [length (waits s)]; waits := waits s |}).

Definition timer (cancel : nat -> option error) (d : Z)
  : M Trace (option error) :=
  fun s =>
    match cancel (length (waits s)) with
    | Some e => (Returned (Some e), s)
    | None => (Returned None, {| calls := calls s; waits := waits s ++ [d] |})
    end.

Section Observed.
Variable text : Text.

Definition observe (config : RetryConfig) (results cancel : nat -> option error)
  : outcome (option error) * Trace :=
  RetryWithBackoff text (timer cancel) config (scripted results)
                   {| calls := []; waits := [] |}.

(** What the loop does to the delay between two waits. *)
Definition next_backoff (config : RetryConfig) (backoff : Z) : Z :=
  let backoff := wrap64 (backoff * 2) in
  if backoff >? MaxInterval config then MaxInterval config else backoff.

(** The delay of wait number [k], counted from 0. *)
Fixpoint delay (config : RetryConfig) (k : nat) : Z :=
  match k with
  | O => InitialInterval config
  | S k' => next_backoff config (delay config k')
  end.

Definition retryable_failure (r : option error) : Prop :=
  exists e, r = Some e /\ isRetryableError text (Some e) = true.

Definition sum (l : list Z) : Z := fold_right Z.add 0 l.

Lemma retry_loop_S {S} (after : Z -> M S (option error)) config fn
      n attempt backoff lastErr :
  retry_loop text after config fn (Datatypes.S n) attempt backoff lastErr =
  (err <- fn ;;
   match err with
   | None => ret None
   | Some e =>
       if negb (isRetryableError text (Some e))
       then ret (Some (Wrapf "non-retryable error: " e))
       else if attempt >=? MaxAttempts config
       then ret (Some (max_retries_exceeded config (Some e)))
       else
         fired <- after backoff ;;
         match fired with
         | Some ctxErr => ret (Some ctxErr)
         | None =>
             retry_loop text after config fn n (attempt + 1)
                        (next_backoff config backoff) (Some e)
         end
   end).
Proof. reflexivity. Qed.

Lemma seq_snoc (a n : nat) : seq a (S n) = seq a n ++ [(a + n)%nat].
Proof. now rewrite seq_S. Qed.

(** [j] failed attempts, each followed by its wait, bring the loop from
    its start to attempt [j + 1]. *)
Lemma retry_loop_prefix config results cancel (j : nat) :
  forall (n : nat),
    Z.of_nat (j + n) = MaxAttempts config ->
    (0 < n)%nat ->
    (forall i, (i < j)%nat -> retryable_failure (results i)) ->
    (forall i, (i < j)%nat -> cancel i = None) ->
    exists lastErr,
      observe config results cancel =
      retry_loop text (timer cancel) config (scripted results)
                 n (Z.of_nat j + 1) (delay config j) lastErr
                 {| calls := seq 0 j; waits := map (delay config) (seq 0 j) |}.
Proof.
  induction j as [| j IH]; intros n Hn Hpos Hres Hcan.
  - exists None. unfold observe, RetryWithBackoff. simpl.
    replace (Z.to_nat (MaxAttempts config)) with n by lia. reflexivity.
  - destruct (IH (S n)) as [lastErr Hobs]; try lia.
    + intros i Hi. apply Hres. lia.
    + intros i Hi. apply Hcan. lia.
    + destruct (Hres j) as [e [He Hretry]]; [lia |].
      exists (Some e). rewrite Hobs, retry_loop_S.
      unfold bind at 1. unfold scripted at 1. cbn [calls waits].
      rewrite length_seq, He, Hretry. cbn [negb].
      destruct (Z.geb_spec (Z.of_nat j + 1) (MaxAttempts config)) as [Hge | _];
        [lia |].
      unfold bind at 1. unfold timer at 1. cbn [calls waits].
      rewrite length_map, length_seq, (Hcan j) by lia.
      rewrite (seq_snoc 0 j), map_app. cbn [map Nat.add delay].
      replace (Z.of_nat (S j) + 1) with (Z.of_nat j + 1 + 1) by lia.
      reflexivity.
Qed.

(** The run that ends at invocation [k] with a success or with an error
    that is not retryable. *)
Lemma observe_ends config results cancel (k : nat) :
  Z.of_nat k < MaxAttempts config ->
  (forall i, (i < k)%nat -> retryable_failure (results i)) ->
  (forall i, (i < k)%nat -> cancel i = None) ->
  isRetryableError text (results k) = false ->
  observe config results cancel =
  (Returned (match results k with
             | None => None
             | Some e => Some (Wrapf "non-retryable error: " e)
             end),
   {| calls := seq 0 (S k); waits := map (delay config) (seq 0 k) |}).
Proof.
  intros Hk Hres Hcan Hend.
  destruct (retry_loop_prefix config results cancel k
              (Z.to_nat (MaxAttempts config) - k)) as [lastErr Hobs];
    try assumption; try lia.
  rewrite Hobs.
  destruct (Z.to_nat (MaxAttempts config) - k)%nat as [| n] eqn:En; [lia |].
  rewrite retry_loop_S. unfold bind at 1. unfold scripted at 1.
  cbn [calls waits]. rewrite length_seq, length_map, length_seq.
  rewrite (seq_snoc 0 k). cbn [Nat.add].
  destruct (results k) as [e |]; [| reflexivity].
  now rewrite Hend.
Qed.

Lemma wrap64_small z : - 2 ^ 63 <= z < 2 ^ 63 -> wrap64 z = z.
Proof.
  intros Hz. unfold wrap64.
  rewrite Z.mod_small; lia.
Qed.

(** With [0 <= initial <= max < 2^62] nothing overflows and the delays
    are the capped powers of two. *)
Lemma delay_closed_form config (k : nat) :
  0 <= InitialInterval config <= MaxInterval config ->
  MaxInterval config < 2 ^ 62 ->
  delay config k =
  Z.min (InitialInterval config * 2 ^ Z.of_nat k) (MaxInterval config).
Proof.
  intros Hinit Hmax. induction k as [| k IH].
  - simpl. lia.
  - simpl delay. unfold next_backoff. rewrite IH.
    replace (2 ^ Z.of_nat (S k)) with (2 ^ Z.of_nat k * 2)
      by (rewrite Nat2Z.inj_succ, Z.pow_succ_r; lia).
    assert (Hp : 0 < 2 ^ Z.of_nat k) by (apply Z.pow_pos_nonneg; lia).
    set (p := 2 ^ Z.of_nat k) in *.
    assert (H0 : 0 <= InitialInterval config * p) by nia.
    rewrite wrap64_small by lia.
    destruct (Z.gtb_spec
                (Z.min (InitialInterval config * p) (MaxInterval config) * 2)
                (MaxInterval config)); lia.
Qed.

(** X29.  Let the operation fail retryably on its first [k]
    invocations, [k] smaller than the number of attempts, with the
    context alive during the waits, and let invocation [k + 1] succeed or
    fail with an error that is not retryable.  Then [RetryWithBackoff]
    returns that success, or that error wrapped, and invokes nothing
    further; invocation [i + 1] comes after exactly [i] waits, so attempt
    1 is immediate; the first wait is the initial delay and every later
    wait is the previous one doubled in [int64], with its wrap-around,
    and replaced by the maximal delay when it exceeds it; when
    [0 <= initial <= max < 2^62] wait number [j + 1] is
    [min (initial * 2^j) max]; and an operation that fails twice and
    then succeeds is one success after a total wait of at least
    [initial + 2 * initial], provided [0 <= initial],
    [2 * initial <= max] and [max < 2^62]. *)
Theorem RetryWithBackoff_backoff config results cancel (k : nat) :
  Z.of_nat k < MaxAttempts config ->
  (forall i, (i < k)%nat -> retryable_failure (results i)) ->
  (forall i, (i < k)%nat -> cancel i = None) ->
  isRetryableError text (results k) = false ->
  let run := observe config results cancel in
  fst run = Returned (match results k with
                      | None => None
                      | Some e => Some (Wrapf "non-retryable error: " e)
                      end) /\
  calls (snd run) = seq 0 (S k) /\
  waits (snd run) = map (delay config) (seq 0 k) /\
  (0 <= InitialInterval config <= MaxInterval config ->
   MaxInterval config < 2 ^ 62 ->
   forall j, (j < k)%nat ->
     nth j (waits (snd run)) 0 =
     Z.min (InitialInterval config * 2 ^ Z.of_nat j) (MaxInterval config)) /\
  (k = 2%nat -> results 2%nat = None ->
   0 <= InitialInterval config ->
   2 * InitialInterval config <= MaxInterval config ->
   MaxInterval config < 2 ^ 62 ->
   fst run = Returned None /\
   sum (waits (snd run)) >=
     InitialInterval config + 2 * InitialInterval config).
Proof.
  intros Hk Hres Hcan Hend run.
  assert (Hrun : run = _) by (apply (observe_ends config results cancel k);
                              assumption).
  rewrite Hrun. cbn [fst snd calls waits].
  split; [reflexivity |]. split; [reflexivity |]. split; [reflexivity |].
  split.
  - intros Hinit Hmax j Hj.
    rewrite <- (delay_closed_form config j Hinit Hmax).
    rewrite (nth_indep _ 0 (delay config 0%nat))
      by now rewrite length_map, length_seq.
    rewrite map_nth. f_equal.
    now rewrite seq_nth.
  - intros -> Hok H0 H2 Hmax. rewrite Hok. split; [reflexivity |].
    cbn [seq map sum fold_right].
    rewrite !delay_closed_form by lia.
    change (Z.of_nat 0) with 0. change (Z.of_nat 1) with 1.
    lia.
Qed.

End Observed.

(** An operation that answers 503 twice and then succeeds, under the
    default policy: one success, after waits of one and two seconds. *)
Definition twice_503 (i : nat) : option error :=
  if (i <? 2)%nat then Some (Errorf "retryable status code: 503") else None.

Definition never (i : nat) : option error := None.

Lemma twice_503_retryable text i :
  (i < 2)%nat -> retryable_failure text (twice_503 i).
Proof.
  intros Hi. exists (Errorf "retryable status code: 503").
  destruct i as [| [| i]]; [split; reflexivity | split; reflexivity | lia].
Defined.

Lemma RetryWithBackoff_backoff_witness :
  let run := observe plain_ascii DefaultRetryConfig twice_503 never in
  fst run = Returned None /\
  calls (snd run) = [0; 1; 2]%nat /\
  waits (snd run) = [1 * Second; 2 * Second] /\
  sum (waits (snd run)) >= 1 * Second + 2 * (1 * Second).
Proof.
  assert (Hk : Z.of_nat 2 < MaxAttempts DefaultRetryConfig) by reflexivity.
  assert (Hend : isRetryableError plain_ascii (twice_503 2) = false)
    by reflexivity.
  destruct (RetryWithBackoff_backoff plain_ascii DefaultRetryConfig twice_503
              never 2 Hk (twice_503_retryable plain_ascii)
              (fun i _ => eq_refl) Hend)
    as [Hres [Hcalls [Hwaits [_ Hsum]]]].
  cbv zeta. rewrite Hcalls, Hwaits.
  split; [exact Hres |]. split; [reflexivity |]. split; [reflexivity |].
  vm_compute. discriminate.
Defined.

(** C5.  The loop caps the delay only after it has doubled it, so the
    first wait is the initial delay whatever the maximal one is.  With
    [initial = 4] and [max = 1] an operation that fails twice retryably
    and then succeeds waits 4 and 1, not [min 4 1] and [min 8 1], and
    the total wait 5 is below [4 + 2 * 4]. *)
Lemma RetryWithBackoff_first_wait_uncapped (text : Text) :
  let config :=
    {| MaxAttempts := 3; InitialInterval := 4; MaxInterval := 1 |} in
  let run := observe text config twice_503 never in
  fst run = Returned None /\
  waits (snd run) = [4; 1] /\
  nth 0 (waits (snd run)) 0 <>
    Z.min (InitialInterval config * 2 ^ 0) (MaxInterval config) /\
  ~ (sum (waits (snd run)) >=
       InitialInterval config + 2 * InitialInterval config).
Proof.
  cbv zeta. split; [reflexivity |]. split; [reflexivity |].
  split; vm_compute; [discriminate | intros H; now apply H].
Qed.

(** *** The classification of errors *)

Section Classified.
Variable text : Text.

(** An error without a context, network, connection or DNS error in its
    chain: the classification falls through to the message. *)
Definition message_only (e : error) : Prop :=
  is_Canceled e = false /\ is_DeadlineExceeded e = false /\
  as_netError e = None /\
  is_ECONNREFUSED e = false /\ is_ECONNRESET e = false /\
  is_ETIMEDOUT e = false /\ as_DNSError e = None.

Definition mentions_pattern (e : error) : bool :=
  existsb (fun pattern => Contains (ToLower text (Error e)) pattern)
          retryablePatterns.

Definition mentions_any (e : error) (codes : list string) : bool :=
  existsb (fun code => Contains (ToLower text (Error e)) code) codes.

Lemma isRetryableError_message e :
  message_only e ->
  isRetryableError text (Some e) =
  (mentions_pattern e ||
   (Contains (ToLower text (Error e)) "status code" &&
    mentions_any e ["429"; "500"; "502"; "503"; "504"]))%bool.
Proof.
  intros (Hc & Hd & Hn & H1 & H2 & H3 & Hdns).
  unfold isRetryableError, mentions_pattern, mentions_any.
  rewrite Hc, Hd, Hn, H1, H2, H3, Hdns. cbn [orb].
  destruct (existsb _ retryablePatterns); [reflexivity |].
  destruct (Contains (ToLower text (Error e)) "status code"); [| reflexivity].
  cbn [existsb orb andb].
  rewrite orb_false_r, !orb_assoc.
  destruct (_ || _ || _ || _ || _)%bool; [reflexivity |].
  now destruct (_ || _ || _ || _)%bool.
Qed.

(** Cancellation and deadline errors are never retried. *)
Lemma isRetryableError_context e :
  is_Canceled e = true \/ is_DeadlineExceeded e = true ->
  isRetryableError text (Some e) = false.
Proof.
  intros [H | H]; unfold isRetryableError; rewrite H;
    [reflexivity | now rewrite orb_true_r].
Qed.

(** A message naming a "status code" together with 429, 500, 502, 503
    or 504 is retried. *)
Lemma isRetryableError_status_code_retry e :
  message_only e ->
  Contains (ToLower text (Error e)) "status code" = true ->
  mentions_any e ["429"; "500"; "502"; "503"; "504"] = true ->
  isRetryableError text (Some e) = true.
Proof.
  intros Hm Hs Hc. rewrite (isRetryableError_message e Hm), Hs, Hc.
  apply orb_true_r.
Qed.

(** Fail closed: nothing recognised, no retry. *)
Lemma isRetryableError_fail_closed e :
  message_only e ->
  mentions_pattern e = false ->
  (Contains (ToLower text (Error e)) "status code" = false \/
   mentions_any e ["429"; "500"; "502"; "503"; "504"] = false) ->
  isRetryableError text (Some e) = false.
Proof.
  intros Hm Hp Hs. rewrite (isRetryableError_message e Hm), Hp.
  destruct Hs as [-> | ->]; [reflexivity | apply andb_false_r].
Qed.

(** The errors the registry client makes for a status it did not expect,
    in its "status code" wording. *)
Example unexpected_status_codes :
  map (fun code => isRetryableError text
                     (Some (Errorf ("unexpected status code: " +:+ itoa code))))
      [429; 500; 502; 503; 504; 400; 401; 403; 404]
  = [true; true; true; true; true; false; false; false; false].
Proof. reflexivity. Qed.

End Classified.

End retry_proofs.

(* ===================================================================== *)
(** * Scenarios: concrete registries *)
(* ===================================================================== *)

Module scenario.
Import GoString registry.

(** JSON text *)
Definition quote : string := String (ascii_of_nat 34) EmptyString.
Definition jstr (s : string) : string := quote +:+ s +:+ quote.
Definition jfield (k v : string) : string := jstr k +:+ ":" +:+ v.
Definition jobj (fields : list string) : string :=
  "{" +:+ String.concat "," fields +:+ "}".
Definition jarr (items : list string) : string :=
  "[" +:+ String.concat "," items +:+ "]".

(** A server that reads the request body to its end and answers. *)
Definition answer (status : Z) (headers : list (string * string))
           (body : string) (req : Request) : RoundTrip :=
  {| Consumed := String.length (Body req);
     Reply := Ok {| StatusCode := status; RespHeader := headers;
                    RespBody := body; ReadErr := None |} |}.

Definition route : Type :=
  string * string * (Z * list (string * string) * string).

Fixpoint serve (routes : list route) (req : Request) : RoundTrip :=
  match routes with
  | [] => answer 404 [] "" req
  | (method, url, (status, headers, body)) :: routes' =>
      if (String.eqb method (Method req) && String.eqb url (URL req))%bool
      then answer status headers body req
      else serve routes' req
  end.

Definition quiet (transport : list Exchange -> Request -> RoundTrip) : Env :=
  {| transport := transport;
     limiter_Wait := fun _ _ => None;
     cancel_after := None;
     time_Now := fun n => Z.of_nat n |}.

(** Tables standing for the decoders on the texts the scenarios use. *)
Fixpoint lookup {A} (table : list (string * A)) (key : string) : result A :=
  match table with
  | [] => Err (Errorf "invalid character")
  | (k, v) :: table' => if String.eqb k key then Ok v else lookup table' key
  end.

(** [url.Values.Encode] on the bytes that occur: [:], [/] and [,] are
    escaped, keys come out in order. *)
Fixpoint escape (s : string) : string :=
  match s with
  | EmptyString => EmptyString
  | String c s' =>
      if Ascii.eqb c ":" then "%3A" +:+ escape s'
      else if Ascii.eqb c "/" then "%2F" +:+ escape s'
      else if Ascii.eqb c "," then "%2C" +:+ escape s'
      else String c (escape s')
  end.

Definition encode_query (q : list (string * string)) : string :=
  String.concat "&"
    (map (fun kv => fst kv +:+ "=" +:+ escape (snd kv))
         (insertion.sort (fun a b => String.ltb (fst a) (fst b)) q)).

Fixpoint parse_digits (s : string) (acc : Z) : Z :=
  match s with
  | EmptyString => acc
  | String c s' => parse_digits s' (10 * acc + (Z.of_nat (nat_of_ascii c) - 48))
  end.

Definition library (manifests : list (string * Manifest.t))
           (tags : list (string * list string))
           (projects : list (string * list HarborProject.t))
           (patterns : list (string * regexp.Regexp)) : Lib :=
  {| json_Unmarshal_Manifest := lookup manifests;
     json_Decode_tags := lookup tags;
     json_Decode_token :=
       lookup [(jobj [jfield "token" (jstr "xyz")], ("xyz", ""))];
     json_Decode_projects := lookup projects;
     json_Decode_repositories := lookup [];
     json_Decode_catalog := lookup [];
     json_Unmarshal_uints := lookup [("[1]", [1%N])];
     url_set_query := fun u q => Ok (u +:+ "?" +:+ encode_query q);
     http_NewRequest_err := fun _ _ => None;
     strconv_ParseInt := fun s => parse_digits s 0;
     json_Marshal_project :=
       fun name public =>
         Ok (jobj [jfield "metadata"
                          (jobj [jfield "public"
                                        (jstr (if public then "true" else "false"))]);
                   jfield "project_name" (jstr name)]);
     regexp_Compile := lookup patterns;
     text := plain_ascii |}.

(** Two registries without credentials or rate limit. *)
Definition source : Client := NewClient "https://source.example/" "" "" false 0.
Definition target : Client := NewClient "https://target.example/" "" "" false 0.

Definition config_digest : string :=
  "sha256:aaaaaaaaaaaaaaaaaaaaaaaaaaaaaaaaaaaaaaaaaaaaaaaaaaaaaaaaaaaaaaaa".
Definition layer_digest : string :=
  "sha256:bbbbbbbbbbbbbbbbbbbbbbbbbbbbbbbbbbbbbbbbbbbbbbbbbbbbbbbbbbbbbbbb".
Definition manifest_digest : string :=
  "sha256:cccccccccccccccccccccccccccccccccccccccccccccccccccccccccccccccc".

Definition manifest_type : string :=
  "application/vnd.docker.distribution.manifest.v2+json".

Definition descriptor_json (mediaType : string) (size : Z) (digest : string)
  : string :=
  jobj [jfield "mediaType" (jstr mediaType);
        jfield "size" (itoa size);
        jfield "digest" (jstr digest)].

(** The manifest of [library/nginx:1.25.0]: a config and one layer. *)
Definition nginx_json : string :=
  jobj [jfield "schemaVersion" "2";
        jfield "mediaType" (jstr manifest_type);
        jfield "config"
               (descriptor_json "application/vnd.docker.container.image.v1+json"
                                7023 config_digest);
        jfield "layers"
               (jarr [descriptor_json
                        "application/vnd.docker.image.rootfs.diff.tar.gzip"
                        12345678 layer_digest])].

Definition nginx_parsed : Manifest.t :=
  {| Manifest.SchemaVersion := 2;
     Manifest.MediaType := manifest_type;
     Manifest.Config :=
       {| Descriptor.MediaType :=
            "application/vnd.docker.container.image.v1+json";
          Descriptor.Size := 7023;
          Descriptor.Digest := config_digest;
          Descriptor.Platform := None |};
     Manifest.Layers :=
       [{| Descriptor.MediaType :=
             "application/vnd.docker.image.rootfs.diff.tar.gzip";
           Descriptor.Size := 12345678;
           Descriptor.Digest := layer_digest;
           Descriptor.Platform := None |}];
     Manifest.Manifests := [];
     Manifest.Raw := "";
     Manifest.ContentDigest := "" |}.

Definition lib : Lib :=
  library [(nginx_json, nginx_parsed)] [] [] [].

End scenario.

(** ** A blob download answered with 503 *)

Module download_503.
Import GoString retry registry engine scenario.

(** The target does not have the layer and offers no mount; the source
    answers the download with 503 Service Unavailable. *)
Definition routes : list route :=
  [ ("HEAD", "https://target.example/v2/mirror/nginx/blobs/" +:+ layer_digest,
     (404, [], ""));
    ("POST", "https://target.example/v2/mirror/nginx/blobs/uploads/?mount="
             +:+ layer_digest +:+ "&from=mirror/nginx",
     (202, [("Location", "/v2/mirror/nginx/blobs/uploads/1")], ""));
    ("GET", "https://source.example/v2/library/nginx/blobs/" +:+ layer_digest,
     (503, [], "upstream unavailable")) ].

Definition env : Env := quiet (fun _ => serve routes).

Definition copy : M World (option error) :=
  CopyBlob lib env source target "library/nginx" "mirror/nginx"
           layer_digest 12345678.

Definition task : BlobSyncTask :=
  {| Source := source; Target := target;
     SourceRepo := "library/nginx"; TargetRepo := "mirror/nginx";
     Digest := layer_digest; Size := 12345678;
     RetryConfig_ := DefaultRetryConfig |}.

(** C4.  The error [CopyBlob] returns when the source answers 503 bears
    that status (also by the code's own [IsHTTPError]), and
    [isRetryableError] is false on it: its text has no "status code" in
    it.  The blob task built on it gives up after one download, without
    a single back-off wait. *)
Theorem isRetryableError_misses_download_503 :
  exists err w,
    copy initial_world = (Returned (Some err), w) /\
    Error err = "failed to download blob: failed to get blob: 503 " /\
    IsHTTPError (Some err) 503 = true /\
    (forall text, isRetryableError text (Some err) = false) /\
    exists err' w',
      Execute lib env task initial_world = (Returned (Some err'), w') /\
      Error err' = "failed to copy blob sha256:bbbbb: non-retryable error: "
                   +:+ Error err /\
      slept w' = [] /\
      length (List.filter (fun x => String.eqb (Method (Sent x)) "GET")
                          (wire w')) = 1%nat.
Proof.
  eexists. eexists. split; [vm_compute; reflexivity |].
  split; [reflexivity |]. split; [reflexivity |].
  split; [intros text; reflexivity |].
  eexists. eexists. split; [vm_compute; reflexivity |].
  split; [reflexivity |]. split; reflexivity.
Qed.

End download_503.

(** ** A descriptor with a short digest *)

Module short_digest.
Import GoString retry registry engine scenario.

(** Ten bytes: shorter than the twelve the task slices off. *)
Definition digest : string := "sha256:abc".

(** A target that answers the existence check with [status]. *)
Definition env (status : Z) : Env :=
  quiet (fun _ =>
           serve [("HEAD",
                   "https://target.example/v2/mirror/nginx/blobs/" +:+ digest,
                   (status, [], ""))]).

Definition task : BlobSyncTask :=
  {| Source := source; Target := target;
     SourceRepo := "library/nginx"; TargetRepo := "mirror/nginx";
     Digest := digest; Size := 3;
     RetryConfig_ := DefaultRetryConfig |}.

(** A manifest without config whose only layer has that digest. *)
Definition manifest : Manifest.t :=
  {| Manifest.SchemaVersion := 2;
     Manifest.MediaType := manifest_type;
     Manifest.Config :=
       {| Descriptor.MediaType := ""; Descriptor.Size := 0;
          Descriptor.Digest := ""; Descriptor.Platform := None |};
     Manifest.Layers :=
       [{| Descriptor.MediaType :=
             "application/vnd.docker.image.rootfs.diff.tar.gzip";
           Descriptor.Size := 3;
           Descriptor.Digest := digest;
           Descriptor.Platform := None |}];
     Manifest.Manifests := [];
     Manifest.Raw := "{}";
     Manifest.ContentDigest := manifest_digest |}.

Definition sync (status : Z) : outcome (option error) * World :=
  SyncSingleManifest lib (env status)
    {| Concurrency := 3; retryConfig := DefaultRetryConfig; dryRun := false |}
    source target
    {| Name := "nginx"; Source_Repository := "library/nginx";
       Target_Repository := "mirror/nginx"; Architectures := [] |}
    "bad" manifest initial_world.

Lemma Description_short (t : BlobSyncTask) :
  (String.length (Digest t) < 12)%nat ->
  exists msg, Description t = Panicked msg.
Proof.
  intros Hlen. unfold Description, Digest12, slice_to.
  destruct (Nat.leb_spec 12 (String.length (Digest t))) as [H | _]; [lia |].
  eauto.
Qed.

Lemma Description_long (t : BlobSyncTask) :
  (12 <= String.length (Digest t))%nat ->
  exists d, Description t = Returned ("sync blob " +:+ d).
Proof.
  intros Hlen. unfold Description, Digest12, slice_to.
  destruct (Nat.leb_spec 12 (String.length (Digest t))) as [_ | H]; [| lia].
  eauto.
Qed.

(** C10.  On a descriptor whose digest has ten bytes [Description]
    panics, as it does on the empty digest.  [Execute] panics as soon as
    the target has answered the existence check with 200 or with 404;
    when the target answers 400, [Execute] returns an error and the
    worker panics in [Description] while reporting it.  So the
    synchronisation of a manifest with such a layer panics whatever the
    target answers. *)
Theorem BlobSyncTask_panics_on_short_digest :
  (exists msg, Description task = Panicked msg) /\
  (exists msg,
      Description {| Source := source; Target := target;
                     SourceRepo := "library/nginx";
                     TargetRepo := "mirror/nginx";
                     Digest := ""; Size := 0;
                     RetryConfig_ := DefaultRetryConfig |} = Panicked msg) /\
  (exists msg w, Execute lib (env 200) task initial_world = (Panicked msg, w)) /\
  (exists msg w, Execute lib (env 404) task initial_world = (Panicked msg, w)) /\
  (exists err w,
      Execute lib (env 400) task initial_world = (Returned (Some err), w)) /\
  (exists msg w, sync 200 = (Panicked msg, w)) /\
  (exists msg w, sync 404 = (Panicked msg, w)) /\
  (exists msg w, sync 400 = (Panicked msg, w)).
Proof.
  split; [eexists; reflexivity |].
  split; [eexists; reflexivity |].
  repeat split; eexists; eexists; vm_compute; reflexivity.
Qed.

End short_digest.

(** ** The scheduler's run of a rule *)

Module scheduler_proofs.
Import GoString retry registry models scheduler.

Lemma ret_inv {S A} (a b : A) (s s' : S) :
  ret a s = (Returned b, s') -> a = b /\ s = s'.
Proof. unfold ret. intros E. now inversion E. Qed.

Lemma modify_inv {S} (f : S -> S) (u : unit) (s s' : S) :
  modify f s = (Returned u, s') -> s' = f s.
Proof. unfold modify. intros E. now inversion E. Qed.

(** Going backwards through a computation that returned. *)
Tactic Notation "unbind" hyp(H) "as" ident(a) ident(s) ident(Ha) :=
  apply bind_inv in H; destruct H as (a & s & Ha & H); cbv beta in H.

Ltac unret H :=
  apply ret_inv in H; destruct H as [? ?]; subst.

(** All descriptors of a plan, one entry per reference. *)
Definition blobs_of (plan : list repoTagInfo) : list Descriptor.t :=
  flat_map (fun rt => GetAllBlobs (manifest rt)) plan.

(** The digests of a plan, each once. *)
Definition distinct_digests (plan : list repoTagInfo) : gset string :=
  list_to_set (map Descriptor.Digest (blobs_of plan)).

Lemma blobs_of_app p q : blobs_of (p ++ q) = blobs_of p ++ blobs_of q.
Proof. unfold blobs_of. apply flat_map_app. Qed.

Lemma GetAllBlobs_length m :
  length (GetAllBlobs m) =
  ((if nonempty (Descriptor.Digest (Manifest.Config m)) then 1 else 0)
   + length (Manifest.Layers m))%nat.
Proof.
  unfold GetAllBlobs.
  destruct (nonempty _); rewrite length_app; reflexivity.
Qed.

Section Plan.
Context `{SliceSorter} (lib : Lib) (env : Env).

Lemma plan_tags_total c task repo path tags :
  forall acc total w acc' total' w',
    plan_tags lib env c task repo path tags acc total w
    = (Returned (acc', total'), w') ->
    exists new, acc' = acc ++ new /\
                total' = total + Z.of_nat (length (blobs_of new)).
Proof.
  induction tags as [| tag tags IH]; intros acc total w acc' total' w' E.
  - cbn [plan_tags] in E. unret E. inversion H0; subst.
    exists []. rewrite app_nil_r. cbn. split; [reflexivity | lia].
  - cbn [plan_tags] in E. unbind E as r w1 Hr.
    destruct r as [m | err].
    + apply IH in E. destruct E as [new [-> ->]].
      exists ({| repoName := repo; tag := tag; manifest := m;
                 sourceRepo := path;
                 targetRepo := SyncTask.GetTargetRepoPath task repo |} :: new).
      rewrite <- app_assoc. split; [reflexivity |].
      change (blobs_of (?x :: new)) with (GetAllBlobs (manifest x) ++ blobs_of new).
      cbn [manifest]. rewrite length_app. lia.
    + unbind E as u w2 Hu. now apply IH in E.
Qed.

Lemma plan_repositories_total c task repos :
  forall acc total w acc' total' w',
    plan_repositories lib env c task repos acc total w
    = (Returned (acc', total'), w') ->
    exists new, acc' = acc ++ new /\
                total' = total + Z.of_nat (length (blobs_of new)).
Proof.
  induction repos as [| repo repos IH]; intros acc total w acc' total' w' E.
  - cbn [plan_repositories] in E. unret E. inversion H0; subst.
    exists []. rewrite app_nil_r. cbn. split; [reflexivity | lia].
  - cbn [plan_repositories] in E. unbind E as r w1 Hr.
    destruct r as [tags | err].
    + destruct (filter.NewFilter _ _ _ _) as [tagFilter | err].
      * unbind E as infos w2 Hinfos. unbind E as p w3 Hp.
        destruct p as [acc1 total1].
        apply plan_tags_total in Hp. destruct Hp as [new1 [-> ->]].
        cbn [fst snd] in E. apply IH in E. destruct E as [new2 [-> ->]].
        exists (new1 ++ new2). rewrite app_assoc. split; [reflexivity |].
        rewrite blobs_of_app, length_app. lia.
      * unbind E as u w2 Hu. now apply IH in E.
    + unbind E as u w2 Hu. now apply IH in E.
Qed.

Lemma sync_blobs_TotalBlobs src tgt repoTag blobs :
  forall e w e' w',
    sync_blobs lib env src tgt repoTag blobs e w = (Returned e', w') ->
    Execution.TotalBlobs e' = Execution.TotalBlobs e.
Proof.
  induction blobs as [| blob blobs IH]; intros e w e' w' E.
  - cbn [sync_blobs] in E. now unret E.
  - cbn [sync_blobs] in E. unbind E as r w1 Hr.
    destruct r as [[exists_ size] | err].
    + unbind E as e1 w2 He1. apply IH in E. rewrite E. clear E.
      destruct exists_.
      * now unret He1.
      * unbind He1 as copied w3 Hcopied. destruct copied as [err |].
        -- unbind He1 as d w4 Hd. unbind He1 as u w5 Hu. now unret He1.
        -- now unret He1.
    + unbind E as u w2 Hu. apply IH in E. now rewrite E.
Qed.

Lemma sync_tags_TotalBlobs src tgt total plan :
  forall index current e w e' w',
    sync_tags lib env src tgt total index current plan e w
    = (Returned e', w') ->
    Execution.TotalBlobs e' = Execution.TotalBlobs e.
Proof.
  induction plan as [| repoTag plan IH]; intros index current e w e' w' E.
  - cbn [sync_tags] in E. now unret E.
  - cbn [sync_tags] in E.
    unbind E as u1 w1 Hu1. unbind E as u2 w2 Hu2. unbind E as u3 w3 Hu3.
    unbind E as e1 w4 He1. apply sync_blobs_TotalBlobs in He1.
    unbind E as pushed w5 Hpushed.
    destruct pushed as [digest | err]; unbind E as u4 w6 Hu4;
      apply IH in E; congruence.
Qed.

Lemma background_status (store : Store) (fuel : nat) task e w final w' :
  background lib env store fuel task e w = (Returned final, w') ->
  Execution.Status final = StatusFailed \/
  Execution.Status final = StatusSuccess.
Proof.
  unfold background. intros E. unbind E as r w1 Hr.
  destruct (snd r) as [err |]; unbind E as endTime w2 Hnow;
    unbind E as u w3 Hu; unret E; [left | right]; reflexivity.
Qed.

End Plan.

End scheduler_proofs.

(** ** A rule executed by the scheduler *)

Module rule_run.
Import GoString retry registry scenario models scheduler.

Definition registries (id : N) : result Registry.t :=
  if (id =? 1)%N then
    Ok {| Registry.ID := 1; Registry.Name := "hub";
          Registry.URL := "https://source.example";
          Registry.Username := ""; Registry.Password := "";
          Registry.Insecure := false; Registry.RateLimit := 0 |}
  else if (id =? 2)%N then
    Ok {| Registry.ID := 2; Registry.Name := "harbor";
          Registry.URL := "https://target.example";
          Registry.Username := ""; Registry.Password := "";
          Registry.Insecure := false; Registry.RateLimit := 0 |}
  else Err (Errorf "record not found").

(** Mirror [library/nginx] into project [mirror], every tag, and notify
    channel 1 when the execution fails. *)
Definition task : SyncTask.t :=
  {| SyncTask.ID := 1; SyncTask.Name := "nginx";
     SyncTask.SourceRegistry := 1; SyncTask.SourceProject := "library";
     SyncTask.SourceRepo := "nginx";
     SyncTask.TargetRegistry := 2; SyncTask.TargetProject := "mirror";
     SyncTask.TargetRepo := "";
     SyncTask.TagInclude := []; SyncTask.TagExclude := [];
     SyncTask.TagLatest := 0; SyncTask.Architectures := [];
     SyncTask.Enabled := true; SyncTask.CronExpression := "";
     SyncTask.SendNotification := true;
     SyncTask.NotificationCondition := "failed";
     SyncTask.NotificationChannelIDs := "[1]" |}.

Definition store : Store :=
  {| GetRegistry := registries;
     GetTask := fun id => if (id =? 1)%N then Ok task
                          else Err (Errorf "record not found");
     GetNotificationChannel :=
       fun id => if (id =? 1)%N then
                   Ok {| NotificationChannel.ID := 1;
                         NotificationChannel.Name := "ops";
                         NotificationChannel.Type_ := "wechat";
                         NotificationChannel.Enabled := true |}
                 else Err (Errorf "record not found") |}.

Definition execution : Execution.t :=
  {| Execution.ID := 1; Execution.TaskID := 1;
     Execution.Status := StatusRunning; Execution.StartTime := 0;
     Execution.EndTime := None; Execution.TotalBlobs := 0;
     Execution.SyncedBlobs := 0; Execution.SkippedBlobs := 0;
     Execution.FailedBlobs := 0; Execution.TotalSize := 0;
     Execution.SyncedSize := 0; Execution.ErrorMessage := "" |}.

Definition projects_json : string :=
  jarr [jobj [jfield "name" (jstr "mirror"); jfield "project_id" "1";
              jfield "public" "true"]].

Definition tags_json (tags : list string) : string :=
  jobj [jfield "name" (jstr "library/nginx");
        jfield "tags" (jarr (map jstr tags))].

Definition lib (tags : list string) : Lib :=
  library [(nginx_json, nginx_parsed)]
          [(tags_json tags, tags)]
          [(projects_json,
            [{| HarborProject.Name := "mirror"; HarborProject.ProjectID := 1;
                HarborProject.Public := true |}])]
          [].

(** Both registries are up, the target project exists, and every tag of
    [library/nginx] points at the same manifest. *)
Definition preflight (tags : list string) : list route :=
  [ ("GET", "https://source.example/v2/", (200, [], "{}"));
    ("GET", "https://target.example/v2/", (200, [], "{}"));
    ("GET", "https://target.example/api/v2.0/projects?page=1&page_size=100",
     (200, [], projects_json));
    ("GET", "https://source.example/v2/library/nginx/tags/list",
     (200, [], tags_json tags)) ]
  ++ map (fun tag =>
            ("GET", "https://source.example/v2/library/nginx/manifests/" +:+ tag,
             (200, [("Docker-Content-Digest", manifest_digest)], nginx_json)))
         tags.

(** What a round trip looks like from outside. *)
Definition summary (x : Exchange) : string * string * option Z :=
  (Method (Sent x), URL (Sent x),
   match Reply (Got x) with
   | Ok resp => Some (StatusCode resp)
   | Err _ => None
   end).

(** *** The layer cannot be copied, the manifest is pushed all the same *)

(** The target has the config blob, not the layer; the source fails the
    download of the layer with 500. *)
Definition broken_layer : list route :=
  preflight ["1.25.0"] ++
  [ ("HEAD", "https://target.example/v2/mirror/nginx/blobs/" +:+ config_digest,
     (200, [("Content-Length", "7023")], ""));
    ("HEAD", "https://target.example/v2/mirror/nginx/blobs/" +:+ layer_digest,
     (404, [], ""));
    ("POST", "https://target.example/v2/mirror/nginx/blobs/uploads/?mount="
             +:+ layer_digest +:+ "&from=mirror/nginx",
     (202, [("Location", "/v2/mirror/nginx/blobs/uploads/1")], ""));
    ("GET", "https://source.example/v2/library/nginx/blobs/" +:+ layer_digest,
     (500, [], "internal error"));
    ("PUT", "https://target.example/v2/mirror/nginx/manifests/1.25.0",
     (400, [], "MANIFEST_BLOB_UNKNOWN")) ].

Definition broken_layer_run : outcome (Execution.t * option error) * World :=
  runTask (lib ["1.25.0"]) (quiet (fun _ => serve broken_layer)) store 3
          task execution initial_world.

(** *** Two tags that share their blobs *)

(** The target already has both blobs and takes the manifests. *)
Definition shared : list route :=
  preflight ["1.25.0"; "stable"] ++
  [ ("HEAD", "https://target.example/v2/mirror/nginx/blobs/" +:+ config_digest,
     (200, [("Content-Length", "7023")], ""));
    ("HEAD", "https://target.example/v2/mirror/nginx/blobs/" +:+ layer_digest,
     (200, [("Content-Length", "12345678")], ""));
    ("PUT", "https://target.example/v2/mirror/nginx/manifests/1.25.0",
     (201, [("Docker-Content-Digest", manifest_digest)], ""));
    ("PUT", "https://target.example/v2/mirror/nginx/manifests/stable",
     (201, [("Docker-Content-Digest", manifest_digest)], "")) ].

Definition shared_env : Env := quiet (fun _ => serve shared).

Definition shared_run : outcome (Execution.t * option error) * World :=
  runTask (lib ["1.25.0"; "stable"]) shared_env store 3
          task execution initial_world.

(** *** Cancelled while the registries are being pinged *)

(** The context is cancelled after the first two log rows, before the
    first request goes out. *)
Definition cancelled_env : Env :=
  {| transport := fun _ => serve shared;
     limiter_Wait := fun _ _ => None;
     cancel_after := Some (2%nat, Canceled);
     time_Now := fun n => Z.of_nat n |}.

Definition cancelled_run : outcome Execution.t * World :=
  background (lib ["1.25.0"; "stable"]) cancelled_env store 3
             task execution initial_world.

(** The context is cancelled after the plan is made (seven requests and
    eight log rows in), before the first blob is looked at. *)
Definition cancelled_late_env : Env :=
  {| transport := fun _ => serve shared;
     limiter_Wait := fun _ _ => None;
     cancel_after := Some (15%nat, Canceled);
     time_Now := fun n => Z.of_nat n |}.

Definition cancelled_late_run : outcome Execution.t * World :=
  background (lib ["1.25.0"; "stable"]) cancelled_late_env store 3
             task execution initial_world.

(** C2.  With the layer neither on the target nor copied (the download
    failed, one blob counted as failed), [runTask] goes on to push the
    manifest that refers to it: after the five requests of the planning
    phase the wire shows the two existence checks, the failed copy, and
    the PUT of the manifest with its raw bytes. *)
Theorem runTask_pushes_manifest_after_failed_copy :
  exists e w,
    broken_layer_run = (Returned (e, None), w) /\
    Execution.FailedBlobs e = 1 /\
    map summary (skipn 5 (wire w)) =
    [ ("HEAD", "https://target.example/v2/mirror/nginx/blobs/" +:+ config_digest,
       Some 200);
      ("HEAD", "https://target.example/v2/mirror/nginx/blobs/" +:+ layer_digest,
       Some 404);
      ("HEAD", "https://target.example/v2/mirror/nginx/blobs/" +:+ layer_digest,
       Some 404);
      ("POST", "https://target.example/v2/mirror/nginx/blobs/uploads/?mount="
               +:+ layer_digest +:+ "&from=mirror/nginx", Some 202);
      ("GET", "https://source.example/v2/library/nginx/blobs/" +:+ layer_digest,
       Some 500);
      ("PUT", "https://target.example/v2/mirror/nginx/manifests/1.25.0",
       Some 400) ] /\
    map (fun x => Body (Sent x)) (skipn 10 (wire w)) = [nginx_json].
Proof.
  eexists. eexists. split; [vm_compute; reflexivity |].
  split; [reflexivity |]. split; reflexivity.
Qed.

Definition shared_final : Execution.t :=
  {| Execution.ID := 1; Execution.TaskID := 1;
     Execution.Status := StatusRunning; Execution.StartTime := 0;
     Execution.EndTime := None; Execution.TotalBlobs := 4;
     Execution.SyncedBlobs := 4; Execution.SkippedBlobs := 4;
     Execution.FailedBlobs := 0; Execution.TotalSize := 0;
     Execution.SyncedSize := 0; Execution.ErrorMessage := "" |}.

Lemma shared_run_returns :
  runTask (lib ["1.25.0"; "stable"]) shared_env store 3
          task execution initial_world
  = (Returned (shared_final, None), snd shared_run).
Proof. vm_compute. reflexivity. Defined.

(** C6 as stated fails: two tags of one repository point at the same
    manifest, the plan holds two distinct digests, and the execution is
    given a total of four. *)
Lemma runTask_counts_shared_blobs_twice :
  exists e w plan w1 w2,
    shared_run = (Returned (e, None), w) /\
    plan_repositories (lib ["1.25.0"; "stable"]) shared_env source task
                      ["nginx"] [] 0 w1
    = (Returned (plan, Execution.TotalBlobs e), w2) /\
    Execution.TotalBlobs e = 4 /\
    size (scheduler_proofs.distinct_digests plan) = 2%nat /\
    Execution.TotalBlobs e <>
      Z.of_nat (size (scheduler_proofs.distinct_digests plan)).
Proof.
  eexists. eexists. eexists. exists initial_world. eexists.
  split; [vm_compute; reflexivity |].
  split; [vm_compute; reflexivity |].
  split; [reflexivity |].
  split; [vm_compute; reflexivity |].
  vm_compute. discriminate.
Qed.

(** C7.  A run whose context is cancelled while the registries are being
    pinged ends as [failed], with the failure notification sent; one
    cancelled after planning ends as [success] with every blob counted
    as failed.  Neither is recorded as [canceled]. *)
Theorem cancelled_execution_is_not_recorded_canceled :
  (exists final w,
      cancelled_run = (Returned final, w) /\
      Execution.Status final = StatusFailed /\
      notices w = [(1%N, "failed")] /\
      wire w = []) /\
  (exists final w,
      cancelled_late_run = (Returned final, w) /\
      Execution.Status final = StatusSuccess /\
      Execution.FailedBlobs final = 4 /\
      Execution.SyncedBlobs final = 0).
Proof.
  split.
  - eexists. eexists. split; [vm_compute; reflexivity |].
    split; [reflexivity |]. split; reflexivity.
  - eexists. eexists. split; [vm_compute; reflexivity |].
    split; [reflexivity |]. split; reflexivity.
Qed.

(** *** Run, stop, run again *)

Definition started : Scheduler := fst (ExecuteTask store NewScheduler 1 100 None).
Definition stopped : Scheduler := fst (CancelTask started 1).
Definition restarted : Scheduler := fst (ExecuteTask store stopped 1 200 None).

(** C8.  [ExecuteTask] refuses a task that has an entry in [running];
    but [CancelTask] removes the entry at once, while the goroutine of
    the cancelled execution has not yet written a final status.  Run,
    stop and run again, all three calls succeeding: two executions of
    task 1 hold status [running]. *)
Theorem two_running_executions_after_cancel :
  snd (ExecuteTask store NewScheduler 1 100 None) = None /\
  (exists err, ExecuteTask store started 1 150 None = (started, Some err)) /\
  snd (CancelTask started 1) = None /\
  snd (ExecuteTask store stopped 1 200 None) = None /\
  map Execution.ID (running_executions restarted 1) = [1%N; 2%N].
Proof.
  split; [reflexivity |].
  split; [eexists; vm_compute; reflexivity |].
  split; [reflexivity |]. split; [reflexivity |].
  vm_compute. reflexivity.
Qed.

End rule_run.

(** ** pkg/registry: what goes over the wire *)

Module registry_proofs.
Import GoString registry.

(** The world after the round trips [xs]. *)
Definition add_exchanges (xs : list Exchange) (w : World) : World :=
  {| wire := wire w ++ xs; slept := slept w; journal := journal w;
     notices := notices w; ticks := ticks w |}.

Lemma add_exchanges_nil w : add_exchanges [] w = w.
Proof. destruct w. unfold add_exchanges. cbn. now rewrite app_nil_r. Qed.

Lemma add_exchanges_one x w : add_exchange x w = add_exchanges [x] w.
Proof. reflexivity. Qed.

Lemma add_exchanges_app xs ys w :
  add_exchanges ys (add_exchanges xs w) = add_exchanges (xs ++ ys) w.
Proof. unfold add_exchanges. cbn. now rewrite app_assoc. Qed.

Lemma wire_add_exchanges xs w : wire (add_exchanges xs w) = wire w ++ xs.
Proof. reflexivity. Qed.

(** The status an exchange came back with, if it came back at all. *)
Definition status (x : Exchange) : option Z :=
  match Reply (Got x) with
  | Ok resp => Some (StatusCode resp)
  | Err _ => None
  end.

(** The [Location] it came back with. *)
Definition location (x : Exchange) : string :=
  match Reply (Got x) with
  | Ok resp => Header_Get (RespHeader resp) "Location"
  | Err _ => ""
  end.

(** A request for [path] on the client's registry. *)
Definition targets (c : Client) (method path : string)
           (headers : list (string * string)) (x : Exchange) : Prop :=
  Method (Sent x) = method /\
  URL (Sent x) = BaseURL c +:+ path /\
  Header (Sent x) = headers.

Section Wire.
Context (lib : Lib) (env : Env).

Lemma Do_spec req w :
  exists rt,
    (Do lib env req w = (Returned rt, w) /\ exists e, Reply rt = Err e) \/
    Do lib env req w = (Returned rt, add_exchanges [{| Sent := req; Got := rt |}] w).
Proof.
  unfold Do. destruct (ctx_Err env w) as [e |].
  - eexists. left. split; [reflexivity |]. cbn. eauto.
  - eexists. right. reflexivity.
Qed.

Lemma Limiter_Wait_spec c w :
  exists r, Limiter_Wait env c w = (Returned r, w).
Proof.
  unfold Limiter_Wait. destruct (Limiter c); [| eauto].
  destruct (ctx_Err env w); eauto.
Qed.

Lemma getBearerToken_spec c authHeader path w :
  exists r xs,
    getBearerToken lib env c authHeader path w
    = (Returned r, add_exchanges xs w) /\
    Forall (fun x => Method (Sent x) = "GET") xs.
Proof.
  unfold getBearerToken.
  destruct (String.eqb _ "");
    [exists (Err (Errorf "no realm in WWW-Authenticate header")), [];
     now rewrite add_exchanges_nil |].
  destruct (url_set_query lib _ _) as [tokenURL | err];
    [| exists (Err err), []; now rewrite add_exchanges_nil].
  destruct (http_NewRequest_err lib "GET" tokenURL) as [err |];
    [exists (Err err), []; now rewrite add_exchanges_nil |].
  match goal with |- context [Do lib env ?req] => destruct (Do_spec req w) as [rt [[E [e He]] | E]] end.
  - rewrite (bind_returned _ _ _ _ _ E), He.
    exists (Err e), []. now rewrite add_exchanges_nil.
  - rewrite (bind_returned _ _ _ _ _ E).
    assert (HG : Forall (fun x : Exchange => Method (Sent x) = "GET")
                        [{| Sent := {| Method := "GET"; URL := tokenURL;
                                       Header := []; Auth := basicAuth c;
                                       Body := "" |}; Got := rt |}])
      by (constructor; [reflexivity | constructor]).
    destruct (Reply rt) as [resp | err]; [| eauto].
    destruct (negb _); [eauto |].
    destruct (Decode _ _) as [[Token AccessToken] | err]; [| eauto].
    destruct (nonempty Token); eauto.
Qed.

(** What [doRequest] puts on the wire: requests for the path, with at
    most a token request in between; the first of them carries what the
    body reader holds; a response handed back is the answer to the last
    of them; and unless the first answer is a 401 there is no second
    request. *)
Lemma doRequest_spec c method path body headers w :
  exists r xs,
    doRequest lib env c method path body headers w
    = (Returned r, add_exchanges xs w) /\
    Forall (fun x => targets c method path headers x \/
                     Method (Sent x) = "GET") xs /\
    (forall x rest, xs = x :: rest ->
                    targets c method path headers x /\
                    Body (Sent x) = unread body) /\
    (forall resp, r = Ok resp ->
                  exists pre x, xs = pre ++ [x] /\
                                targets c method path headers x /\
                                Reply (Got x) = Ok resp) /\
    (forall x rest, xs = x :: rest ->
                    status x <> Some StatusUnauthorized -> rest = []).
Proof.
  unfold doRequest.
  destruct (Limiter_Wait_spec c w) as [limited E].
  rewrite (bind_returned _ _ _ _ _ E). clear E.
  assert (Hnone : forall r : result Response,
             (forall resp, r <> Ok resp) ->
             exists r' xs,
               (Returned r, w) = (Returned r', add_exchanges xs w) /\
               Forall (fun x => targets c method path headers x \/
                                Method (Sent x) = "GET") xs /\
               (forall x rest, xs = x :: rest ->
                               targets c method path headers x /\
                               Body (Sent x) = unread body) /\
               (forall resp, r' = Ok resp ->
                             exists pre x, xs = pre ++ [x] /\
                                           targets c method path headers x /\
                                           Reply (Got x) = Ok resp) /\
               (forall x rest, xs = x :: rest ->
                               status x <> Some StatusUnauthorized ->
                               rest = [])).
  { intros r Hr. exists r, []. rewrite add_exchanges_nil.
    split; [reflexivity |]. split; [constructor |].
    split; [intros x rest Hx; discriminate |].
    split; [intros resp ->; now destruct (Hr resp) |].
    intros x rest Hx; discriminate. }
  destruct limited as [err |]; [apply Hnone; discriminate |].
  destruct (http_NewRequest_err lib method _) as [err |];
    [apply Hnone; discriminate |].
  match goal with |- context [Do lib env ?req] =>
    set (first := req); destruct (Do_spec first w) as [rt [[E [e He]] | E]]
  end.
  { rewrite (bind_returned _ _ _ _ _ E), He. apply Hnone; discriminate. }
  rewrite (bind_returned _ _ _ _ _ E). clear E Hnone.
  set (x1 := {| Sent := first; Got := rt |}).
  assert (Ht1 : targets c method path headers x1) by (repeat split).
  destruct (Reply rt) as [resp | err] eqn:Hrt.
  2:{ exists (Err err), [x1]. split; [reflexivity |].
      split; [constructor; [now left | constructor] |].
      split; [intros x rest Hx; inversion Hx; subst; now split |].
      split; [intros resp H; discriminate |].
      intros x rest Hx _. now inversion Hx. }
  destruct (Z.eqb_spec (StatusCode resp) StatusUnauthorized) as [H401 | H401].
  2:{ exists (Ok resp), [x1]. split; [reflexivity |].
      split; [constructor; [now left | constructor] |].
      split; [intros x rest Hx; inversion Hx; subst; now split |].
      split; [intros resp' H; inversion H; subst; exists [], x1; now repeat split |].
      intros x rest Hx _. now inversion Hx. }
  assert (Hst : status x1 = Some StatusUnauthorized)
    by (unfold status; cbn; now rewrite Hrt, H401).
  destruct (String.eqb _ "").
  - (* the basic-auth retry *)
    match goal with |- context [Do lib env ?req] =>
      set (second := req);
      destruct (Do_spec second (add_exchanges [x1] w)) as [rt2 [[E [e He]] | E]]
    end.
    + rewrite (bind_returned _ _ _ _ _ E). cbn [ret].
      exists (Reply rt2), [x1]. split; [reflexivity |].
      split; [constructor; [now left | constructor] |].
      split; [intros x rest Hx; inversion Hx; subst; now split |].
      split; [intros resp' H; rewrite He in H; discriminate |].
      intros x rest Hx Hne. inversion Hx; subst. now destruct Hne.
    + rewrite (bind_returned _ _ _ _ _ E). cbn [ret].
      rewrite add_exchanges_app.
      set (x2 := {| Sent := second; Got := rt2 |}).
      exists (Reply rt2), ([x1] ++ [x2]). split; [reflexivity |].
      split; [repeat constructor; left; repeat split |].
      split; [intros x rest Hx; inversion Hx; subst; now split |].
      split; [intros resp' H; exists [x1], x2; repeat split; exact H |].
      intros x rest Hx Hne. inversion Hx; subst. now destruct Hne.
  - (* the bearer-token retry *)
    destruct (getBearerToken_spec c
                (Header_Get (RespHeader resp) "WWW-Authenticate") path
                (add_exchanges [x1] w)) as [tok [ts [E Hts]]].
    rewrite (bind_returned _ _ _ _ _ E). clear E. rewrite add_exchanges_app.
    assert (Hall : Forall (fun x => targets c method path headers x \/
                                    Method (Sent x) = "GET") ([x1] ++ ts)).
    { constructor; [now left |].
      eapply List.Forall_impl; [| exact Hts]. intros x Hx. now right. }
    destruct tok as [token | err].
    2:{ eexists _, ([x1] ++ ts). split; [reflexivity |].
        split; [exact Hall |].
        split; [intros x rest Hx; inversion Hx; subst; now split |].
        split; [intros resp' H; discriminate |].
        intros x rest Hx Hne. inversion Hx; subst. now destruct Hne. }
    match goal with |- context [Do lib env ?req] =>
      set (third := req);
      destruct (Do_spec third (add_exchanges ([x1] ++ ts) w))
        as [rt3 [[E [e He]] | E]]
    end.
    + rewrite (bind_returned _ _ _ _ _ E). cbn [ret].
      exists (Reply rt3), ([x1] ++ ts). split; [reflexivity |].
      split; [exact Hall |].
      split; [intros x rest Hx; inversion Hx; subst; now split |].
      split; [intros resp' H; rewrite He in H; discriminate |].
      intros x rest Hx Hne. inversion Hx; subst. now destruct Hne.
    + rewrite (bind_returned _ _ _ _ _ E). cbn [ret].
      rewrite add_exchanges_app.
      set (x3 := {| Sent := third; Got := rt3 |}).
      exists (Reply rt3), (([x1] ++ ts) ++ [x3]). split; [reflexivity |].
      split; [apply Forall_app; split;
              [exact Hall | repeat constructor; left; repeat split] |].
      split; [intros x rest Hx; inversion Hx; subst; now split |].
      split; [intros resp' H; exists ([x1] ++ ts), x3; repeat split; exact H |].
      intros x rest Hx Hne. inversion Hx; subst. now destruct Hne.
Qed.

(** *** The blob upload *)

Definition upload_path (repository digest : string) : string :=
  let path := "/v2/" +:+ repository +:+ "/blobs/uploads/" in
  if nonempty digest
  then path +:+ "?mount=" +:+ digest +:+ "&from=" +:+ repository
  else path.

Lemma Forall_last {A} (P : A -> Prop) (l : list A) (x : A) :
  Forall P (l ++ [x]) -> P x.
Proof.
  intros HF. apply Forall_app in HF. destruct HF as [_ HF].
  now inversion HF.
Qed.

Lemma initiateUpload_spec c repository digest w :
  exists r xs,
    initiateUpload lib env c repository digest w
    = (Returned r, add_exchanges xs w) /\
    Forall (fun x => Method (Sent x) = "POST" \/ Method (Sent x) = "GET") xs /\
    (forall x rest, xs = x :: rest ->
                    Method (Sent x) = "POST" /\
                    URL (Sent x) = BaseURL c +:+ upload_path repository digest /\
                    Body (Sent x) = "") /\
    (forall uploadURL, r = Ok uploadURL ->
       exists pre x, xs = pre ++ [x] /\
                     Method (Sent x) = "POST" /\
                     URL (Sent x) = BaseURL c +:+ upload_path repository digest /\
                     status x = Some StatusAccepted /\
                     uploadURL = resolve_location c (location x)).
Proof.
  unfold initiateUpload. fold (upload_path repository digest).
  destruct (doRequest_spec c "POST" (upload_path repository digest) None [] w)
    as (r & xs & E & Hall & Hfirst & Hlast & _).
  rewrite (bind_returned _ _ _ _ _ E). clear E.
  assert (Hall' : Forall (fun x => Method (Sent x) = "POST" \/
                                   Method (Sent x) = "GET") xs).
  { eapply List.Forall_impl; [| exact Hall].
    intros x [(Hm & _ & _) | Hm]; [now left | now right]. }
  assert (Hfirst' : forall x rest, xs = x :: rest ->
                      Method (Sent x) = "POST" /\
                      URL (Sent x) = BaseURL c +:+ upload_path repository digest /\
                      Body (Sent x) = "").
  { intros x rest Hx. destruct (Hfirst x rest Hx) as [(Hm & Hu & _) Hb].
    now repeat split. }
  destruct r as [resp | err].
  2:{ exists (Err err), xs. split; [reflexivity |]. split; [assumption |]. split; [assumption |]. intros ? Hd; discriminate Hd. }
  destruct (Hlast resp eq_refl) as (pre & x & -> & (Hm & Hu & _) & Hx).
  destruct (Z.eqb_spec (StatusCode resp) StatusCreated) as [H201 | H201].
  { eexists _, _. split; [reflexivity |]. split; [assumption |]. split; [assumption |]. intros ? Hd; discriminate Hd. }
  destruct (Z.eqb_spec (StatusCode resp) StatusAccepted) as [H202 | H202];
    cbn [negb].
  2:{ eexists _, _. split; [reflexivity |]. split; [assumption |]. split; [assumption |]. intros ? Hd; discriminate Hd. }
  destruct (String.eqb _ "").
  { eexists _, _. split; [reflexivity |]. split; [assumption |]. split; [assumption |]. intros ? Hd; discriminate Hd. }
  eexists _, _. split; [reflexivity |]. split; [assumption |].
  split; [assumption |].
  intros uploadURL Hok. inversion Hok; subst uploadURL.
  exists pre, x. unfold status, location. rewrite Hx, H202.
  now repeat split.
Qed.

Lemma uploadContent_spec c uploadURL content size w :
  exists r xs,
    uploadContent lib env c uploadURL content size w
    = (Returned r, add_exchanges xs w) /\
    Forall (fun x => Method (Sent x) = "PATCH") xs /\
    (forall newURL, r = Ok newURL ->
       exists x, xs = [x] /\
                 Method (Sent x) = "PATCH" /\
                 URL (Sent x) = uploadURL /\
                 Body (Sent x) = unread content /\
                 status x = Some StatusAccepted /\
                 newURL = resolve_location c (location x)).
Proof.
  unfold uploadContent.
  destruct (http_NewRequest_err lib "PATCH" uploadURL) as [err |].
  { exists (Err err), []. rewrite add_exchanges_nil.
    split; [reflexivity |]. split; [constructor |]. intros ? Hd; discriminate Hd. }
  match goal with |- context [Do lib env ?req] =>
    set (patch := req); destruct (Do_spec patch w) as [rt [[E [e He]] | E]]
  end.
  { rewrite (bind_returned _ _ _ _ _ E), He.
    exists (Err e), []. rewrite add_exchanges_nil.
    split; [reflexivity |]. split; [constructor |]. intros ? Hd; discriminate Hd. }
  rewrite (bind_returned _ _ _ _ _ E). clear E.
  set (x := {| Sent := patch; Got := rt |}).
  assert (HP : Forall (fun x => Method (Sent x) = "PATCH") [x])
    by (constructor; [reflexivity | constructor]).
  destruct (Reply rt) as [resp | err] eqn:Hrt.
  2:{ exists (Err err), [x]. split; [reflexivity |]. split; [assumption |]. intros ? Hd; discriminate Hd. }
  destruct (Z.eqb_spec (StatusCode resp) StatusAccepted) as [H202 | H202];
    cbn [negb].
  2:{ eexists _, [x]. split; [reflexivity |]. split; [assumption |]. intros ? Hd; discriminate Hd. }
  destruct (String.eqb _ "").
  { eexists _, [x]. split; [reflexivity |]. split; [assumption |]. intros ? Hd; discriminate Hd. }
  eexists _, [x]. split; [reflexivity |]. split; [assumption |].
  intros newURL Hok. inversion Hok; subst newURL.
  exists x. unfold status, location. cbn [Got x]. rewrite Hrt, H202.
  now repeat split.
Qed.

Lemma completeUpload_spec c uploadURL digest w :
  exists r xs,
    completeUpload lib env c uploadURL digest w
    = (Returned r, add_exchanges xs w) /\
    Forall (fun x => Method (Sent x) = "PUT") xs /\
    (r = None ->
       exists x, xs = [x] /\
                 Method (Sent x) = "PUT" /\
                 url_set_query lib uploadURL [("digest", digest)]
                 = Ok (URL (Sent x)) /\
                 Body (Sent x) = "" /\
                 Header_Get (Header (Sent x)) "Content-Length" = "0" /\
                 status x = Some StatusCreated) /\
    (forall pre x, xs = pre ++ [x] -> status x = Some StatusCreated ->
                   r = None).
Proof.
  unfold completeUpload.
  assert (Hnone : forall err : error,
             exists r xs,
               (Returned (Some err), w) = (Returned r, add_exchanges xs w) /\
               Forall (fun x => Method (Sent x) = "PUT") xs /\
               (r = None ->
                exists x, xs = [x] /\ Method (Sent x) = "PUT" /\
                          url_set_query lib uploadURL [("digest", digest)]
                          = Ok (URL (Sent x)) /\
                          Body (Sent x) = "" /\
                          Header_Get (Header (Sent x)) "Content-Length" = "0" /\
                          status x = Some StatusCreated) /\
               (forall pre x, xs = pre ++ [x] ->
                              status x = Some StatusCreated -> r = None)).
  { intros err. exists (Some err), []. rewrite add_exchanges_nil.
    split; [reflexivity |]. split; [constructor |].
    split; [discriminate |].
    intros pre x Hx. now destruct pre. }
  destruct (url_set_query lib uploadURL _) as [u | err] eqn:Hu;
    [| apply Hnone].
  destruct (http_NewRequest_err lib "PUT" u) as [err |]; [apply Hnone |].
  match goal with |- context [Do lib env ?req] =>
    set (put := req); destruct (Do_spec put w) as [rt [[E [e He]] | E]]
  end.
  { rewrite (bind_returned _ _ _ _ _ E), He. apply Hnone. }
  rewrite (bind_returned _ _ _ _ _ E). clear E Hnone.
  set (x := {| Sent := put; Got := rt |}).
  assert (HP : Forall (fun x => Method (Sent x) = "PUT") [x])
    by (constructor; [reflexivity | constructor]).
  assert (Hlast : forall pre y, [x] = pre ++ [y] -> y = x).
  { intros pre y Hy. change [x] with ([] ++ [x]) in Hy.
    apply app_inj_tail in Hy. now destruct Hy. }
  destruct (Reply rt) as [resp | err] eqn:Hrt.
  2:{ exists (Some err), [x]. split; [reflexivity |]. split; [assumption |].
      split; [discriminate |].
      intros pre y Hy Hst. apply Hlast in Hy. subst y.
      unfold status in Hst. cbn [Got x] in Hst. rewrite Hrt in Hst.
      discriminate. }
  destruct (Z.eqb_spec (StatusCode resp) StatusCreated) as [H201 | H201];
    cbn [negb].
  - exists None, [x]. split; [reflexivity |]. split; [assumption |].
    split; [| reflexivity].
    intros _. exists x. unfold status. cbn [Got x]. rewrite Hrt, H201.
    now repeat split.
  - eexists (Some _), [x]. split; [reflexivity |]. split; [assumption |].
    split; [discriminate |].
    intros pre y Hy Hst. apply Hlast in Hy. subst y.
    unfold status in Hst. cbn [Got x] in Hst. rewrite Hrt in Hst.
    inversion Hst. contradiction.
Qed.

(** *** The upload, step by step *)

(** What goes out and what comes back when [req] is sent in [w]. *)
Definition sent (req : Request) (w : World) : Exchange :=
  {| Sent := req; Got := transport env (wire w) req |}.

(** A request can go out: it can be built, and the context is alive. *)
Definition ready (method url : string) (w : World) : Prop :=
  http_NewRequest_err lib method url = None /\ ctx_Err env w = None.

(** An answer 202 that names a [Location]. *)
Definition accepted (x : Exchange) : Prop :=
  status x = Some StatusAccepted /\ location x <> "".

(** The URL a [Location] stands for: itself when it begins with [http],
    and otherwise behind the base URL of the client. *)
Definition follow (c : Client) (loc : string) : string :=
  if HasPrefix loc "http" then loc else BaseURL c +:+ loc.

Lemma follow_resolve c loc : resolve_location c loc = follow c loc.
Proof. unfold resolve_location, follow. now destruct (HasPrefix loc "http"). Qed.

Lemma add_exchanges_inj xs ys w :
  add_exchanges xs w = add_exchanges ys w -> xs = ys.
Proof.
  intros E. apply (f_equal wire) in E. rewrite !wire_add_exchanges in E.
  now apply app_inv_head in E.
Qed.

Lemma Do_ready req w :
  ctx_Err env w = None ->
  Do lib env req w = (Returned (Got (sent req w)), add_exchanges [sent req w] w).
Proof. intros Hctx. unfold Do. now rewrite Hctx. Qed.

Lemma Do_refused req w e :
  ctx_Err env w = Some e ->
  exists rt err, Do lib env req w = (Returned rt, w) /\ Reply rt = Err err.
Proof. intros Hctx. unfold Do. rewrite Hctx. eexists _, _. now split. Qed.

Lemma last_of_tokens (x1 : Exchange) ts pre x :
  Forall (fun y : Exchange => Method (Sent y) = "GET") ts ->
  [x1] ++ ts = pre ++ [x] ->
  Method (Sent x) <> "GET" ->
  x = x1.
Proof.
  intros Hts Hx Hm. destruct ts as [| t ts] using rev_ind.
  - change ([x1] ++ []) with ([] ++ [x1]) in Hx.
    apply app_inj_tail in Hx. now destruct Hx.
  - rewrite app_assoc in Hx. apply app_inj_tail in Hx. destruct Hx as [_ <-].
    apply Forall_app in Hts. destruct Hts as [_ Ht]. inversion Ht; subst.
    contradiction.
Qed.

(** [doRequest] sends its first request whenever nothing keeps it from
    doing so, and what it returns is the answer to the last request for
    the path, a 401 apart. *)
Lemma doRequest_answer c method path body headers w :
  exists r xs,
    doRequest lib env c method path body headers w
    = (Returned r, add_exchanges xs w) /\
    (Limiter_Wait env c w = (Returned None, w) ->
     ready method (BaseURL c +:+ path) w ->
     exists rest,
       xs = sent {| Method := method; URL := BaseURL c +:+ path;
                    Header := headers; Auth := basicAuth c;
                    Body := unread body |} w :: rest) /\
    (forall pre x, xs = pre ++ [x] ->
                   Method (Sent x) <> "GET" ->
                   status x <> Some StatusUnauthorized ->
                   r = Reply (Got x)).
Proof.
  unfold doRequest.
  destruct (Limiter_Wait_spec c w) as [limited E].
  rewrite (bind_returned _ _ _ _ _ E).
  assert (Hnone : forall r : result Response,
             (Limiter_Wait env c w = (Returned None, w) ->
              ready method (BaseURL c +:+ path) w -> False) ->
             exists r' xs,
               (Returned r, w) = (Returned r', add_exchanges xs w) /\
               (Limiter_Wait env c w = (Returned None, w) ->
                ready method (BaseURL c +:+ path) w ->
                exists rest,
                  xs = sent {| Method := method; URL := BaseURL c +:+ path;
                               Header := headers; Auth := basicAuth c;
                               Body := unread body |} w :: rest) /\
               (forall pre x, xs = pre ++ [x] ->
                              Method (Sent x) <> "GET" ->
                              status x <> Some StatusUnauthorized ->
                              r' = Reply (Got x))).
  { intros r Hr. exists r, []. rewrite add_exchanges_nil.
    split; [reflexivity |].
    split; [intros Hl Hready; destruct (Hr Hl Hready) |].
    intros pre x Hx. now destruct pre. }
  destruct limited as [err |].
  { apply Hnone. intros Hl _. rewrite Hl in E. discriminate. }
  destruct (http_NewRequest_err lib method _) as [err |] eqn:Hnew.
  { apply Hnone. intros _ [Hn _]. rewrite Hn in Hnew. discriminate. }
  destruct (ctx_Err env w) as [e |] eqn:Hctx.
  { match goal with |- context [Do lib env ?req] =>
      destruct (Do_refused req w e Hctx) as (rt & err & E1 & He)
    end.
    rewrite (bind_returned _ _ _ _ _ E1), He.
    apply Hnone. intros _ [_ Hc]. congruence. }
  clear Hnone.
  match goal with |- context [Do lib env ?req] => set (first := req) end.
  rewrite (bind_returned _ _ _ _ _ (Do_ready first w Hctx)).
  set (x1 := sent first w).
  assert (Hone : forall pre x, [x1] = pre ++ [x] -> x = x1).
  { intros pre x Hx. change [x1] with ([] ++ [x1]) in Hx.
    apply app_inj_tail in Hx. now destruct Hx. }
  destruct (Reply (Got x1)) as [resp | err] eqn:Hrt.
  2:{ exists (Err err), [x1]. split; [reflexivity |].
      split; [intros _ _; now exists [] |].
      intros pre x Hx _ _. apply Hone in Hx. subst x. now rewrite Hrt. }
  destruct (Z.eqb_spec (StatusCode resp) StatusUnauthorized) as [H401 | H401].
  2:{ exists (Ok resp), [x1]. split; [reflexivity |].
      split; [intros _ _; now exists [] |].
      intros pre x Hx _ _. apply Hone in Hx. subst x. now rewrite Hrt. }
  assert (Hst : status x1 = Some StatusUnauthorized)
    by (unfold status; now rewrite Hrt, H401).
  destruct (String.eqb _ "").
  - (* the basic-auth retry *)
    match goal with |- context [Do lib env ?req] =>
      set (second := req);
      destruct (Do_spec second (add_exchanges [x1] w)) as [rt2 [[E2 [e He]] | E2]]
    end.
    + rewrite (bind_returned _ _ _ _ _ E2). cbn [ret].
      exists (Reply rt2), [x1]. split; [reflexivity |].
      split; [intros _ _; now exists [] |].
      intros pre x Hx _ Hne. apply Hone in Hx. subst x. contradiction.
    + rewrite (bind_returned _ _ _ _ _ E2). cbn [ret].
      rewrite add_exchanges_app.
      set (x2 := {| Sent := second; Got := rt2 |}).
      exists (Reply rt2), ([x1] ++ [x2]). split; [reflexivity |].
      split; [intros _ _; now exists [x2] |].
      intros pre x Hx _ _. apply app_inj_tail in Hx. destruct Hx as [_ <-].
      reflexivity.
  - (* the bearer-token retry *)
    destruct (getBearerToken_spec c
                (Header_Get (RespHeader resp) "WWW-Authenticate") path
                (add_exchanges [x1] w)) as [tok [ts [E2 Hts]]].
    rewrite (bind_returned _ _ _ _ _ E2). clear E2. rewrite add_exchanges_app.
    destruct tok as [token | err].
    2:{ eexists _, ([x1] ++ ts). split; [reflexivity |].
        split; [intros _ _; now exists ts |].
        intros pre x Hx Hm Hne.
        rewrite (last_of_tokens x1 ts pre x Hts Hx Hm) in Hne.
        contradiction. }
    match goal with |- context [Do lib env ?req] =>
      set (third := req);
      destruct (Do_spec third (add_exchanges ([x1] ++ ts) w))
        as [rt3 [[E3 [e He]] | E3]]
    end.
    + rewrite (bind_returned _ _ _ _ _ E3). cbn [ret].
      exists (Reply rt3), ([x1] ++ ts). split; [reflexivity |].
      split; [intros _ _; now exists ts |].
      intros pre x Hx Hm Hne.
      rewrite (last_of_tokens x1 ts pre x Hts Hx Hm) in Hne.
      contradiction.
    + rewrite (bind_returned _ _ _ _ _ E3). cbn [ret].
      rewrite add_exchanges_app.
      set (x3 := {| Sent := third; Got := rt3 |}).
      exists (Reply rt3), (([x1] ++ ts) ++ [x3]). split; [reflexivity |].
      split; [intros _ _; now exists (ts ++ [x3]) |].
      intros pre x Hx _ _. apply app_inj_tail in Hx. destruct Hx as [_ <-].
      reflexivity.
Qed.

(** Step 1.  The POST goes out whenever nothing keeps it back, and the
    upload goes on exactly when the last exchange is a POST that was
    answered 202 with a [Location]. *)
Lemma initiateUpload_steps c repository digest w :
  exists r xs,
    initiateUpload lib env c repository digest w
    = (Returned r, add_exchanges xs w) /\
    Forall (fun x => targets c "POST" (upload_path repository digest) [] x \/
                     Method (Sent x) = "GET") xs /\
    (Limiter_Wait env c w = (Returned None, w) ->
     ready "POST" (BaseURL c +:+ upload_path repository digest) w ->
     exists rest,
       xs = sent {| Method := "POST";
                    URL := BaseURL c +:+ upload_path repository digest;
                    Header := []; Auth := basicAuth c; Body := "" |} w
            :: rest) /\
    (forall pre post, xs = pre ++ [post] ->
                      Method (Sent post) = "POST" -> accepted post ->
                      r = Ok (follow c (location post))) /\
    (forall url, r = Ok url ->
                 exists pre post, xs = pre ++ [post] /\
                                  Method (Sent post) = "POST" /\
                                  accepted post /\
                                  url = follow c (location post)).
Proof.
  destruct (doRequest_spec c "POST" (upload_path repository digest) None [] w)
    as (r & xs & E & Hall & _ & Hlast & _).
  destruct (doRequest_answer c "POST" (upload_path repository digest) None [] w)
    as (r' & xs' & E' & Hfirst & Hanswer).
  rewrite E in E'.
  pose proof (f_equal snd E') as Hw. cbn [snd] in Hw.
  apply add_exchanges_inj in Hw. subst xs'.
  pose proof (f_equal fst E') as Hr. cbn [fst] in Hr.
  inversion Hr. subst r'. clear E' Hr.
  unfold initiateUpload. fold (upload_path repository digest).
  rewrite (bind_returned _ _ _ _ _ E). clear E.
  destruct r as [resp | err].
  - destruct (Hlast resp eq_refl) as (pre & post & -> & Hpost & Hreply).
    assert (Hstatus : status post = Some (StatusCode resp))
      by (unfold status; now rewrite Hreply).
    assert (Hloc : location post = Header_Get (RespHeader resp) "Location")
      by (unfold location; now rewrite Hreply).
    assert (Hthis : forall pre' post', pre ++ [post] = pre' ++ [post'] ->
                                       post' = post).
    { intros pre' post' Hx. apply app_inj_tail in Hx. now destruct Hx. }
    destruct (Z.eqb_spec (StatusCode resp) StatusCreated) as [H201 | H201].
    { eexists _, _. split; [reflexivity |]. split; [exact Hall |].
      split; [exact Hfirst |]. split.
      - intros pre' post' Hx _ [Hacc _]. apply Hthis in Hx. subst post'.
        rewrite Hstatus, H201 in Hacc. discriminate.
      - intros url Hurl. discriminate. }
    destruct (Z.eqb_spec (StatusCode resp) StatusAccepted) as [H202 | H202];
      cbn [negb].
    2:{ eexists _, _. split; [reflexivity |]. split; [exact Hall |].
        split; [exact Hfirst |]. split.
        - intros pre' post' Hx _ [Hacc _]. apply Hthis in Hx. subst post'.
          rewrite Hstatus in Hacc. inversion Hacc. contradiction.
        - intros url Hurl. discriminate. }
    destruct (String.eqb_spec (Header_Get (RespHeader resp) "Location") "")
      as [Hempty | Hfull].
    { eexists _, _. split; [reflexivity |]. split; [exact Hall |].
      split; [exact Hfirst |]. split.
      - intros pre' post' Hx _ [_ Hl]. apply Hthis in Hx. subst post'.
        rewrite Hloc in Hl. contradiction.
      - intros url Hurl. discriminate. }
    eexists _, _. split; [reflexivity |]. split; [exact Hall |].
    split; [exact Hfirst |]. split.
    + intros pre' post' Hx _ _. apply Hthis in Hx. subst post'.
      now rewrite Hloc, follow_resolve.
    + intros url Hurl. inversion Hurl. exists pre, post.
      split; [reflexivity |]. split; [apply Hpost |].
      split; [split; [now rewrite Hstatus, H202 | now rewrite Hloc] |].
      now rewrite Hloc, follow_resolve.
  - eexists _, _. split; [reflexivity |]. split; [exact Hall |].
    split; [exact Hfirst |]. split.
    + intros pre post Hx Hm [Hacc _].
      assert (Hne : status post <> Some StatusUnauthorized)
        by (rewrite Hacc; discriminate).
      assert (Hget : Method (Sent post) <> "GET")
        by (rewrite Hm; discriminate).
      pose proof (Hanswer pre post Hx Hget Hne) as Hr.
      unfold status in Hacc. rewrite <- Hr in Hacc. discriminate.
    + intros url Hurl. discriminate.
Qed.

(** Step 2.  The PATCH goes out whenever it can, and the upload goes on
    exactly when it was answered 202 with a [Location]. *)
Lemma uploadContent_steps c uploadURL content size w :
  exists r xs,
    uploadContent lib env c uploadURL content size w
    = (Returned r, add_exchanges xs w) /\
    (xs = [] \/
     xs = [sent {| Method := "PATCH"; URL := uploadURL;
                   Header := [("Content-Type", "application/octet-stream")]
                             ++ (if size >? 0
                                 then [("Content-Length", itoa size)]
                                 else []);
                   Auth := basicAuth c; Body := unread content |} w]) /\
    (ready "PATCH" uploadURL w -> xs <> []) /\
    (forall patch, xs = [patch] -> accepted patch ->
                   r = Ok (follow c (location patch))) /\
    (forall url, r = Ok url ->
                 exists patch, xs = [patch] /\ accepted patch /\
                               url = follow c (location patch)).
Proof.
  unfold uploadContent.
  assert (Hnone : forall err : error,
             (ready "PATCH" uploadURL w -> False) ->
             exists r xs,
               (Returned (Err err : result string), w)
               = (Returned r, add_exchanges xs w) /\
               (xs = [] \/
                xs = [sent {| Method := "PATCH"; URL := uploadURL;
                              Header := [("Content-Type",
                                          "application/octet-stream")]
                                        ++ (if size >? 0
                                            then [("Content-Length",
                                                   itoa size)]
                                            else []);
                              Auth := basicAuth c;
                              Body := unread content |} w]) /\
               (ready "PATCH" uploadURL w -> xs <> []) /\
               (forall patch, xs = [patch] -> accepted patch ->
                              r = Ok (follow c (location patch))) /\
               (forall url, r = Ok url ->
                            exists patch, xs = [patch] /\ accepted patch /\
                                          url = follow c (location patch))).
  { intros err Hr. exists (Err err), []. rewrite add_exchanges_nil.
    split; [reflexivity |]. split; [now left |].
    split; [intros Hready; destruct (Hr Hready) |].
    split; [intros patch Hx; discriminate |].
    intros url Hurl. discriminate. }
  destruct (http_NewRequest_err lib "PATCH" uploadURL) as [err |] eqn:Hnew.
  { apply Hnone. intros [Hn _]. rewrite Hn in Hnew. discriminate. }
  destruct (ctx_Err env w) as [e |] eqn:Hctx.
  { match goal with |- context [Do lib env ?req] =>
      destruct (Do_refused req w e Hctx) as (rt & err & E1 & He)
    end.
    rewrite (bind_returned _ _ _ _ _ E1), He.
    apply Hnone. intros [_ Hc]. congruence. }
  clear Hnone.
  match goal with |- context [Do lib env ?req] => set (patch_req := req) end.
  rewrite (bind_returned _ _ _ _ _ (Do_ready patch_req w Hctx)).
  set (x := sent patch_req w).
  assert (Hshape : [x] = [] \/ [x] = [x]) by now right.
  assert (Hsent : ready "PATCH" uploadURL w -> [x] <> []) by discriminate.
  destruct (Reply (Got x)) as [resp | err] eqn:Hrt.
  2:{ exists (Err err), [x]. split; [reflexivity |]. split; [exact Hshape |].
      split; [exact Hsent |]. split.
      - intros patch Hx [Hacc _]. inversion Hx; subst patch.
        unfold status in Hacc. rewrite Hrt in Hacc. discriminate.
      - intros url Hurl. discriminate. }
  assert (Hstatus : status x = Some (StatusCode resp))
    by (unfold status; now rewrite Hrt).
  assert (Hloc : location x = Header_Get (RespHeader resp) "Location")
    by (unfold location; now rewrite Hrt).
  destruct (Z.eqb_spec (StatusCode resp) StatusAccepted) as [H202 | H202];
    cbn [negb].
  2:{ eexists _, [x]. split; [reflexivity |]. split; [exact Hshape |].
      split; [exact Hsent |]. split.
      - intros patch Hx [Hacc _]. inversion Hx; subst patch.
        rewrite Hstatus in Hacc. inversion Hacc. contradiction.
      - intros url Hurl. discriminate. }
  destruct (String.eqb_spec (Header_Get (RespHeader resp) "Location") "")
    as [Hempty | Hfull].
  { eexists _, [x]. split; [reflexivity |]. split; [exact Hshape |].
    split; [exact Hsent |]. split.
    - intros patch Hx [_ Hl]. inversion Hx; subst patch.
      rewrite Hloc in Hl. contradiction.
    - intros url Hurl. discriminate. }
  eexists _, [x]. split; [reflexivity |]. split; [exact Hshape |].
  split; [exact Hsent |]. split.
  - intros patch Hx _. inversion Hx; subst patch.
    now rewrite Hloc, follow_resolve.
  - intros url Hurl. inversion Hurl. exists x. split; [reflexivity |].
    split; [split; [now rewrite Hstatus, H202 | now rewrite Hloc] |].
    now rewrite Hloc, follow_resolve.
Qed.

(** Step 3.  The PUT goes out whenever it can, and the upload is done
    exactly when it was answered 201. *)
Lemma completeUpload_steps c uploadURL digest w :
  exists r xs,
    completeUpload lib env c uploadURL digest w
    = (Returned r, add_exchanges xs w) /\
    (xs = [] \/
     exists u,
       url_set_query lib uploadURL [("digest", digest)] = Ok u /\
       xs = [sent {| Method := "PUT"; URL := u;
                     Header := [("Content-Length", "0")];
                     Auth := basicAuth c; Body := "" |} w]) /\
    (forall u, url_set_query lib uploadURL [("digest", digest)] = Ok u ->
               ready "PUT" u w -> xs <> []) /\
    (r = None <-> exists put, xs = [put] /\ status put = Some StatusCreated).
Proof.
  unfold completeUpload.
  assert (Hnone : forall err : error,
             (forall u, url_set_query lib uploadURL [("digest", digest)] = Ok u ->
                        ready "PUT" u w -> False) ->
             exists r xs,
               (Returned (Some err), w) = (Returned r, add_exchanges xs w) /\
               (xs = [] \/
                exists u,
                  url_set_query lib uploadURL [("digest", digest)] = Ok u /\
                  xs = [sent {| Method := "PUT"; URL := u;
                                Header := [("Content-Length", "0")];
                                Auth := basicAuth c; Body := "" |} w]) /\
               (forall u,
                   url_set_query lib uploadURL [("digest", digest)] = Ok u ->
                   ready "PUT" u w -> xs <> []) /\
               (r = None <->
                exists put, xs = [put] /\ status put = Some StatusCreated)).
  { intros err Hr. exists (Some err), []. rewrite add_exchanges_nil.
    split; [reflexivity |]. split; [now left |].
    split; [intros u Hu Hready; destruct (Hr u Hu Hready) |].
    split; [discriminate | intros (put & Hx & _); discriminate]. }
  destruct (url_set_query lib uploadURL _) as [u | err] eqn:Hu.
  2:{ apply Hnone. intros u Hu'. discriminate. }
  destruct (http_NewRequest_err lib "PUT" u) as [err |] eqn:Hnew.
  { apply Hnone. intros u' Hu' [Hn _]. inversion Hu'; subst u'.
    rewrite Hn in Hnew. discriminate. }
  destruct (ctx_Err env w) as [e |] eqn:Hctx.
  { match goal with |- context [Do lib env ?req] =>
      destruct (Do_refused req w e Hctx) as (rt & err & E1 & He)
    end.
    rewrite (bind_returned _ _ _ _ _ E1), He.
    apply Hnone. intros u' _ [_ Hc]. congruence. }
  clear Hnone.
  match goal with |- context [Do lib env ?req] => set (put_req := req) end.
  rewrite (bind_returned _ _ _ _ _ (Do_ready put_req w Hctx)).
  set (x := sent put_req w).
  assert (Hshape : [x] = [] \/
                   exists u', Ok u = Ok u' /\
                              [x] = [sent {| Method := "PUT"; URL := u';
                                             Header := [("Content-Length", "0")];
                                             Auth := basicAuth c;
                                             Body := "" |} w])
    by (right; now exists u).
  assert (Hsent : forall u', Ok u = Ok u' :> result string ->
                             ready "PUT" u' w -> [x] <> [])
    by discriminate.
  destruct (Reply (Got x)) as [resp | err] eqn:Hrt.
  2:{ exists (Some err), [x]. split; [reflexivity |]. split; [exact Hshape |].
      split; [exact Hsent |].
      split; [discriminate |]. intros (put & Hx & Hst).
      inversion Hx; subst put. unfold status in Hst. rewrite Hrt in Hst.
      discriminate. }
  assert (Hstatus : status x = Some (StatusCode resp))
    by (unfold status; now rewrite Hrt).
  destruct (Z.eqb_spec (StatusCode resp) StatusCreated) as [H201 | H201];
    cbn [negb].
  - exists None, [x]. split; [reflexivity |]. split; [exact Hshape |].
    split; [exact Hsent |]. split; [| reflexivity].
    intros _. exists x. split; [reflexivity | now rewrite Hstatus, H201].
  - eexists (Some _), [x]. split; [reflexivity |]. split; [exact Hshape |].
    split; [exact Hsent |].
    split; [discriminate |]. intros (put & Hx & Hst).
    inversion Hx; subst put. rewrite Hstatus in Hst. inversion Hst.
    contradiction.
Qed.

(** C9.  [PutBlob] always returns, and its round trips are those of
    three steps.  Step 1: whenever the limiter lets the client pass,
    the request can be built and the context is alive, a POST without
    body goes to [/v2/{repo}/blobs/uploads/] of the endpoint (with the
    mount query when a digest is given); it may be repeated once after
    a 401, with a token request in between.  Step 2: when the last
    exchange of step 1 is a POST answered 202 with a [Location], and
    whenever the request can go out, the content is sent in one PATCH
    to the URL of that [Location], taken as it is when it begins with
    [http] and behind the base URL otherwise; a PATCH is sent in no
    other case.  Step 3: when the PATCH is answered 202 with a
    [Location], and whenever the request can go out, one PUT without
    content and with [Content-Length: 0] goes to the URL of the new
    [Location] with the [digest] parameter set; a PUT is sent in no
    other case.  [PutBlob] returns nil exactly when that PUT is
    answered 201, that is, when the three steps were answered 202, 202
    and 201. *)
Theorem PutBlob_three_steps c repository digest content size w :
  exists r xs1 xs2 xs3,
    PutBlob lib env c repository digest content size w
    = (Returned r, add_exchanges (xs1 ++ xs2 ++ xs3) w) /\
    (* step 1 *)
    Forall (fun x => targets c "POST" (upload_path repository digest) [] x \/
                     Method (Sent x) = "GET") xs1 /\
    (Limiter_Wait env c w = (Returned None, w) ->
     ready "POST" (BaseURL c +:+ upload_path repository digest) w ->
     exists rest,
       xs1 = sent {| Method := "POST";
                     URL := BaseURL c +:+ upload_path repository digest;
                     Header := []; Auth := basicAuth c; Body := "" |} w
             :: rest) /\
    (* step 2 *)
    (forall pre post,
        xs1 = pre ++ [post] -> Method (Sent post) = "POST" ->
        accepted post ->
        ready "PATCH" (follow c (location post)) (add_exchanges xs1 w) ->
        xs2 = [sent {| Method := "PATCH"; URL := follow c (location post);
                       Header := [("Content-Type", "application/octet-stream")]
                                 ++ (if size >? 0
                                     then [("Content-Length", itoa size)]
                                     else []);
                       Auth := basicAuth c; Body := unread content |}
                    (add_exchanges xs1 w)]) /\
    (xs2 <> [] ->
     exists pre post patch,
       xs1 = pre ++ [post] /\ Method (Sent post) = "POST" /\
       accepted post /\
       xs2 = [patch] /\ Method (Sent patch) = "PATCH" /\
       URL (Sent patch) = follow c (location post) /\
       Body (Sent patch) = unread content) /\
    (* step 3 *)
    (forall patch u,
        xs2 = [patch] -> accepted patch ->
        url_set_query lib (follow c (location patch)) [("digest", digest)]
        = Ok u ->
        ready "PUT" u (add_exchanges (xs1 ++ xs2) w) ->
        xs3 = [sent {| Method := "PUT"; URL := u;
                       Header := [("Content-Length", "0")];
                       Auth := basicAuth c; Body := "" |}
                    (add_exchanges (xs1 ++ xs2) w)]) /\
    (xs3 <> [] ->
     exists patch put,
       xs2 = [patch] /\ accepted patch /\
       xs3 = [put] /\ Method (Sent put) = "PUT" /\
       url_set_query lib (follow c (location patch)) [("digest", digest)]
       = Ok (URL (Sent put)) /\
       Body (Sent put) = "" /\
       Header_Get (Header (Sent put)) "Content-Length" = "0") /\
    (* the result *)
    (r = None <->
     exists post patch put,
       last xs1 = Some post /\ xs2 = [patch] /\ xs3 = [put] /\
       Method (Sent post) = "POST" /\
       status post = Some StatusAccepted /\
       status patch = Some StatusAccepted /\
       status put = Some StatusCreated).
Proof.
  unfold PutBlob.
  destruct (initiateUpload_steps c repository digest w)
    as (r1 & xs1 & E1 & Hall1 & Hfirst1 & Hgo1 & Hok1).
  rewrite (bind_returned _ _ _ _ _ E1). clear E1.
  destruct r1 as [uploadURL | err].
  2:{ (* the upload stops after step 1 *)
      eexists (Some _), xs1, [], []. rewrite !app_nil_r.
      split; [reflexivity |]. split; [exact Hall1 |]. split; [exact Hfirst1 |].
      split.
      { intros pre post Hx Hm Hacc _.
        discriminate (Hgo1 pre post Hx Hm Hacc). }
      split; [intros Hne; now destruct Hne |].
      split; [intros patch u Hx; discriminate |].
      split; [intros Hne; now destruct Hne |].
      split; [discriminate |].
      intros (post & patch & put & _ & Hx & _). discriminate. }
  destruct (Hok1 uploadURL eq_refl) as (pre1 & post1 & -> & Hm1 & Hacc1 & ->).
  assert (Hpost : forall pre post, pre1 ++ [post1] = pre ++ [post] ->
                                   post = post1).
  { intros pre post Hx. apply app_inj_tail in Hx. now destruct Hx. }
  destruct (uploadContent_steps c (follow c (location post1)) content size
              (add_exchanges (pre1 ++ [post1]) w))
    as (r2 & xs2 & E2 & Hshape2 & Hsent2 & Hgo2 & Hok2).
  rewrite (bind_returned _ _ _ _ _ E2). clear E2. rewrite add_exchanges_app.
  assert (Hstep2 : forall pre post,
             pre1 ++ [post1] = pre ++ [post] -> Method (Sent post) = "POST" ->
             accepted post ->
             ready "PATCH" (follow c (location post))
                   (add_exchanges (pre1 ++ [post1]) w) ->
             xs2 = [sent {| Method := "PATCH";
                            URL := follow c (location post);
                            Header := [("Content-Type",
                                        "application/octet-stream")]
                                      ++ (if size >? 0
                                          then [("Content-Length", itoa size)]
                                          else []);
                            Auth := basicAuth c; Body := unread content |}
                         (add_exchanges (pre1 ++ [post1]) w)]).
  { intros pre post Hx _ _ Hready. apply Hpost in Hx. subst post.
    destruct Hshape2 as [Hnil | Hone]; [| exact Hone].
    now destruct (Hsent2 Hready). }
  assert (Honly2 : xs2 <> [] ->
                   exists pre post patch,
                     pre1 ++ [post1] = pre ++ [post] /\
                     Method (Sent post) = "POST" /\ accepted post /\
                     xs2 = [patch] /\ Method (Sent patch) = "PATCH" /\
                     URL (Sent patch) = follow c (location post) /\
                     Body (Sent patch) = unread content).
  { intros Hne. destruct Hshape2 as [Hnil | Hone]; [contradiction |].
    eexists pre1, post1, _. split; [reflexivity |]. split; [exact Hm1 |].
    split; [exact Hacc1 |]. split; [exact Hone |]. now repeat split. }
  destruct r2 as [newUploadURL | err].
  2:{ (* the upload stops after step 2 *)
      eexists (Some _), (pre1 ++ [post1]), xs2, []. rewrite !app_nil_r.
      split; [reflexivity |]. split; [exact Hall1 |]. split; [exact Hfirst1 |].
      split; [exact Hstep2 |]. split; [exact Honly2 |].
      split.
      { intros patch u Hx Hacc _ _.
        discriminate (Hgo2 patch Hx Hacc). }
      split; [intros Hne; now destruct Hne |].
      split; [discriminate |].
      intros (post & patch & put & _ & _ & Hx & _). discriminate. }
  destruct (Hok2 newUploadURL eq_refl) as (patch2 & -> & Hacc2 & ->).
  destruct (completeUpload_steps c (follow c (location patch2)) digest
              (add_exchanges ((pre1 ++ [post1]) ++ [patch2]) w))
    as (r3 & xs3 & E3 & Hshape3 & Hsent3 & Hdone3).
  rewrite (bind_returned _ _ _ _ _ E3). clear E3. rewrite add_exchanges_app.
  rewrite <- app_assoc.
  exists (match r3 with
          | Some err => Some (Wrapf "failed to complete upload: " err)
          | None => None
          end), (pre1 ++ [post1]), [patch2], xs3.
  split; [now destruct r3 |]. split; [exact Hall1 |].
  split; [exact Hfirst1 |]. split; [exact Hstep2 |]. split; [exact Honly2 |].
  split.
  { intros patch u Hx _ Hu Hready. inversion Hx; subst patch.
    destruct Hshape3 as [Hnil | (u' & Hu' & Hone)].
    - now destruct (Hsent3 u Hu Hready).
    - rewrite Hu in Hu'. inversion Hu'; subst u'. exact Hone. }
  split.
  { intros Hne. destruct Hshape3 as [Hnil | (u & Hu & Hone)]; [contradiction |].
    eexists patch2, _. split; [reflexivity |]. split; [exact Hacc2 |].
    split; [exact Hone |]. now repeat split. }
  split.
  - intros Hr. assert (Hr3 : r3 = None) by (now destruct r3).
    apply Hdone3 in Hr3. destruct Hr3 as (put & Hx & Hst).
    exists post1, patch2, put. split; [apply last_snoc |].
    split; [reflexivity |]. split; [exact Hx |]. split; [exact Hm1 |].
    split; [apply Hacc1 |]. split; [apply Hacc2 | exact Hst].
  - intros (post & patch & put & _ & _ & Hx & _ & _ & _ & Hst).
    assert (Hr3 : r3 = None) by (apply Hdone3; now exists put).
    now rewrite Hr3.
Qed.

(** *** Manifests *)

Definition manifest_path (repository reference : string) : string :=
  "/v2/" +:+ repository +:+ "/manifests/" +:+ reference.

(** A manifest that [GetManifest] returns holds, as [Raw], the body of
    the answer to the last request sent, and its digest header. *)
Lemma GetManifest_Raw c repository reference w m w' :
  GetManifest lib env c repository reference w = (Returned (Ok m), w') ->
  exists pre x resp,
    w' = add_exchanges (pre ++ [x]) w /\
    Method (Sent x) = "GET" /\
    URL (Sent x) = BaseURL c +:+ manifest_path repository reference /\
    Reply (Got x) = Ok resp /\
    StatusCode resp = StatusOK /\
    Manifest.Raw m = RespBody resp /\
    Manifest.ContentDigest m
    = Header_Get (RespHeader resp) "Docker-Content-Digest".
Proof.
  unfold GetManifest. fold (manifest_path repository reference).
  destruct (doRequest_spec c "GET" (manifest_path repository reference) None
                           [("Accept", buildAcceptHeader)] w)
    as (r & xs & E & _ & _ & Hlast & _).
  rewrite (bind_returned _ _ _ _ _ E). clear E.
  destruct r as [resp | err]; [| intros Hd; unfold ret in Hd; inversion Hd].
  destruct (Hlast resp eq_refl) as (pre & x & -> & (Hm & Hu & _) & Hx).
  destruct (Z.eqb_spec (StatusCode resp) StatusOK) as [H200 | H200];
    cbn [negb]; [| intros Hd; unfold ret in Hd; inversion Hd].
  unfold io_ReadAll. destruct (ReadErr resp);
    [intros Hd; unfold ret in Hd; inversion Hd |].
  destruct (json_Unmarshal_Manifest lib (RespBody resp)) as [parsed | err];
    [| intros Hd; unfold ret in Hd; inversion Hd].
  intros Hok. unfold ret in Hok. inversion Hok; subst.
  exists pre, x, resp. now repeat split.
Qed.

(** [PutManifest] always returns.  The first request it sends, if any,
    is a PUT of the manifest path whose body is [Raw] and whose only
    header is the [Content-Type] of the manifest's media type; and when
    the answer to it is not a 401 it is the only request. *)
Lemma PutManifest_first_request c repository reference m w :
  exists r xs,
    PutManifest lib env c repository reference m w
    = (Returned r, add_exchanges xs w) /\
    (forall x rest, xs = x :: rest ->
       Method (Sent x) = "PUT" /\
       URL (Sent x) = BaseURL c +:+ manifest_path repository reference /\
       Header (Sent x) = [("Content-Type", Manifest.MediaType m)] /\
       Body (Sent x) = Manifest.Raw m /\
       (status x <> Some StatusUnauthorized -> rest = [])).
Proof.
  unfold PutManifest. fold (manifest_path repository reference).
  destruct (doRequest_spec c "PUT" (manifest_path repository reference)
                           (Some (Manifest.Raw m))
                           [("Content-Type", Manifest.MediaType m)] w)
    as (r & xs & E & _ & Hfirst & _ & Hone).
  rewrite (bind_returned _ _ _ _ _ E). clear E.
  assert (Hx : forall x rest, xs = x :: rest ->
     Method (Sent x) = "PUT" /\
     URL (Sent x) = BaseURL c +:+ manifest_path repository reference /\
     Header (Sent x) = [("Content-Type", Manifest.MediaType m)] /\
     Body (Sent x) = Manifest.Raw m /\
     (status x <> Some StatusUnauthorized -> rest = [])).
  { intros x rest Hxs.
    destruct (Hfirst x rest Hxs) as [(Hm & Hu & Hh) Hb].
    repeat split; try assumption. apply (Hone x rest Hxs). }
  destruct r as [resp | err]; [| eexists _, xs; split; [reflexivity | exact Hx]].
  destruct (_ && _)%bool; eexists _, xs; split; try reflexivity; exact Hx.
Qed.

(** The requests of [PutManifest] are those of its [doRequest]. *)
Lemma PutManifest_exchanges c repository reference m w r xs :
  doRequest lib env c "PUT" (manifest_path repository reference)
            (Some (Manifest.Raw m))
            [("Content-Type", Manifest.MediaType m)] w
  = (Returned r, add_exchanges xs w) ->
  exists r',
    PutManifest lib env c repository reference m w
    = (Returned r', add_exchanges xs w).
Proof.
  intros E. unfold PutManifest. fold (manifest_path repository reference).
  rewrite (bind_returned _ _ _ _ _ E).
  destruct r as [resp | err]; [| eexists; reflexivity].
  destruct (_ && _)%bool; eexists; reflexivity.
Qed.

(** X27.  A manifest that [GetManifest] returns is read from the answer
    200 to the last request of that call, a GET of the manifest path at
    the source.  Pushed with [PutManifest], it goes out whenever the
    limiter lets the client pass, the request can be built and the
    context is alive; the first request is a PUT of the manifest path
    at the target whose body is, byte for byte, the body the source
    answered with, and whose only header is the [Content-Type] of the
    manifest's media type; and when the answer to it is not a 401 it is
    the only request. *)
Lemma manifest_bytes_preserved src tgt repository reference target_repository
      w m w1 :
  GetManifest lib env src repository reference w = (Returned (Ok m), w1) ->
  exists pre fetched resp r xs,
    w1 = add_exchanges (pre ++ [fetched]) w /\
    Method (Sent fetched) = "GET" /\
    URL (Sent fetched) = BaseURL src +:+ manifest_path repository reference /\
    Reply (Got fetched) = Ok resp /\
    StatusCode resp = StatusOK /\
    PutManifest lib env tgt target_repository reference m w1
    = (Returned r, add_exchanges xs w1) /\
    (Limiter_Wait env tgt w1 = (Returned None, w1) ->
     ready "PUT" (BaseURL tgt +:+ manifest_path target_repository reference)
           w1 ->
     xs <> []) /\
    (forall x rest, xs = x :: rest ->
       Method (Sent x) = "PUT" /\
       URL (Sent x)
       = BaseURL tgt +:+ manifest_path target_repository reference /\
       Body (Sent x) = RespBody resp /\
       Header (Sent x) = [("Content-Type", Manifest.MediaType m)] /\
       (status x <> Some StatusUnauthorized -> rest = [])).
Proof.
  intros Hget. apply GetManifest_Raw in Hget.
  destruct Hget as (pre & x & resp & -> & Hm & Hu & Hx & H200 & Hraw & _).
  destruct (PutManifest_first_request tgt target_repository reference m
              (add_exchanges (pre ++ [x]) w)) as (r & xs & E & Hfirst).
  exists pre, x, resp, r, xs.
  split; [reflexivity |]. split; [exact Hm |]. split; [exact Hu |].
  split; [exact Hx |]. split; [exact H200 |]. split; [exact E |].
  split.
  - intros Hl Hready.
    destruct (doRequest_answer tgt "PUT"
                (manifest_path target_repository reference)
                (Some (Manifest.Raw m))
                [("Content-Type", Manifest.MediaType m)]
                (add_exchanges (pre ++ [x]) w))
      as (r' & xs' & E' & Hsent & _).
    destruct (Hsent Hl Hready) as [rest Hxs'].
    destruct (PutManifest_exchanges tgt target_repository reference m
                (add_exchanges (pre ++ [x]) w) r' xs' E') as (r'' & E'').
    rewrite E in E''.
    pose proof (f_equal snd E'') as Hw. cbn [snd] in Hw.
    apply add_exchanges_inj in Hw. rewrite Hw, Hxs'. discriminate.
  - intros y rest Hy.
    destruct (Hfirst y rest Hy) as (Hmy & Huy & Hh & Hb & Hone).
    rewrite Hb, Hraw. now repeat split.
Qed.

Lemma resolve_location_relative c loc :
  HasPrefix loc "http" = false -> resolve_location c loc = BaseURL c +:+ loc.
Proof. intros H. unfold resolve_location. now rewrite H. Qed.

Lemma resolve_location_absolute c loc :
  HasPrefix loc "http" = true -> resolve_location c loc = loc.
Proof. intros H. unfold resolve_location. now rewrite H. Qed.

End Wire.
End registry_proofs.

(** ** A target that asks for a bearer token *)

Module token_auth.
Import GoString registry scenario.

Definition challenge : string :=
  "Bearer realm=" +:+ jstr "https://auth.example/token"
  +:+ ",service=" +:+ jstr "target.example"
  +:+ ",scope=" +:+ jstr "repository:mirror/nginx:push".

Definition token_url : string :=
  "https://auth.example/token?scope=repository%3Amirror%2Fnginx%3Apush"
  +:+ "&service=target.example".

Definition manifest_url : string :=
  "https://target.example/v2/mirror/nginx/manifests/1.25.0".

(** The source serves the manifest.  The target reads every request to
    its end; it answers 401 with a challenge unless the request carries
    the token, and then accepts the manifest if the body is the manifest
    and rejects anything else. *)
Definition transport (history : list Exchange) (req : Request) : RoundTrip :=
  if String.eqb (URL req) token_url then
    answer 200 [] (jobj [jfield "token" (jstr "xyz")]) req
  else if String.eqb (URL req) manifest_url then
    match Auth req with
    | Some (Bearer "xyz") =>
        if String.eqb (Body req) nginx_json
        then answer 201 [("Docker-Content-Digest", manifest_digest)] "" req
        else answer 400 [] "MANIFEST_INVALID" req
    | _ => answer 401 [("WWW-Authenticate", challenge)] "UNAUTHORIZED" req
    end
  else
    serve [("GET", "https://source.example/v2/library/nginx/manifests/1.25.0",
            (200, [("Docker-Content-Digest", manifest_digest)], nginx_json))]
          req.

Definition env : Env := quiet transport.

Definition fetched : outcome (result Manifest.t) * World :=
  GetManifest lib env source "library/nginx" "1.25.0" initial_world.

Definition pushed (m : Manifest.t) (w : World) : outcome (result string) * World :=
  PutManifest lib env target "mirror/nginx" "1.25.0" m w.

(** C1.  The manifest is fetched with its raw bytes.  Pushed to a target
    that answers the first PUT with a bearer challenge, it goes out
    with those bytes once, without authorization; the request that
    carries the token is built from the same body reader, which the
    first round trip has read to its end, and has no body.  The target
    rejects it. *)
Theorem PutManifest_resends_without_body :
  exists m w1 err w2,
    fetched = (Returned (Ok m), w1) /\
    Manifest.Raw m = nginx_json /\
    pushed m w1 = (Returned (Err err), w2) /\
    Error err = "failed to put manifest: 400 MANIFEST_INVALID" /\
    map (fun x => (Method (Sent x), Auth (Sent x), Body (Sent x)))
        (skipn 1 (wire w2))
    = [ ("PUT", None, nginx_json);
        ("GET", None, "");
        ("PUT", Some (Bearer "xyz"), "") ].
Proof.
  eexists. eexists. eexists. eexists.
  split; [vm_compute; reflexivity |]. split; [reflexivity |].
  split; [vm_compute; reflexivity |]. split; reflexivity.
Qed.

End token_auth.

(** ** An upload that goes through *)

Module upload.
Import GoString registry scenario registry_proofs.

(** The target hands out a relative upload location, then an absolute
    one, and takes the commit. *)
Definition routes : list route :=
  [ ("POST", "https://target.example/v2/mirror/nginx/blobs/uploads/?mount="
             +:+ layer_digest +:+ "&from=mirror/nginx",
     (202, [("Location", "/v2/mirror/nginx/blobs/uploads/7")], ""));
    ("PATCH", "https://target.example/v2/mirror/nginx/blobs/uploads/7",
     (202, [("Location",
             "https://target.example/v2/mirror/nginx/blobs/uploads/7x")], ""));
    ("PUT", "https://target.example/v2/mirror/nginx/blobs/uploads/7x?digest="
            +:+ escape layer_digest,
     (201, [], "")) ].

Example PutBlob_goes_through :
  exists w,
    PutBlob lib (quiet (fun _ => serve routes)) target "mirror/nginx"
            layer_digest (Some "layer bytes") 11 initial_world
    = (Returned None, w) /\
    map (fun x => (Method (Sent x), URL (Sent x), Body (Sent x), status x))
        (wire w)
    = [ ("POST", "https://target.example/v2/mirror/nginx/blobs/uploads/?mount="
                 +:+ layer_digest +:+ "&from=mirror/nginx", "", Some 202);
        ("PATCH", "https://target.example/v2/mirror/nginx/blobs/uploads/7",
         "layer bytes", Some 202);
        ("PUT", "https://target.example/v2/mirror/nginx/blobs/uploads/7x?digest="
                +:+ escape layer_digest, "", Some 201) ].
Proof. eexists. split; vm_compute; reflexivity. Qed.

End upload.

(** ** The engine on the same broken layer *)

Module engine_run.
Import GoString retry registry engine scenario.

Definition rule : SyncRule :=
  {| Name := "nginx"; Source_Repository := "library/nginx";
     Target_Repository := "mirror/nginx"; Architectures := [] |}.

Definition the_engine : Engine :=
  {| Concurrency := 3; retryConfig := DefaultRetryConfig; dryRun := false |}.

Definition broken_layer_sync : outcome (option error) * World :=
  SyncTag lib (quiet (fun _ => serve rule_run.broken_layer)) the_engine
          source target rule "1.25.0" initial_world.

(** The engine does not push the manifest of a tag when the copy of one
    of its blobs failed: [Wait] reports the error and [SyncSingleManifest]
    returns before [PutManifest]. *)
Example SyncTag_stops_before_push :
  exists err w,
    broken_layer_sync = (Returned (Some err), w) /\
    GoString.HasPrefix (Error err) "blob sync failed: " = true /\
    List.filter (fun x => String.eqb (Method (Sent x)) "PUT") (wire w) = [].
Proof.
  eexists. eexists. split; [vm_compute; reflexivity |].
  split; reflexivity.
Qed.

End engine_run.

(** ** The [running] map *)

Module running_proofs.
Import GoString models scheduler.

(** A task with an entry in [running] is refused, and neither the map
    nor the table of executions changes. *)
Lemma ExecuteTask_conflict store s taskID now created cancel :
  running s !! taskID = Some cancel ->
  ExecuteTask store s taskID now created
  = (s, Some (Errorf ("task " +:+ itoa (Z.of_N taskID)
                      +:+ " is already running"))).
Proof.
  intros Hrun. unfold ExecuteTask, already_running. now rewrite Hrun.
Qed.

(** A task that starts gets an entry and one more execution, [running]. *)
Lemma ExecuteTask_starts store s taskID now s' :
  ExecuteTask store s taskID now None = (s', None) ->
  running s !! taskID = None /\
  exists execution,
    executions s' = executions s ++ [execution] /\
    Execution.Status execution = StatusRunning /\
    running s' !! taskID = Some (Execution.ID execution).
Proof.
  unfold ExecuteTask, already_running, create_execution.
  destruct (running s !! taskID) eqn:Hrun; [intros Hd; inversion Hd |].
  destruct (GetTask store taskID) as [task | err]; [| intros Hd; inversion Hd].
  intros Hok. inversion Hok; subst. split; [reflexivity |].
  eexists. split; [reflexivity |]. split; [reflexivity |].
  cbn. apply lookup_insert_eq.
Qed.

(** [CancelTask] removes the entry and leaves every execution as it is. *)
Lemma CancelTask_forgets s taskID s' :
  CancelTask s taskID = (s', None) ->
  running s' !! taskID = None /\ executions s' = executions s.
Proof.
  unfold CancelTask. destruct (running s !! taskID) eqn:Hrun;
    [| intros Hd; inversion Hd].
  intros Hok. inversion Hok; subst. cbn. split; [| reflexivity].
  apply lookup_delete_eq.
Qed.

End running_proofs.
Module running_inv.
Import GoString models scheduler.

(** *** Calls of [ExecuteTask] and goroutines, step by step *)

(** A call in flight is past the check or past the creation of its
    execution.  A goroutine runs its task, or it has saved the final
    record and has its deferred [delete] before it. *)
Inductive call :=
| checked (taskID : N)
| created (taskID : N) (execution : Execution.t).

Inductive routine :=
| live (taskID : N) (id : N)
| saved (taskID : N) (id : N).



Record Config := {
  sched : Scheduler;
  calls : list call;
  routines : list routine
}.

Definition start : Config :=
  {| sched := NewScheduler; calls := []; routines := [] |}.

(** The moves when nobody cancels.  A call of [ExecuteTask] that finds
    the task running is refused and changes nothing; any other makes
    its three steps, and a goroutine saves its record any number of
    times with status [running], once with a final status, and then
    deletes the entry of its task.  With [overlap] false a call starts
    only when no other call is in flight. *)
Inductive step (overlap : bool) (store : Store) (c : Config)
  : Config -> Prop :=
| step_check taskID :
    overlap = true \/ calls c = [] ->
    already_running (sched c) taskID = None ->
    step overlap store c
         {| sched := sched c;
            calls := calls c ++ [checked taskID];
            routines := routines c |}
| step_create_failed before after taskID now answer s err :
    calls c = before ++ checked taskID :: after ->
    create_execution store (sched c) taskID now answer = (s, Err err) ->
    step overlap store c
         {| sched := s; calls := before ++ after; routines := routines c |}
| step_create before after taskID now answer s execution :
    calls c = before ++ checked taskID :: after ->
    create_execution store (sched c) taskID now answer = (s, Ok execution) ->
    step overlap store c
         {| sched := s;
            calls := before ++ created taskID execution :: after;
            routines := routines c |}
| step_register before after taskID execution :
    calls c = before ++ created taskID execution :: after ->
    step overlap store c
         {| sched := register (sched c) taskID execution;
            calls := before ++ after;
            routines := routines c ++ [live taskID (Execution.ID execution)] |}
| step_update before after taskID id row execution :
    routines c = before ++ live taskID id :: after ->
    In row (executions (sched c)) ->
    Execution.ID row = id ->
    Execution.ID execution = id ->
    Execution.TaskID execution = Execution.TaskID row ->
    Execution.Status execution = StatusRunning ->
    step overlap store c
         {| sched := save (sched c) execution;
            calls := calls c;
            routines := routines c |}
| step_save before after taskID id row final :
    routines c = before ++ live taskID id :: after ->
    In row (executions (sched c)) ->
    Execution.ID row = id ->
    Execution.ID final = id ->
    Execution.TaskID final = Execution.TaskID row ->
    Execution.Status final <> StatusRunning ->
    step overlap store c
         {| sched := save (sched c) final;
            calls := calls c;
            routines := before ++ saved taskID id :: after |}
| step_forget before after taskID id :
    routines c = before ++ saved taskID id :: after ->
    step overlap store c
         {| sched := forget (sched c) taskID;
            calls := calls c;
            routines := before ++ after |}.

Inductive reachable (overlap : bool) (store : Store) : Config -> Prop :=
| reachable_start : reachable overlap store start
| reachable_step c c' :
    reachable overlap store c -> step overlap store c c' ->
    reachable overlap store c'.

(** *** Calls that do not overlap *)


(** The table holds a row [id] of task [taskID]. *)
Definition key (e : Execution.t) : N * N :=
  (Execution.ID e, Execution.TaskID e).


















End running_inv.

(** ** Strings *)

Module string_facts.
Import GoString.

(** No byte of [s] satisfies [p]. *)
Fixpoint none (p : ascii -> bool) (s : string) : bool :=
  match s with
  | EmptyString => true
  | String c s' => negb (p c) && none p s'
  end.

Lemma append_nil t : "" +:+ t = t.
Proof. reflexivity. Qed.

Lemma append_cons c s t : String c s +:+ t = String c (s +:+ t).
Proof. reflexivity. Qed.

Lemma append_assoc s t u : (s +:+ t) +:+ u = s +:+ (t +:+ u).
Proof.
  induction s as [| c s IH]; rewrite ?append_nil, ?append_cons;
    [reflexivity | now rewrite IH].
Qed.

Lemma none_app p s t : none p (s +:+ t) = (none p s && none p t)%bool.
Proof.
  induction s as [| c s IH]; rewrite ?append_nil, ?append_cons; cbn [none]; [reflexivity |].
  now rewrite IH, andb_assoc.
Qed.

Lemma none_weaken (p q : ascii -> bool) s :
  (forall c, q c = true -> p c = true) -> none p s = true -> none q s = true.
Proof.
  intros Hpq. induction s as [| c s IH]; cbn [none]; [reflexivity |].
  intros Hs. apply andb_prop in Hs. destruct Hs as [Hc Hs].
  rewrite (IH Hs), andb_true_r. destruct (q c) eqn:Hq; [| reflexivity].
  now rewrite (Hpq c Hq) in Hc.
Qed.

Lemma trim_left_none p s : none p s = true -> trim_left p s = s.
Proof.
  destruct s as [| c s]; cbn [none trim_left]; [reflexivity |].
  intros Hs. apply andb_prop in Hs. destruct Hs as [Hc _].
  now destruct (p c).
Qed.

(** [trim_right] leaves alone what does not end in a byte to trim. *)
Definition settled (p : ascii -> bool) (s : string) : Prop := trim_right p s = s.

Lemma settled_cons p c s : s <> "" -> settled p s -> settled p (String c s).
Proof.
  unfold settled. intros Hne Hs. cbn [trim_right]. rewrite Hs.
  destruct s; [contradiction | reflexivity].
Qed.

Lemma settled_app p a s : s <> "" -> settled p s -> settled p (a +:+ s).
Proof.
  intros Hne Hs. induction a as [| c a IH]; rewrite ?append_nil, ?append_cons; [exact Hs |].
  apply settled_cons; [| exact IH]. destruct a; [exact Hne | discriminate].
Qed.

Lemma trim_right_settled p s : settled p (trim_right p s).
Proof.
  unfold settled. induction s as [| c s IH]; cbn [trim_right]; [reflexivity |].
  destruct (trim_right p s) as [| d t] eqn:Ht.
  - destruct (p c) eqn:Hc; [reflexivity |]. cbn [trim_right]. now rewrite Hc.
  - cbn [trim_right] in *. rewrite IH. reflexivity.
Qed.

Lemma trim_right_none p s : none p s = true -> trim_right p s = s.
Proof.
  induction s as [| c s IH]; cbn [none trim_right]; [reflexivity |].
  intros Hs. apply andb_prop in Hs. destruct Hs as [Hc Hs].
  rewrite (IH Hs). destruct s; [| reflexivity].
  now destruct (p c).
Qed.

(** A run of bytes to trim at the end goes away. *)
Lemma trim_right_last p s c :
  none p s = true -> p c = true -> trim_right p (s +:+ String c "") = s.
Proof.
  intros Hs Hc. induction s as [| d s IH]; rewrite ?append_nil, ?append_cons in *; cbn [trim_right none] in *.
  - now rewrite Hc.
  - apply andb_prop in Hs. destruct Hs as [Hd Hs]. rewrite (IH Hs).
    destruct s; [| reflexivity]. now destruct (p d).
Qed.

Lemma Split_none sep s :
  none (Ascii.eqb sep) s = true -> Split s sep = [s].
Proof.
  induction s as [| c s IH]; cbn [none Split]; [reflexivity |].
  intros Hs. apply andb_prop in Hs. destruct Hs as [Hc Hs].
  rewrite Ascii.eqb_sym. destruct (Ascii.eqb sep c); [discriminate |].
  now rewrite (IH Hs).
Qed.

Lemma Split_cons sep s rest :
  none (Ascii.eqb sep) s = true ->
  Split (s +:+ String sep rest) sep = s :: Split rest sep.
Proof.
  induction s as [| c s IH]; rewrite ?append_nil, ?append_cons; cbn [none Split].
  - intros _. now rewrite Ascii.eqb_refl.
  - intros Hs. apply andb_prop in Hs. destruct Hs as [Hc Hs].
    rewrite Ascii.eqb_sym. destruct (Ascii.eqb sep c); [discriminate |].
    now rewrite (IH Hs).
Qed.

Lemma SplitN2_none sep s :
  none (Ascii.eqb sep) s = true -> SplitN2 s sep = None.
Proof.
  induction s as [| c s IH]; cbn [none SplitN2]; [reflexivity |].
  intros Hs. apply andb_prop in Hs. destruct Hs as [Hc Hs].
  rewrite Ascii.eqb_sym. destruct (Ascii.eqb sep c); [discriminate |].
  now rewrite (IH Hs).
Qed.

Lemma SplitN2_cons sep s rest :
  none (Ascii.eqb sep) s = true ->
  SplitN2 (s +:+ String sep rest) sep = Some (s, rest).
Proof.
  induction s as [| c s IH]; rewrite ?append_nil, ?append_cons; cbn [none SplitN2].
  - intros _. now rewrite Ascii.eqb_refl.
  - intros Hs. apply andb_prop in Hs. destruct Hs as [Hc Hs].
    rewrite Ascii.eqb_sym. destruct (Ascii.eqb sep c); [discriminate |].
    now rewrite (IH Hs).
Qed.

Lemma substring_all s : String.substring 0 (String.length s) s = s.
Proof. induction s as [| c s IH]; cbn; [reflexivity | now rewrite IH]. Qed.

Lemma prefix_app p s : String.prefix p (p +:+ s) = true.
Proof.
  induction p as [| c p IH]; rewrite ?append_nil, ?append_cons; cbn [String.prefix];
    [now destruct s |].
  destruct (ascii_dec c c); [exact IH | contradiction].
Qed.

Lemma substring_app p s :
  String.substring (String.length p) (String.length s) (p +:+ s) = s.
Proof.
  induction p as [| c p IH]; rewrite ?append_nil, ?append_cons;
    cbn [String.length String.substring]; [apply substring_all | exact IH].
Qed.

Lemma length_append p s :
  String.length (p +:+ s) = (String.length p + String.length s)%nat.
Proof.
  induction p as [| c p IH]; rewrite ?append_nil, ?append_cons;
    cbn [String.length Nat.add]; [reflexivity | now rewrite IH].
Qed.

Lemma TrimPrefix_app p s : TrimPrefix (p +:+ s) p = s.
Proof.
  unfold TrimPrefix. rewrite prefix_app, length_append.
  replace (String.length p + String.length s - String.length p)%nat
    with (String.length s) by lia.
  apply substring_app.
Qed.

Lemma HasPrefix_app p s : HasPrefix (p +:+ s) p = true.
Proof. apply prefix_app. Qed.

End string_facts.

(** ** pkg/registry/manifest.go: the architecture filter *)

Module manifest_proofs.
Import GoString registry.

(** The set built by the first loop of [FilterManifestsByArch]. *)
Lemma archMap_lookup (architectures : list string) (a : string) :
  forall init : gmap string bool,
    fold_left (fun (m : gmap string bool) arch => <[arch := true]> m)
              architectures init !! a
    = if existsb (String.eqb a) architectures then Some true else init !! a.
Proof.
  induction architectures as [| arch rest IH]; intros init; cbn [fold_left existsb].
  - reflexivity.
  - rewrite IH. destruct (existsb (String.eqb a) rest) eqn:Hrest.
    + now rewrite orb_true_r.
    + rewrite orb_false_r. destruct (String.eqb_spec a arch) as [-> | Hne].
      * apply lookup_insert_eq.
      * now apply lookup_insert_ne.
Qed.

(** X1.  Without architectures every entry is kept; otherwise the entries
    whose architecture is one of those asked for are kept, in the order
    of the manifest list, other fields of the platform (OS, variant)
    playing no part. *)
Theorem FilterManifestsByArch_membership
        (manifests : list ManifestEntry.t) (architectures : list string) :
  FilterManifestsByArch manifests architectures =
  match architectures with
  | [] => manifests
  | _ :: _ =>
      List.filter
        (fun m => existsb (String.eqb (Platform.Architecture
                                          (ManifestEntry.Platform m)))
                          architectures)
        manifests
  end.
Proof.
  unfold FilterManifestsByArch. destruct architectures as [| a rest].
  - reflexivity.
  - cbn [length]. rewrite Nat2Z.inj_succ.
    destruct (Z.eqb_spec (Z.succ (Z.of_nat (length rest))) 0) as [H0 | _]; [lia |].
    apply filter_ext. intros m. rewrite archMap_lookup.
    now destruct (existsb _ (a :: rest)).
Qed.

End manifest_proofs.

(** ** pkg/filter: building a filter *)

Module filter_build.
Import regexp filter.

Definition compiles (lib : Lib) (pattern : string) (re : Regexp) : Prop :=
  regexp_Compile lib pattern = Ok re.

Lemma compile_all_spec lib patterns :
  match compile_all lib patterns with
  | Ok res => Forall2 (compiles lib) patterns res
  | Err err =>
      exists before pattern rest res,
        patterns = before ++ pattern :: rest /\
        Forall2 (compiles lib) before res /\
        regexp_Compile lib pattern = Err err
  end.
Proof.
  induction patterns as [| pattern patterns IH]; cbn [compile_all].
  - constructor.
  - destruct (regexp_Compile lib pattern) as [re | err] eqn:Hre.
    + destruct (compile_all lib patterns) as [res | err].
      * now constructor.
      * destruct IH as (before & p & rest & res & -> & Hbefore & Herr).
        exists (pattern :: before), p, rest, (re :: res).
        split; [reflexivity |]. split; [now constructor | exact Herr].
    + exists [], pattern, patterns, []. split; [reflexivity |].
      split; [constructor | exact Hre].
Qed.

(** X2.  [NewFilter] returns a filter exactly when every pattern compiles:
    the filter then holds the compiled patterns in the order given and
    the limit as it came, negative or not.  Otherwise it returns the
    error of [regexp.Compile], unwrapped, for the first pattern that
    does not compile, the include patterns being tried before the
    exclude patterns. *)
Theorem NewFilter_first_bad_pattern lib (include exclude : list string)
        (latest : Z) :
  match NewFilter lib include exclude latest with
  | Ok f =>
      Forall2 (compiles lib) include (Include f) /\
      Forall2 (compiles lib) exclude (Exclude f) /\
      Latest f = latest
  | Err err =>
      exists before pattern rest res,
        include ++ exclude = before ++ pattern :: rest /\
        Forall2 (compiles lib) before res /\
        regexp_Compile lib pattern = Err err
  end.
Proof.
  unfold NewFilter.
  pose proof (compile_all_spec lib include) as Hinc.
  destruct (compile_all lib include) as [inc | err].
  - pose proof (compile_all_spec lib exclude) as Hexc.
    destruct (compile_all lib exclude) as [exc | err].
    + now repeat split.
    + destruct Hexc as (before & p & rest & res & -> & Hbefore & Herr).
      exists (include ++ before), p, rest, (inc ++ res).
      split; [now rewrite app_assoc |].
      split; [now apply Forall2_app | exact Herr].
  - destruct Hinc as (before & p & rest & res & -> & Hbefore & Herr).
    exists before, p, (rest ++ exclude), res.
    split; [now rewrite <- app_assoc |]. now split.
Qed.

End filter_build.

(** ** Tags stamped with the time of their listing *)

Module listing_order.
Import regexp filter scheduler.

(** A list ordered by decreasing key has one arrangement only. *)
Lemma sorted_unique {A} (key : A -> Z) (s l : list A) :
  StronglySorted (fun a b => key b <= key a) s ->
  StronglySorted (fun a b => key b < key a) l ->
  Permutation s l -> s = l.
Proof.
  intros Hs. revert l. induction Hs as [| a s Hs IH Ha]; intros l Hl Hperm.
  - apply Permutation_nil in Hperm. now subst.
  - destruct l as [| b l]; [apply Permutation_sym, Permutation_nil in Hperm; discriminate |].
    inversion Hl as [| ? ? Hl' Hb]; subst.
    assert (Hab : a = b).
    { assert (Hina : In a (b :: l)) by (eapply Permutation_in; [exact Hperm | now left]).
      assert (Hinb : In b (a :: s))
        by (eapply Permutation_in; [symmetry; exact Hperm | now left]).
      destruct Hina as [-> | Hina]; [reflexivity |].
      destruct Hinb as [-> | Hinb]; [reflexivity |].
      rewrite List.Forall_forall in Ha, Hb.
      pose proof (Ha b Hinb). pose proof (Hb a Hina). lia. }
    subst b. f_equal. apply IH; [exact Hl' |].
    eapply Permutation_cons_inv. exact Hperm.
Qed.

Definition increasing (tags : list TagInfo) : Prop :=
  StronglySorted (fun a b => Updated a < Updated b) tags.

Lemma increasing_filter p tags : increasing tags -> increasing (List.filter p tags).
Proof.
  induction 1 as [| a l Hl IH Ha]; cbn [List.filter].
  - constructor.
  - destruct (p a); [| exact IH]. constructor; [exact IH |].
    rewrite List.Forall_forall in *. intros x Hx.
    apply filter_In in Hx. now apply Ha.
Qed.

Lemma sorted_snoc {A} (R : A -> A -> Prop) (l : list A) (a : A) :
  StronglySorted R l -> Forall (fun x => R x a) l ->
  StronglySorted R (l ++ [a]).
Proof.
  induction 1 as [| b l Hl IH Hb]; intros Ha; cbn [app].
  - repeat constructor.
  - inversion Ha; subst. constructor; [now apply IH |].
    apply Forall_app. split; [exact Hb | now repeat constructor].
Qed.

Lemma increasing_rev tags :
  increasing tags ->
  StronglySorted (fun a b => Updated b < Updated a) (rev tags).
Proof.
  induction 1 as [| a l Hl IH Ha]; cbn [rev].
  - constructor.
  - apply sorted_snoc; [exact IH |].
    rewrite List.Forall_forall in *. intros x Hx. apply Ha. now apply in_rev.
Qed.

(** When the update times grow along the list, [FilterTags] returns the
    names the filter matches from the last to the first, and a positive
    limit keeps the last ones. *)
Lemma FilterTags_increasing `{SliceSorter} (f : Filter) (tags : list TagInfo) :
  increasing tags ->
  FilterTags f tags =
  let matched := rev (map Name (List.filter (fun t => Match f (Name t)) tags)) in
  if Latest f >? 0 then firstn (Z.to_nat (Latest f)) matched else matched.
Proof.
  intros Hinc. unfold FilterTags.
  set (matched := List.filter (fun tag => Match f (Name tag)) tags).
  assert (Hsorted : sort_Slice (fun a b => After (Updated a) (Updated b)) matched
                    = rev matched).
  { apply (sorted_unique Updated).
    - exact (sort_Slice_sorted TagInfo Updated matched).
    - apply increasing_rev. now apply increasing_filter.
    - rewrite sort_Slice_perm. apply Permutation_rev. }
  rewrite Hsorted, filter_proofs.latest_limit. cbv zeta.
  rewrite <- map_rev.
  destruct (Latest f >? 0); [now rewrite firstn_map | reflexivity].
Qed.

Section Clock.
Context `{SliceSorter} (env : Env).

Lemma tag_infos_spec (tags : list string) (w : World) :
  exists infos w',
    tag_infos env tags w = (Returned infos, w') /\
    map Name infos = tags /\
    map Updated infos = map (time_Now env) (seq (ticks w) (length tags)) /\
    ticks w' = (ticks w + length tags)%nat.
Proof.
  revert w. induction tags as [| tag tags IH]; intros w; cbn [tag_infos].
  - exists [], w. cbn. repeat split. lia.
  - unfold bind at 1. unfold Now at 1.
    destruct (IH (add_tick w)) as (infos & w' & E & Hn & Hu & Ht).
    unfold bind at 1. rewrite E. cbn [ret].
    eexists _, w'. split; [reflexivity |]. cbn [map length seq].
    rewrite Hn, Hu, Ht. cbn [add_tick ticks]. repeat split. lia.
Qed.

Lemma clock_sorted (a n : nat) :
  (forall i j, (i < j)%nat -> time_Now env i < time_Now env j) ->
  StronglySorted Z.lt (map (time_Now env) (seq a n)).
Proof.
  intros Hclock. revert a. induction n as [| n IH]; intros a; cbn [seq map].
  - constructor.
  - constructor; [apply IH |].
    rewrite List.Forall_forall. intros x Hx. apply in_map_iff in Hx.
    destruct Hx as [i [<- Hi]]. apply in_seq in Hi. apply Hclock. lia.
Qed.

Lemma sorted_map_inv {A} (key : A -> Z) (l : list A) :
  StronglySorted Z.lt (map key l) ->
  StronglySorted (fun a b => key a < key b) l.
Proof.
  induction l as [| a l IH]; cbn [map]; intros Hs.
  - constructor.
  - inversion Hs as [| ? ? Hl Ha]; subst. constructor; [now apply IH |].
    rewrite List.Forall_forall in *. intros x Hx. apply Ha.
    now apply in_map.
Qed.

Lemma filter_names (p : string -> bool) (infos : list TagInfo) :
  map Name (List.filter (fun t => p (Name t)) infos)
  = List.filter p (map Name infos).
Proof.
  induction infos as [| t infos IH]; cbn [List.filter map]; [reflexivity |].
  destruct (p (Name t)); cbn [map]; now rewrite IH.
Qed.

(** X3.  The scheduler stamps each tag with the time at which it builds the
    list, not with the time of the image.  On a clock that moves between
    two readings the filter therefore returns the matching tags in the
    reverse of the order in which the registry listed them, and a limit
    of [n] keeps the [n] tags the registry listed last. *)
Theorem latest_keeps_the_tags_listed_last (f : Filter) (tags : list string)
        (w : World) :
  (forall i j, (i < j)%nat -> time_Now env i < time_Now env j) ->
  exists infos w',
    tag_infos env tags w = (Returned infos, w') /\
    FilterTags f infos =
    (let matched := rev (List.filter (Match f) tags) in
     if Latest f >? 0 then firstn (Z.to_nat (Latest f)) matched else matched).
Proof.
  intros Hclock.
  destruct (tag_infos_spec tags w) as (infos & w' & E & Hn & Hu & _).
  exists infos, w'. split; [exact E |].
  rewrite FilterTags_increasing.
  - cbv zeta. now rewrite filter_names, Hn.
  - apply sorted_map_inv. rewrite Hu. now apply clock_sorted.
Qed.

End Clock.

(** Five tags listed by a registry, the filter keeping the release tags
    and at most two of them. *)
Lemma latest_keeps_the_tags_listed_last_witness :
  (forall i j, (i < j)%nat ->
               time_Now (scenario.quiet (fun _ => scenario.serve [])) i
               < time_Now (scenario.quiet (fun _ => scenario.serve [])) j) /\
  exists infos w',
    tag_infos (scenario.quiet (fun _ => scenario.serve []))
              ["v1"; "v2"; "latest"; "v3"; "v4"] initial_world
    = (Returned infos, w') /\
    FilterTags {| Include := [fun s => String.prefix "v" s];
                  Exclude := []; Latest := 2 |} infos
    = ["v4"; "v3"].
Proof.
  assert (Hclock : forall i j, (i < j)%nat ->
            time_Now (scenario.quiet (fun _ => scenario.serve [])) i
            < time_Now (scenario.quiet (fun _ => scenario.serve [])) j)
    by (intros i j Hij; cbn; lia).
  split; [exact Hclock |].
  exact (latest_keeps_the_tags_listed_last
           (scenario.quiet (fun _ => scenario.serve []))
           {| Include := [fun s => String.prefix "v" s];
              Exclude := []; Latest := 2 |}
           ["v1"; "v2"; "latest"; "v3"; "v4"] initial_world Hclock).
Defined.

End listing_order.

(** ** pkg/registry/client.go: the [WWW-Authenticate] header *)

Module auth_header.
Import GoString registry string_facts.

Definition quote : string := String (ascii_of_nat 34) EmptyString.

(** White space, or a byte that is not ASCII. *)
Definition blank (c : ascii) : bool :=
  (is_space c || negb (nat_of_ascii c <? 128)%nat)%bool.

(** A string is plain when its bytes are ASCII and none of them is the
    comma, the equals sign, the double quote or white space. *)
Definition special (c : ascii) : bool :=
  (Ascii.eqb ","%char c || Ascii.eqb "="%char c
   || (nat_of_ascii c =? 34)%nat || blank c)%bool.

Definition plain (s : string) : bool := none special s.

(** One parameter of a challenge, and a challenge. *)
Definition parameter (kv : string * string) : string :=
  fst kv +:+ "=" +:+ quote +:+ snd kv +:+ quote.

Definition challenge (params : list (string * string)) : string :=
  "Bearer " +:+ String.concat "," (map parameter params).

Section Parse.
Variable text : Text.

(** The step of the loop of [parseAuthHeader]. *)
Definition step (params : gmap string string) (part : string)
  : gmap string string :=
  let part := TrimSpace text part in
  match SplitN2 part "="%char with
  | Some (k, v) =>
      <[TrimSpace text k := Trim_quote (TrimSpace text v)]> params
  | None => params
  end.

Lemma parseAuthHeader_fold header :
  parseAuthHeader text header
  = fold_left step (Split (TrimPrefix header "Bearer ") ","%char) ∅.
Proof. reflexivity. Qed.

Lemma plain_none (p : ascii -> bool) s :
  (forall c, p c = true -> special c = true) ->
  plain s = true -> none p s = true.
Proof. intros Hp. now apply none_weaken. Qed.

Lemma plain_comma s : plain s = true -> none (Ascii.eqb ","%char) s = true.
Proof.
  apply plain_none. intros c Hc. unfold special. now rewrite Hc.
Qed.

Lemma plain_equals s : plain s = true -> none (Ascii.eqb "="%char) s = true.
Proof.
  apply plain_none. intros c Hc. unfold special. rewrite Hc.
  now rewrite orb_true_r.
Qed.

Lemma plain_quote s :
  plain s = true -> none (fun c => (nat_of_ascii c =? 34)%nat) s = true.
Proof.
  apply plain_none. intros c Hc. unfold special. rewrite Hc.
  now rewrite !orb_true_r.
Qed.

Lemma plain_space s : plain s = true -> none blank s = true.
Proof.
  apply plain_none. intros c Hc. unfold special. rewrite Hc.
  now rewrite !orb_true_r.
Qed.

Lemma none_blank_ASCII s : none blank s = true -> isASCII s = true.
Proof.
  induction s as [| c s IH]; cbn [none isASCII]; [reflexivity |].
  intros Hs. apply andb_prop in Hs. destruct Hs as [Hc Hs].
  rewrite (IH Hs), andb_true_r. unfold blank in Hc.
  apply negb_true_iff, orb_false_elim in Hc. destruct Hc as [_ Hc].
  now apply negb_false_iff in Hc.
Qed.

(** Nothing is trimmed off an ASCII string without white space, and
    the Unicode tables are not asked. *)
Lemma TrimSpace_none s : none blank s = true -> TrimSpace text s = s.
Proof.
  intros Hs. unfold TrimSpace. rewrite (none_blank_ASCII s Hs).
  assert (Hsp : none is_space s = true).
  { revert Hs. apply none_weaken. intros c Hc. unfold blank. now rewrite Hc. }
  rewrite (trim_left_none _ _ Hsp). now apply trim_right_none.
Qed.

Lemma Trim_quote_quoted v : plain v = true -> Trim_quote (quote +:+ v +:+ quote) = v.
Proof.
  intros Hv. apply plain_quote in Hv. unfold Trim_quote, quote.
  rewrite append_cons, append_nil. cbn [trim_left].
  change (nat_of_ascii (ascii_of_nat 34) =? 34)%nat with true. cbv iota.
  destruct v as [| c v].
  - reflexivity.
  - rewrite append_cons. cbn [trim_left]. cbn [none] in Hv.
    pose proof Hv as Hc. apply andb_prop in Hc. destruct Hc as [Hc _].
    apply negb_true_iff in Hc. rewrite Hc. rewrite <- append_cons.
    apply trim_right_last; [| reflexivity]. cbn [none]. exact Hv.
Qed.

Lemma Trim_quote_open v : plain v = true -> Trim_quote (quote +:+ v) = v.
Proof.
  intros Hv. apply plain_quote in Hv. unfold Trim_quote, quote.
  rewrite append_cons, append_nil. cbn [trim_left].
  change (nat_of_ascii (ascii_of_nat 34) =? 34)%nat with true. cbv iota.
  rewrite (trim_left_none _ _ Hv). now apply trim_right_none.
Qed.

Lemma parameter_space kv :
  plain (fst kv) = true -> plain (snd kv) = true ->
  none blank (parameter kv) = true.
Proof.
  intros Hk Hv. unfold parameter, quote. rewrite !none_app.
  rewrite (plain_space _ Hk), (plain_space _ Hv). reflexivity.
Qed.

Lemma parameter_comma kv :
  plain (fst kv) = true -> plain (snd kv) = true ->
  none (Ascii.eqb ","%char) (parameter kv) = true.
Proof.
  intros Hk Hv. unfold parameter, quote. rewrite !none_app.
  rewrite (plain_comma _ Hk), (plain_comma _ Hv). reflexivity.
Qed.

Lemma step_parameter params kv :
  plain (fst kv) = true -> plain (snd kv) = true ->
  step params (parameter kv) = <[fst kv := snd kv]> params.
Proof.
  intros Hk Hv. unfold step.
  rewrite (TrimSpace_none _ (parameter_space kv Hk Hv)).
  unfold parameter.
  change (fst kv +:+ "=" +:+ quote +:+ snd kv +:+ quote)
    with (fst kv +:+ String "="%char (quote +:+ snd kv +:+ quote)).
  rewrite (SplitN2_cons _ _ _ (plain_equals _ Hk)).
  rewrite (TrimSpace_none _ (plain_space _ Hk)).
  rewrite (TrimSpace_none (quote +:+ snd kv +:+ quote)).
  - now rewrite Trim_quote_quoted.
  - unfold quote. rewrite !none_app, (plain_space _ Hv). reflexivity.
Qed.

Definition well_formed (params : list (string * string)) : Prop :=
  Forall (fun kv => plain (fst kv) = true /\ plain (snd kv) = true) params.

Lemma fold_parameters params :
  well_formed params ->
  forall init,
    fold_left step (Split (String.concat "," (map parameter params)) ","%char)
              init
    = match params with
      | [] => init
      | _ => fold_left (fun m kv => <[fst kv := snd kv]> m) params init
      end.
Proof.
  induction 1 as [| kv params [Hk Hv] Hrest IH]; intros init.
  - reflexivity.
  - destruct params as [| kv' params].
    + cbn [map String.concat]. rewrite (Split_none _ _ (parameter_comma kv Hk Hv)).
      cbn [fold_left]. now rewrite step_parameter.
    + change (String.concat "," (map parameter (kv :: kv' :: params)))
        with (parameter kv +:+ String ","%char
                (String.concat "," (map parameter (kv' :: params)))).
      rewrite (Split_cons _ _ _ (parameter_comma kv Hk Hv)).
      cbn [fold_left]. rewrite step_parameter by assumption.
      now rewrite IH.
Qed.

(** X4.  [parseAuthHeader] reads back a challenge whose keys and values
    are ASCII text without comma, equals sign, double quote or white
    space: every parameter comes out under its key with its value,
    quotes removed, and of two parameters with the same key the later
    one wins. *)
Theorem parseAuthHeader_challenge (params : list (string * string)) :
  well_formed params ->
  parseAuthHeader text (challenge params) = list_to_map (rev params).
Proof.
  intros Hwf. rewrite parseAuthHeader_fold. unfold challenge.
  rewrite TrimPrefix_app, (fold_parameters params Hwf).
  unfold list_to_map. rewrite fold_left_rev_right.
  destruct params; reflexivity.
Qed.

End Parse.

(** The challenge of a registry that asks for a token to push. *)
Definition push_challenge : list (string * string) :=
  [ ("realm", "https://auth.example/token");
    ("service", "target.example");
    ("scope", "repository:mirror/nginx:push") ].

Lemma parseAuthHeader_challenge_witness :
  well_formed push_challenge /\
  parseAuthHeader plain_ascii (challenge push_challenge)
  = list_to_map (rev push_challenge).
Proof.
  assert (Hwf : well_formed push_challenge)
    by (repeat constructor).
  split; [exact Hwf |].
  exact (parseAuthHeader_challenge plain_ascii push_challenge Hwf).
Defined.

(** X5.  A quoted value is cut at its first comma: the header is split at
    every comma before the quotes are looked at, and what follows the
    comma, having no equals sign, is dropped.  A scope of several
    actions, as in [repository:name:pull,push], loses all but the
    first.  (Key and value parts are ASCII text without comma, equals
    sign, double quote or white space.) *)
Theorem parseAuthHeader_cuts_value_at_comma (text : Text) (k v1 v2 : string) :
  plain k = true -> plain v1 = true -> plain v2 = true ->
  parseAuthHeader text
    ("Bearer " +:+ k +:+ "=" +:+ quote +:+ v1 +:+ "," +:+ v2 +:+ quote)
  = {[ k := v1 ]}.
Proof.
  intros Hk H1 H2. rewrite parseAuthHeader_fold, TrimPrefix_app.
  assert (Hsplit : k +:+ "=" +:+ quote +:+ v1 +:+ "," +:+ v2 +:+ quote
                   = (k +:+ "=" +:+ quote +:+ v1)
                     +:+ String ","%char (v2 +:+ quote)).
  { rewrite !append_assoc. reflexivity. }
  rewrite Hsplit. clear Hsplit.
  rewrite Split_cons
    by (unfold quote; rewrite !none_app, (plain_comma _ Hk), (plain_comma _ H1);
        reflexivity).
  rewrite Split_none
    by (unfold quote; rewrite none_app, (plain_comma _ H2); reflexivity).
  cbn [fold_left]. unfold step at 2.
  rewrite !TrimSpace_none
    by (unfold quote; rewrite !none_app, (plain_space _ Hk), (plain_space _ H1);
        reflexivity).
  change (k +:+ "=" +:+ quote +:+ v1) with (k +:+ String "="%char (quote +:+ v1)).
  rewrite (SplitN2_cons _ _ _ (plain_equals _ Hk)).
  rewrite (TrimSpace_none text _ (plain_space _ Hk)).
  rewrite TrimSpace_none
    by (unfold quote; rewrite none_app, (plain_space _ H1); reflexivity).
  rewrite (Trim_quote_open _ H1).
  unfold step.
  rewrite TrimSpace_none
    by (unfold quote; rewrite none_app, (plain_space _ H2); reflexivity).
  rewrite SplitN2_none
    by (unfold quote; rewrite none_app, (plain_equals _ H2); reflexivity).
  reflexivity.
Qed.

Lemma parseAuthHeader_cuts_value_at_comma_witness :
  param (parseAuthHeader plain_ascii
           ("Bearer " +:+ "scope" +:+ "=" +:+ quote
            +:+ "repository:mirror/nginx:pull" +:+ "," +:+ "push" +:+ quote))
        "scope"
  = "repository:mirror/nginx:pull".
Proof.
  rewrite (parseAuthHeader_cuts_value_at_comma plain_ascii
             "scope" "repository:mirror/nginx:pull" "push"
             eq_refl eq_refl eq_refl).
  unfold param. now rewrite lookup_singleton_eq.
Defined.

End auth_header.

(** ** pkg/config: registry URLs *)

Module url_proofs.
Import GoString registry string_facts.

Definition slash (c : ascii) : bool := Ascii.eqb c "/".

Lemma TrimRight_slash_settled s : TrimRight_slash (TrimRight_slash s) = TrimRight_slash s.
Proof. apply (trim_right_settled slash). Qed.

(** X6.  Whatever it is given, [NormalizeRegistryURL] returns a URL with a
    scheme.  Unless the URL is empty or made of slashes only, the result
    has no slash at its end, so it is left as it is by a second
    normalisation and by [NewClient], which takes it as the base URL of
    the client. *)
Theorem NormalizeRegistryURL_normal (url : string) :
  (HasPrefix (config.NormalizeRegistryURL url) "http://" = true \/
   HasPrefix (config.NormalizeRegistryURL url) "https://" = true) /\
  (TrimRight_slash url <> "" ->
   config.NormalizeRegistryURL (config.NormalizeRegistryURL url)
   = config.NormalizeRegistryURL url /\
   forall username password insecure qps,
     BaseURL (NewClient (config.NormalizeRegistryURL url)
                        username password insecure qps)
     = config.NormalizeRegistryURL url).
Proof.
  unfold config.NormalizeRegistryURL.
  set (trimmed := TrimRight_slash url).
  destruct (HasPrefix trimmed "http://") eqn:Hhttp; cbn [negb andb].
  - split; [now left |]. intros _.
    unfold trimmed. rewrite TrimRight_slash_settled. fold trimmed.
    rewrite Hhttp. cbn [negb andb]. split; [reflexivity |].
    intros. cbn [NewClient BaseURL]. unfold trimmed.
    apply TrimRight_slash_settled.
  - destruct (HasPrefix trimmed "https://") eqn:Hhttps; cbn [negb].
    + split; [now right |]. intros _.
      unfold trimmed. rewrite TrimRight_slash_settled. fold trimmed.
      rewrite Hhttp, Hhttps. cbn [negb andb]. split; [reflexivity |].
      intros. cbn [NewClient BaseURL]. unfold trimmed.
      apply TrimRight_slash_settled.
    + split; [right; apply (HasPrefix_app "https://") |]. intros Hne.
      assert (Hsettled : TrimRight_slash ("https://" +:+ trimmed)
                         = "https://" +:+ trimmed).
      { apply (settled_app slash); [exact Hne |].
        apply (trim_right_settled slash). }
      rewrite Hsettled.
      replace (HasPrefix ("https://" +:+ trimmed) "https://") with true
        by (symmetry; apply (HasPrefix_app "https://")).
      rewrite andb_false_r. split; [reflexivity |].
      intros. cbn [NewClient BaseURL]. exact Hsettled.
Qed.

Lemma NormalizeRegistryURL_normal_witness :
  TrimRight_slash "registry.example//" <> "" /\
  config.NormalizeRegistryURL (config.NormalizeRegistryURL "registry.example//")
  = "https://registry.example" /\
  BaseURL (NewClient (config.NormalizeRegistryURL "registry.example//")
                     "admin" "secret" false 10)
  = "https://registry.example".
Proof.
  assert (Hne : TrimRight_slash "registry.example//" <> "") by discriminate.
  split; [exact Hne |].
  destruct (NormalizeRegistryURL_normal "registry.example//") as [_ Hfix].
  destruct (Hfix Hne) as [Hidem Hbase].
  split; [exact Hidem | exact (Hbase "admin" "secret" false 10)].
Defined.

(** The empty URL, and a URL made of slashes, are the exception: the
    scheme is put in front of nothing, and the client's base URL loses
    its two slashes. *)
Example NormalizeRegistryURL_of_nothing :
  config.NormalizeRegistryURL "" = "https://" /\
  config.NormalizeRegistryURL "///" = "https://" /\
  config.NormalizeRegistryURL (config.NormalizeRegistryURL "")
  = "https://https:" /\
  BaseURL (NewClient (config.NormalizeRegistryURL "") "" "" false 0) = "https:".
Proof. repeat split. Qed.

End url_proofs.

(** ** pkg/sync/retry.go: how a run of [RetryWithBackoff] can end *)

Module retry_runs.
Import GoString retry retry_proofs.

(** The trace after [n] invocations: invocation [i + 1] came after [i]
    waits, and the waits are the delays in their order. *)
Definition after_calls (config : RetryConfig) (n : nat) : Trace :=
  {| calls := seq 0 n; waits := map (delay config) (seq 0 (n - 1)) |}.

Lemma seq_snoc0 (j : nat) : seq 0 j ++ [j] = seq 0 (S j).
Proof. now rewrite (seq_snoc 0 j). Qed.

Section Runs.
Variable text : Text.

Lemma retry_loop_bounded config results cancel (m : nat) :
  forall (j : nat) lastErr,
    Z.of_nat (j + m) = MaxAttempts config ->
    (0 < m)%nat ->
    exists r n,
      retry_loop text (timer cancel) config (scripted results)
                 m (Z.of_nat j + 1) (delay config j) lastErr
                 {| calls := seq 0 j; waits := map (delay config) (seq 0 j) |}
      = (Returned r, after_calls config n) /\
      (j < n <= j + m)%nat /\
      (r = None <-> results (n - 1)%nat = None).
Proof.
  induction m as [| m IH]; intros j lastErr Hmax Hpos; [lia |].
  rewrite retry_loop_S. unfold bind at 1. unfold scripted at 1.
  cbn [calls waits]. rewrite length_seq, length_map, length_seq.
  rewrite seq_snoc0.
  assert (Hhere : after_calls config (S j)
                  = {| calls := seq 0 (S j);
                       waits := map (delay config) (seq 0 j) |}).
  { unfold after_calls. now replace (S j - 1)%nat with j by lia. }
  rewrite <- Hhere.
  assert (Hj : (S j - 1)%nat = j) by lia.
  destruct (results j) as [e |] eqn:Hres.
  2:{ exists None, (S j). rewrite Hj, Hres. split; [reflexivity |].
      split; [lia | tauto]. }
  assert (Hsome : forall e' : error,
             (Some e' = None :> option error) <-> (Some e = None :> option error))
    by (intros e'; split; discriminate).
  destruct (isRetryableError text (Some e)); cbn [negb].
  2:{ eexists (Some _), (S j). rewrite Hj, Hres. split; [reflexivity |].
      split; [lia | apply Hsome]. }
  destruct (Z.geb_spec (Z.of_nat j + 1) (MaxAttempts config)) as [Hge | Hlt].
  { eexists (Some _), (S j). rewrite Hj, Hres. split; [reflexivity |].
    split; [lia | apply Hsome]. }
  unfold bind at 1. unfold timer at 1. rewrite Hhere. cbn [calls waits].
  rewrite length_map, length_seq.
  destruct (cancel j) as [ctxErr |].
  { exists (Some ctxErr), (S j). rewrite Hj, Hres, Hhere.
    split; [reflexivity |]. split; [lia | apply Hsome]. }
  replace (map (delay config) (seq 0 j) ++ [delay config j])
    with (map (delay config) (seq 0 (S j)))
    by (rewrite (seq_snoc 0 j), map_app; reflexivity).
  replace (Z.of_nat j + 1 + 1) with (Z.of_nat (S j) + 1) by lia.
  change (next_backoff config (delay config j)) with (delay config (S j)).
  destruct (IH (S j) (Some e)) as (r & n & E & Hn & Hr); [lia | lia |].
  exists r, n. split; [exact E |]. split; [lia | exact Hr].
Qed.

(** X7.  [RetryWithBackoff] always returns, after at most [MaxAttempts]
    invocations and one wait between two of them; it returns nil exactly
    when its last invocation did; and when [MaxAttempts] is zero or
    negative it invokes nothing and returns an error that wraps
    nothing. *)
Theorem RetryWithBackoff_attempts_bounded config results cancel :
  exists r n,
    observe text config results cancel = (Returned r, after_calls config n) /\
    (n <= Z.to_nat (MaxAttempts config))%nat /\
    (r = None <-> (0 < n)%nat /\ results (n - 1)%nat = None) /\
    (MaxAttempts config <= 0 ->
     n = 0%nat /\
     r = Some (Errorf (("max retries (" +:+ itoa (MaxAttempts config)
                        +:+ ") exceeded: ") +:+ "%!w(<nil>)"))).
Proof.
  destruct (Z.to_nat (MaxAttempts config)) as [| m] eqn:Hm.
  - eexists (Some _), 0%nat. unfold observe, RetryWithBackoff. rewrite Hm.
    split; [reflexivity |]. split; [lia |].
    split; [split; [discriminate | intros [H0 _]; lia] |].
    intros _. split; reflexivity.
  - destruct (retry_loop_bounded config results cancel (S m) 0 None)
      as (r & n & E & Hn & Hr); [lia | lia |].
    exists r, n. unfold observe, RetryWithBackoff. rewrite Hm.
    split; [exact E |]. split; [lia |].
    split; [rewrite Hr; split; [intros Hres; split; [lia | exact Hres] | tauto] |].
    intros Hle. lia.
Qed.

(** X8.  Every attempt fails with an error that is retryable: the operation
    is invoked [MaxAttempts] times, with a wait after each invocation
    but the last, and the error returned wraps the last error. *)
Theorem RetryWithBackoff_exhausted config results cancel (k : nat) :
  MaxAttempts config = Z.of_nat (S k) ->
  (forall i, (i <= k)%nat -> retryable_failure text (results i)) ->
  (forall i, (i < k)%nat -> cancel i = None) ->
  exists e,
    results k = Some e /\
    observe text config results cancel
    = (Returned (Some (Wrapf ("max retries (" +:+ itoa (MaxAttempts config)
                              +:+ ") exceeded: ") e)),
       {| calls := seq 0 (S k); waits := map (delay config) (seq 0 k) |}).
Proof.
  intros Hmax Hres Hcan.
  destruct (retry_loop_prefix text config results cancel k 1) as [lastErr Hobs];
    [lia | lia | intros i Hi; apply Hres; lia | exact Hcan |].
  destruct (Hres k) as [e [He Hretry]]; [lia |].
  exists e. split; [exact He |].
  rewrite Hobs, retry_loop_S. unfold bind at 1. unfold scripted at 1.
  cbn [calls waits]. rewrite length_seq, length_map, length_seq.
  rewrite seq_snoc0, He, Hretry. cbn [negb].
  destruct (Z.geb_spec (Z.of_nat k + 1) (MaxAttempts config)) as [_ | Hlt]; [| lia].
  reflexivity.
Qed.

End Runs.

(** Five attempts, all answered 503, under the default policy. *)
Definition always_503 (i : nat) : option error :=
  Some (Errorf "retryable status code: 503").

Lemma always_503_retryable text i : retryable_failure text (always_503 i).
Proof. eexists. split; reflexivity. Defined.

Lemma RetryWithBackoff_exhausted_witness :
  exists e,
    always_503 4%nat = Some e /\
    observe plain_ascii DefaultRetryConfig always_503 never
    = (Returned (Some (Wrapf "max retries (5) exceeded: " e)),
       {| calls := [0; 1; 2; 3; 4]%nat;
          waits := [1 * Second; 2 * Second; 4 * Second; 8 * Second] |}).
Proof.
  exact (RetryWithBackoff_exhausted plain_ascii DefaultRetryConfig always_503
           never 4 eq_refl (fun i _ => always_503_retryable plain_ascii i)
           (fun i _ => eq_refl)).
Defined.

(** X9.  The context is done during the wait that follows invocation
    [k + 1], with attempts left: the error of the context is returned as
    it is, neither wrapped nor counted as an attempt, and the operation
    is not invoked again. *)
Theorem RetryWithBackoff_cancelled_while_waiting (text : Text) config results
        cancel (k : nat) (ctxErr : error) :
  Z.of_nat (S k) < MaxAttempts config ->
  (forall i, (i <= k)%nat -> retryable_failure text (results i)) ->
  (forall i, (i < k)%nat -> cancel i = None) ->
  cancel k = Some ctxErr ->
  observe text config results cancel
  = (Returned (Some ctxErr),
     {| calls := seq 0 (S k); waits := map (delay config) (seq 0 k) |}).
Proof.
  intros Hmax Hres Hcan Hdone.
  destruct (retry_loop_prefix text config results cancel k
              (Z.to_nat (MaxAttempts config) - k)) as [lastErr Hobs];
    [lia | lia | intros i Hi; apply Hres; lia | exact Hcan |].
  destruct (Hres k) as [e [He Hretry]]; [lia |].
  rewrite Hobs.
  destruct (Z.to_nat (MaxAttempts config) - k)%nat as [| n] eqn:En; [lia |].
  rewrite retry_loop_S. unfold bind at 1. unfold scripted at 1.
  cbn [calls waits]. rewrite length_seq, length_map, length_seq.
  rewrite seq_snoc0, He, Hretry. cbn [negb].
  destruct (Z.geb_spec (Z.of_nat k + 1) (MaxAttempts config)) as [Hge | _]; [lia |].
  unfold bind at 1. unfold timer at 1. cbn [calls waits].
  rewrite length_map, length_seq, Hdone. reflexivity.
Qed.

(** The context is cancelled during the second wait. *)
Definition during_second_wait (i : nat) : option error :=
  if (i =? 1)%nat then Some Canceled else None.

Lemma RetryWithBackoff_cancelled_while_waiting_witness :
  observe plain_ascii DefaultRetryConfig always_503 during_second_wait
  = (Returned (Some Canceled),
     {| calls := [0; 1]%nat; waits := [1 * Second] |}).
Proof.
  assert (Hcan : forall i, (i < 1)%nat -> during_second_wait i = None).
  { intros i Hi. destruct i as [| i]; [reflexivity | lia]. }
  exact (RetryWithBackoff_cancelled_while_waiting plain_ascii
           DefaultRetryConfig always_503 during_second_wait 1 Canceled
           eq_refl (fun i _ => always_503_retryable plain_ascii i) Hcan
           eq_refl).
Defined.

End retry_runs.

(** ** pkg/sync/retry.go: which answers the retrying client retries *)

Module retry_client_proofs.
Import GoString retry retry_client.

(** The status codes [isRetryableError] knows in a message. *)
Definition retried (status : Z) : bool :=
  existsb (Z.eqb status) [429; 500; 502; 503; 504].

(** The error the function literal of [Do] makes of an answer. *)
Definition status_error (status : Z) : error :=
  Errorf ("retryable status code: " +:+ itoa status).

Lemma status_error_classified (text : Text) (status : Z) :
  100 <= status <= 599 ->
  isRetryableError text (Some (status_error status)) = retried status.
Proof.
  intros Hrange.
  assert (Hall : forallb (fun n => Bool.eqb
                            (isRetryableError text
                               (Some (status_error (Z.of_nat n))))
                            (retried (Z.of_nat n)))
                         (seq 100 500) = true)
    by (vm_compute; reflexivity).
  rewrite forallb_forall in Hall.
  specialize (Hall (Z.to_nat status)).
  rewrite Z2Nat.id in Hall by lia.
  apply eqb_prop. apply Hall. apply in_seq. lia.
Qed.

Section Do.
Context (lib : Lib) (env : Env).

(** X10.  [Do] treats every answer from 500 on, and 429, as a failure to be
    retried, but the error it makes of the answer is retried only for
    429, 500, 502, 503 and 504.  For any other status from 500 to 599
    (501, 505, 507, ...) as the first answer, [Do] gives up at once:
    one request, no wait, and an error that says "non-retryable" of a
    "retryable status code". *)
Theorem Do_gives_up_on_other_5xx config (req : Request)
        (w : World) (first : Response) :
  1 <= MaxAttempts config ->
  ctx_Err env w = None ->
  Reply (transport env (wire w) req) = Ok first ->
  500 <= StatusCode first <= 599 ->
  retried (StatusCode first) = false ->
  Do lib env config req w
  = (Returned (None,
               Some (Errorf ("non-retryable error: " +:+
                             ("retryable status code: "
                              +:+ itoa (StatusCode first))))),
     add_exchange {| Sent := req; Got := transport env (wire w) req |} w).
Proof.
  intros Hmax Hctx Hfirst Hrange Hnot.
  unfold Do, RetryWithBackoff.
  destruct (Z.to_nat (MaxAttempts config)) as [| n] eqn:Hn; [lia |].
  rewrite retry_proofs.retry_loop_S. unfold bind at 1. unfold attempt at 1.
  cbn [world unsent]. unfold registry.Do. rewrite Hctx.
  assert (Hreq : {| Method := Method req; URL := URL req; Header := Header req;
                    Auth := Auth req; Body := Body req |} = req)
    by (now destruct req).
  rewrite Hreq, Hfirst.
  replace ((StatusCode first >=? 500) || (StatusCode first =? 429))%bool
    with true
    by (symmetry; apply orb_true_iff; left; apply Z.geb_le; lia).
  fold (status_error (StatusCode first)).
  rewrite status_error_classified by lia. rewrite Hnot. cbn [negb].
  reflexivity.
Qed.

End Do.

(** A registry that answers 501 Not Implemented. *)
Definition not_implemented : Env :=
  scenario.quiet (fun _ => scenario.serve
    [("GET", "https://source.example/v2/", (501, [], "not implemented"))]).

Definition ping : Request :=
  {| Method := "GET"; URL := "https://source.example/v2/"; Header := [];
     Auth := None; Body := "" |}.

Lemma Do_gives_up_on_other_5xx_witness :
  exists x,
    Do scenario.lib not_implemented DefaultRetryConfig ping initial_world
    = (Returned (None,
                 Some (Errorf "non-retryable error: retryable status code: 501")),
       add_exchange x initial_world) /\
    slept (add_exchange x initial_world) = [].
Proof.
  eexists. split; [| reflexivity].
  exact (Do_gives_up_on_other_5xx scenario.lib not_implemented
           DefaultRetryConfig ping
           initial_world
           {| StatusCode := 501; RespHeader := []; RespBody := "not implemented";
              ReadErr := None |}
           ltac:(vm_compute; discriminate) eq_refl eq_refl
           ltac:(vm_compute; split; discriminate) eq_refl).
Defined.

End retry_client_proofs.

(** ** pkg/registry/client.go: how much [doRequest] sends *)

Module request_proofs.
Import GoString registry registry_proofs.

Section Requests.
Context (lib : Lib) (env : Env).



(** *** Once the context is done *)

Lemma Do_done req w e :
  ctx_Err env w = Some e ->
  exists err, Do lib env req w
              = (Returned {| Consumed := 0; Reply := Err err |}, w).
Proof. intros Hctx. unfold Do. rewrite Hctx. eauto. Qed.

Lemma doRequest_done c method path body headers w e :
  ctx_Err env w = Some e ->
  exists err, doRequest lib env c method path body headers w
              = (Returned (Err err), w).
Proof.
  intros Hctx. unfold doRequest, Limiter_Wait.
  destruct (Limiter c).
  - unfold bind at 1. rewrite Hctx. eauto.
  - unfold bind at 1.
    destruct (http_NewRequest_err lib method _) as [err |]; [eauto |].
    match goal with |- context [Do lib env ?req] =>
      destruct (Do_done req w e Hctx) as [err E]
    end.
    rewrite (bind_returned _ _ _ _ _ E). cbn [Reply]. eauto.
Qed.

End Requests.
End request_proofs.

(** ** Once the context is done nothing is sent *)

Module done_proofs.
Import GoString retry registry engine registry_proofs request_proofs.

Section Done.
Context (lib : Lib) (env : Env) (w : World) (e : error).
Hypothesis Hdone : ctx_Err env w = Some e.

Ltac refused :=
  match goal with
  | |- context [doRequest lib env ?c ?m ?p ?b ?h] =>
      let err := fresh "err" in
      let E := fresh "E" in
      destruct (doRequest_done lib env c m p b h w e Hdone) as [err E];
      rewrite (bind_returned _ _ _ _ _ E); eauto
  end.

Lemma GetManifest_done c repository reference :
  exists err, GetManifest lib env c repository reference w
              = (Returned (Err err), w).
Proof. unfold GetManifest. refused. Qed.

Lemma PutManifest_done c repository reference m :
  exists err, PutManifest lib env c repository reference m w
              = (Returned (Err err), w).
Proof. unfold PutManifest. refused. Qed.

Lemma ListTags_done c repository :
  exists err, ListTags lib env c repository w = (Returned (Err err), w).
Proof. unfold ListTags. refused. Qed.

Lemma BlobExists_done c repository digest :
  exists err, BlobExists lib env c repository digest w
              = (Returned (Err err), w).
Proof. unfold BlobExists. refused. Qed.

Lemma initiateUpload_done c repository digest :
  exists err, initiateUpload lib env c repository digest w
              = (Returned (Err err), w).
Proof. unfold initiateUpload. refused. Qed.

Lemma PutBlob_done c repository digest content size :
  exists err, PutBlob lib env c repository digest content size w
              = (Returned (Some err), w).
Proof.
  unfold PutBlob.
  destruct (initiateUpload_done c repository digest) as [err E].
  rewrite (bind_returned _ _ _ _ _ E). eauto.
Qed.

Lemma CopyBlob_done source target sourceRepo targetRepo digest size :
  exists err, CopyBlob lib env source target sourceRepo targetRepo digest size w
              = (Returned (Some err), w).
Proof.
  unfold CopyBlob.
  destruct (BlobExists_done target targetRepo digest) as [err E].
  rewrite (bind_returned _ _ _ _ _ E). eauto.
Qed.

Lemma PingCheck_done c :
  exists err, PingCheck lib env c w = (Returned (Some err), w).
Proof.
  unfold PingCheck.
  destruct (http_NewRequest_err lib "GET" _) as [err |]; [eauto |].
  match goal with |- context [Do lib env ?req] =>
    destruct (Do_done lib env req w e Hdone) as [err E]
  end.
  rewrite (bind_returned _ _ _ _ _ E). cbn [Reply]. eauto.
Qed.

(** X12.  When the context is done, no operation of the client puts anything
    on the wire, and each of them returns an error: the world is as it
    was.  The same holds for a blob task, even one whose digest is too
    short to be printed, and for the synchronisation of a tag. *)
Theorem nothing_is_sent_once_done :
  (forall c, exists err, PingCheck lib env c w = (Returned (Some err), w)) /\
  (forall c repository,
      exists err, ListTags lib env c repository w = (Returned (Err err), w)) /\
  (forall c repository reference,
      exists err, GetManifest lib env c repository reference w
                  = (Returned (Err err), w)) /\
  (forall c repository reference m,
      exists err, PutManifest lib env c repository reference m w
                  = (Returned (Err err), w)) /\
  (forall c repository digest,
      exists err, BlobExists lib env c repository digest w
                  = (Returned (Err err), w)) /\
  (forall c repository digest content size,
      exists err, PutBlob lib env c repository digest content size w
                  = (Returned (Some err), w)) /\
  (forall source target sourceRepo targetRepo digest size,
      exists err,
        CopyBlob lib env source target sourceRepo targetRepo digest size w
        = (Returned (Some err), w)) /\
  (forall task, exists err, Execute lib env task w = (Returned (Some err), w)) /\
  (forall engine source target rule tag,
      exists err, SyncTag lib env engine source target rule tag w
                  = (Returned (Some err), w)).
Proof.
  split; [exact PingCheck_done |]. split; [exact ListTags_done |].
  split; [exact GetManifest_done |]. split; [exact PutManifest_done |].
  split; [exact BlobExists_done |]. split; [exact PutBlob_done |].
  split; [exact CopyBlob_done |]. split.
  - intros task. unfold Execute.
    destruct (BlobExists_done (Target task) (TargetRepo task) (Digest task))
      as [err E].
    rewrite (bind_returned _ _ _ _ _ E). eauto.
  - intros engine source target rule tag. unfold SyncTag.
    destruct (GetManifest_done source (Source_Repository rule) tag) as [err E].
    rewrite (bind_returned _ _ _ _ _ E). eauto.
Qed.

End Done.

(** A context that is cancelled from the start. *)
Definition cancelled : Env :=
  {| transport := fun _ => scenario.serve [];
     limiter_Wait := fun _ _ => None;
     cancel_after := Some (0%nat, Canceled);
     time_Now := fun n => Z.of_nat n |}.

Lemma nothing_is_sent_once_done_witness :
  ctx_Err cancelled initial_world = Some Canceled /\
  exists err,
    CopyBlob scenario.lib cancelled scenario.source scenario.target
             "library/nginx" "mirror/nginx" scenario.layer_digest 12345678
             initial_world
    = (Returned (Some err), initial_world).
Proof.
  split; [reflexivity |].
  destruct (nothing_is_sent_once_done scenario.lib cancelled initial_world
              Canceled eq_refl)
    as (_ & _ & _ & _ & _ & _ & Hcopy & _).
  apply Hcopy.
Defined.

End done_proofs.

(** ** pkg/registry/blob.go: when [CopyBlob] reports success *)

Module copy_proofs.
Import GoString registry registry_proofs.

Definition blob_path (repository digest : string) : string :=
  "/v2/" +:+ repository +:+ "/blobs/" +:+ digest.

Definition mount_path (fromRepo toRepo digest : string) : string :=
  "/v2/" +:+ toRepo +:+ "/blobs/uploads/?mount=" +:+ digest
  +:+ "&from=" +:+ fromRepo.

(** The last round trip of a list. *)
Definition ends_with (xs : list Exchange) (P : Exchange -> Prop) : Prop :=
  exists pre x, xs = pre ++ [x] /\ P x.

Lemma ends_with_app pre xs P : ends_with xs P -> ends_with (pre ++ xs) P.
Proof.
  intros (p & x & -> & Hx). exists (pre ++ p), x.
  now rewrite app_assoc.
Qed.

Section Copy.
Context (lib : Lib) (env : Env).

Lemma BlobExists_spec c repository digest w :
  exists r xs,
    BlobExists lib env c repository digest w = (Returned r, add_exchanges xs w) /\
    (forall size, r = Ok (true, size) ->
       ends_with xs (fun x => Method (Sent x) = "HEAD" /\
                              URL (Sent x) = BaseURL c +:+ blob_path repository digest /\
                              status x = Some StatusOK)) /\
    (forall size, r = Ok (false, size) ->
       ends_with xs (fun x => Method (Sent x) = "HEAD" /\
                              URL (Sent x) = BaseURL c +:+ blob_path repository digest /\
                              status x = Some StatusNotFound)).
Proof.
  unfold BlobExists. fold (blob_path repository digest).
  destruct (doRequest_spec lib env c "HEAD" (blob_path repository digest) None [] w)
    as (r & xs & E & _ & _ & Hlast & _).
  rewrite (bind_returned _ _ _ _ _ E). clear E.
  destruct r as [resp | err].
  2:{ eexists _, xs. split; [reflexivity |]. split; intros ? Hd; discriminate Hd. }
  destruct (Hlast resp eq_refl) as (pre & x & -> & (Hm & Hu & _) & Hx).
  destruct (Z.eqb_spec (StatusCode resp) StatusOK) as [H200 | H200].
  { eexists _, _. split; [reflexivity |]. split.
    - intros size _. exists pre, x. unfold status. rewrite Hx, H200. now repeat split.
    - intros size Hd. inversion Hd. }
  destruct (Z.eqb_spec (StatusCode resp) StatusNotFound) as [H404 | H404].
  { eexists _, _. split; [reflexivity |]. split.
    - intros size Hd. inversion Hd.
    - intros size _. exists pre, x. unfold status. rewrite Hx, H404. now repeat split. }
  eexists _, _. split; [reflexivity |]. split; intros ? Hd; discriminate Hd.
Qed.

Lemma MountBlob_spec c fromRepo toRepo digest w :
  exists r xs,
    MountBlob lib env c fromRepo toRepo digest w = (Returned r, add_exchanges xs w) /\
    (r = Ok true ->
       ends_with xs (fun x => Method (Sent x) = "POST" /\
                              URL (Sent x)
                              = BaseURL c +:+ mount_path fromRepo toRepo digest /\
                              status x = Some StatusCreated)).
Proof.
  unfold MountBlob. fold (mount_path fromRepo toRepo digest).
  destruct (doRequest_spec lib env c "POST" (mount_path fromRepo toRepo digest)
                           None [] w)
    as (r & xs & E & _ & _ & Hlast & _).
  rewrite (bind_returned _ _ _ _ _ E). clear E.
  destruct r as [resp | err].
  2:{ eexists _, xs. split; [reflexivity |]. intros Hd; discriminate Hd. }
  destruct (Hlast resp eq_refl) as (pre & x & -> & (Hm & Hu & _) & Hx).
  destruct (Z.eqb_spec (StatusCode resp) StatusCreated) as [H201 | H201].
  { eexists _, _. split; [reflexivity |].
    intros _. exists pre, x. unfold status. rewrite Hx, H201. now repeat split. }
  destruct (StatusCode resp =? StatusAccepted);
    eexists _, _; (split; [reflexivity |]); intros Hd; discriminate Hd.
Qed.

Lemma GetBlob_spec c repository digest w :
  exists r xs,
    GetBlob lib env c repository digest w = (Returned r, add_exchanges xs w).
Proof.
  unfold GetBlob.
  destruct (doRequest_spec lib env c "GET"
              ("/v2/" +:+ repository +:+ "/blobs/" +:+ digest) None [] w)
    as (r & xs & E & _).
  rewrite (bind_returned _ _ _ _ _ E). clear E.
  destruct r as [resp | err]; [| eauto].
  destruct (negb _); eauto.
Qed.

Lemma PutBlob_spec c repository digest content size w :
  exists r xs,
    PutBlob lib env c repository digest content size w
    = (Returned r, add_exchanges xs w) /\
    (r = None ->
       ends_with xs (fun x => Method (Sent x) = "PUT" /\
                              (exists uploadURL,
                                  url_set_query lib uploadURL [("digest", digest)]
                                  = Ok (URL (Sent x))) /\
                              status x = Some StatusCreated)).
Proof.
  unfold PutBlob.
  destruct (initiateUpload_spec lib env c repository digest w)
    as (r1 & xs1 & E1 & _).
  rewrite (bind_returned _ _ _ _ _ E1). clear E1.
  destruct r1 as [uploadURL | err];
    [| eexists _, xs1; split; [reflexivity | intros Hd; discriminate Hd]].
  destruct (uploadContent_spec lib env c uploadURL content size
                               (add_exchanges xs1 w))
    as (r2 & xs2 & E2 & _).
  rewrite (bind_returned _ _ _ _ _ E2). clear E2. rewrite add_exchanges_app.
  destruct r2 as [newUploadURL | err];
    [| eexists _, _; split; [reflexivity | intros Hd; discriminate Hd]].
  destruct (completeUpload_spec lib env c newUploadURL digest
                                (add_exchanges (xs1 ++ xs2) w))
    as (r3 & xs3 & E3 & _ & Hok3 & _).
  rewrite (bind_returned _ _ _ _ _ E3). clear E3. rewrite add_exchanges_app.
  destruct r3 as [err |];
    [eexists _, _; split; [reflexivity | intros Hd; discriminate Hd] |].
  destruct (Hok3 eq_refl) as (x3 & -> & Hm3 & Hq3 & _ & _ & Hs3).
  exists None, ((xs1 ++ xs2) ++ [x3]). split; [reflexivity |].
  intros _. exists (xs1 ++ xs2), x3. split; [reflexivity |].
  split; [exact Hm3 |]. split; [now exists newUploadURL | exact Hs3].
Qed.

(** The answers on which [CopyBlob] reports success. *)
Definition confirms (target : Client) (targetRepo digest : string)
           (x : Exchange) : Prop :=
  (Method (Sent x) = "HEAD" /\
   URL (Sent x) = BaseURL target +:+ blob_path targetRepo digest /\
   status x = Some StatusOK) \/
  (Method (Sent x) = "POST" /\
   URL (Sent x) = BaseURL target +:+ mount_path targetRepo targetRepo digest /\
   status x = Some StatusCreated) \/
  (Method (Sent x) = "PUT" /\
   (exists uploadURL,
       url_set_query lib uploadURL [("digest", digest)] = Ok (URL (Sent x))) /\
   status x = Some StatusCreated).

Lemma CopyBlob_spec source target sourceRepo targetRepo digest size w :
  exists r xs,
    CopyBlob lib env source target sourceRepo targetRepo digest size w
    = (Returned r, add_exchanges xs w) /\
    (r = None -> ends_with xs (confirms target targetRepo digest)).
Proof.
  unfold CopyBlob.
  destruct (BlobExists_spec target targetRepo digest w)
    as (r1 & xs1 & E1 & Hyes & _).
  rewrite (bind_returned _ _ _ _ _ E1). clear E1.
  destruct r1 as [[exists_ n] | err];
    [| eexists _, xs1; split; [reflexivity | intros Hd; discriminate Hd]].
  destruct exists_.
  { exists None, xs1. split; [reflexivity |]. intros _.
    destruct (Hyes n eq_refl) as (pre & x & -> & Hx).
    exists pre, x. split; [reflexivity | now left]. }
  clear Hyes.
  destruct (MountBlob_spec target targetRepo targetRepo digest
                           (add_exchanges xs1 w))
    as (r2 & xs2 & E2 & Hmount).
  rewrite (bind_returned _ _ _ _ _ E2). clear E2. rewrite add_exchanges_app.
  assert (Hdownload :
            exists r xs,
              (g <- GetBlob lib env source sourceRepo digest ;;
               match g with
               | Err err => ret (Some (Wrapf "failed to download blob: " err))
               | Ok (reader, _) =>
                   u <- PutBlob lib env target targetRepo digest reader size ;;
                   match u with
                   | Some err => ret (Some (Wrapf "failed to upload blob: " err))
                   | None => ret None
                   end
               end) (add_exchanges (xs1 ++ xs2) w)
              = (Returned r, add_exchanges xs w) /\
              (r = None -> ends_with xs (confirms target targetRepo digest))).
  { destruct (GetBlob_spec source sourceRepo digest (add_exchanges (xs1 ++ xs2) w))
      as (r3 & xs3 & E3).
    rewrite (bind_returned _ _ _ _ _ E3). clear E3. rewrite add_exchanges_app.
    destruct r3 as [[reader n3] | err];
      [| eexists _, _; split; [reflexivity | intros Hd; discriminate Hd]].
    destruct (PutBlob_spec target targetRepo digest reader size
                           (add_exchanges ((xs1 ++ xs2) ++ xs3) w))
      as (r4 & xs4 & E4 & Hput).
    rewrite (bind_returned _ _ _ _ _ E4). clear E4. rewrite add_exchanges_app.
    destruct r4 as [err |];
      [eexists _, _; split; [reflexivity | intros Hd; discriminate Hd] |].
    exists None, (((xs1 ++ xs2) ++ xs3) ++ xs4). split; [reflexivity |].
    intros _. apply ends_with_app.
    destruct (Hput eq_refl) as (pre & x & -> & Hx).
    exists pre, x. split; [reflexivity |]. right. now right. }
  destruct r2 as [[|] | err]; [| exact Hdownload | exact Hdownload].
  exists None, (xs1 ++ xs2). split; [reflexivity |]. intros _.
  apply ends_with_app.
  destruct (Hmount eq_refl) as (pre & x & -> & Hx).
  exists pre, x. split; [reflexivity |]. right. now left.
Qed.

(** X13.  [CopyBlob] always returns, and it returns nil only when the last
    answer it received confirms the blob: 200 to the existence check on
    the target, 201 to the mount request (which names the target
    repository itself as the repository to mount from), or 201 to the
    PUT that completes an upload with the digest of the blob as its
    [digest] parameter. *)
Theorem CopyBlob_success_is_confirmed source target sourceRepo targetRepo
        digest size w :
  exists r xs,
    CopyBlob lib env source target sourceRepo targetRepo digest size w
    = (Returned r, add_exchanges xs w) /\
    (r = None -> ends_with xs (confirms target targetRepo digest)).
Proof. apply CopyBlob_spec. Qed.

End Copy.
End copy_proofs.

(** ** The catalog fallbacks of pkg/registry/client.go *)

Module catalog_proofs.
Import GoString registry registry_proofs string_facts.

Lemma prefix_split p s :
  String.prefix p s = true -> s = p +:+ TrimPrefix s p.
Proof.
  intros Hp. unfold TrimPrefix. rewrite Hp. revert s Hp.
  induction p as [| c p IH]; intros s Hp.
  - rewrite append_nil. cbn [String.length]. rewrite Nat.sub_0_r.
    now rewrite substring_all.
  - destruct s as [| d s]; cbn [String.prefix] in Hp; [discriminate |].
    destruct (ascii_dec c d) as [-> | _]; [| discriminate].
    rewrite append_cons. cbn [String.length String.substring Nat.sub].
    f_equal. now apply IH.
Qed.


Section Catalog.
Context (lib : Lib) (env : Env).

(** X14.  What [listRepositoriesFromCatalog] returns for a project is, name
    for name, what the catalog lists below [project/]: a name is in the
    result exactly when the catalog holds it with that prefix, and the
    order of the catalog is kept. *)
Theorem listRepositoriesFromCatalog_members c project w repos w' :
  listRepositoriesFromCatalog lib env c project w = (Returned (Ok repos), w') ->
  exists resp catalog,
    Decode (json_Decode_catalog lib) resp = Ok catalog /\
    StatusCode resp = StatusOK /\
    (exists x, In x (wire w') /\ Reply (Got x) = Ok resp /\
               URL (Sent x) = BaseURL c +:+ "/v2/_catalog") /\
    map (fun repo => project +:+ "/" +:+ repo) repos
    = List.filter (fun repo => HasPrefix repo (project +:+ "/")) catalog /\
    (forall repo, In repo repos <-> In (project +:+ "/" +:+ repo) catalog).
Proof.
  unfold listRepositoriesFromCatalog.
  destruct (doRequest_spec lib env c "GET" "/v2/_catalog" None [] w)
    as (r & xs & E & _ & _ & Hlast & _).
  rewrite (bind_returned _ _ _ _ _ E). clear E.
  destruct r as [resp | err]; [| intros Hd; unfold ret in Hd; inversion Hd].
  destruct (Hlast resp eq_refl) as (pre & x & -> & (_ & Hu & _) & Hx).
  destruct (Z.eqb_spec (StatusCode resp) StatusOK) as [H200 | H200];
    cbn [negb]; [| intros Hd; unfold ret in Hd; inversion Hd].
  destruct (Decode (json_Decode_catalog lib) resp) as [catalog | err] eqn:Hdec;
    [| intros Hd; unfold ret in Hd; inversion Hd].
  intros Hok. unfold ret in Hok. inversion Hok; subst. clear Hok.
  exists resp, catalog. split; [exact Hdec |]. split; [exact H200 |].
  split.
  { exists x. split; [| now split]. rewrite wire_add_exchanges.
    apply in_or_app. right. apply in_or_app. right. now left. }
  assert (Hback : forall l,
            map (fun repo => project +:+ "/" +:+ repo)
                (map (fun repo => TrimPrefix repo (project +:+ "/"))
                     (List.filter (fun repo => HasPrefix repo (project +:+ "/")) l))
            = List.filter (fun repo => HasPrefix repo (project +:+ "/")) l).
  { induction l as [| repo l IH]; cbn [List.filter map]; [reflexivity |].
    destruct (HasPrefix repo (project +:+ "/")) eqn:Hp; [| exact IH].
    cbn [map]. rewrite IH. f_equal.
    rewrite <- append_assoc. symmetry. now apply prefix_split. }
  split; [apply Hback |].
  intros repo. split.
  - intros Hin.
    apply (in_map (fun repo => project +:+ "/" +:+ repo)) in Hin.
    rewrite Hback in Hin. now apply filter_In in Hin.
  - intros Hin. apply in_map_iff.
    exists (project +:+ "/" +:+ repo). split.
    + rewrite <- append_assoc. apply TrimPrefix_app.
    + apply filter_In. split; [exact Hin |].
      rewrite <- append_assoc. apply HasPrefix_app.
Qed.


End Catalog.

(** A registry without the Harbor API that lists four repositories. *)
Definition catalog_json : string :=
  scenario.jobj [scenario.jfield "repositories"
    (scenario.jarr (map scenario.jstr
       ["library/nginx"; "library/redis"; "mirror/nginx"; "busybox"]))].

Definition lib : Lib :=
  {| json_Unmarshal_Manifest := json_Unmarshal_Manifest scenario.lib;
     json_Decode_tags := json_Decode_tags scenario.lib;
     json_Decode_token := json_Decode_token scenario.lib;
     json_Decode_projects := json_Decode_projects scenario.lib;
     json_Decode_repositories := json_Decode_repositories scenario.lib;
     json_Decode_catalog :=
       scenario.lookup
         [(catalog_json,
           ["library/nginx"; "library/redis"; "mirror/nginx"; "busybox"])];
     json_Unmarshal_uints := json_Unmarshal_uints scenario.lib;
     url_set_query := url_set_query scenario.lib;
     http_NewRequest_err := http_NewRequest_err scenario.lib;
     strconv_ParseInt := strconv_ParseInt scenario.lib;
     json_Marshal_project := json_Marshal_project scenario.lib;
     regexp_Compile := regexp_Compile scenario.lib;
     text := text scenario.lib |}.

Definition env : Env :=
  scenario.quiet (fun _ => scenario.serve
    [("GET", "https://source.example/v2/_catalog", (200, [], catalog_json))]).

Lemma listRepositoriesFromCatalog_returns :
  listRepositoriesFromCatalog lib env scenario.source "library" initial_world
  = (Returned (Ok ["nginx"; "redis"]),
     snd (listRepositoriesFromCatalog lib env scenario.source "library"
                                      initial_world)).
Proof. vm_compute. reflexivity. Defined.

Lemma listRepositoriesFromCatalog_members_witness :
  exists resp catalog,
    Decode (json_Decode_catalog lib) resp = Ok catalog /\
    StatusCode resp = StatusOK /\
    (exists x,
        In x (wire (snd (listRepositoriesFromCatalog
                           lib env scenario.source "library" initial_world))) /\
        Reply (Got x) = Ok resp /\
        URL (Sent x) = BaseURL scenario.source +:+ "/v2/_catalog") /\
    map (fun repo => "library" +:+ "/" +:+ repo) ["nginx"; "redis"]
    = List.filter (fun repo => HasPrefix repo ("library" +:+ "/")) catalog /\
    (forall repo, In repo ["nginx"; "redis"] <->
                  In ("library" +:+ "/" +:+ repo) catalog).
Proof.
  exact (listRepositoriesFromCatalog_members lib env scenario.source "library"
           initial_world _ _ listRepositoriesFromCatalog_returns).
Defined.



End catalog_proofs.

(** ** The paging loop of [listHarborProjects] *)

Module paging_proofs.
Import GoString registry registry_proofs.

Section Pages.
Context (lib : Lib) (env : Env) (c : Client).

(** The request for page [p]. *)
Definition page_request (p : Z) : Request :=
  {| Method := "GET";
     URL := BaseURL c +:+ ("/api/v2.0/projects?page=" +:+ itoa p
                           +:+ "&page_size=" +:+ itoa pageSize);
     Header := []; Auth := harborAuth c; Body := "" |}.

(** The registry answers the request for page [p] with the projects
    [page], whatever happened before. *)
Definition serves (p : Z) (page : list HarborProject.t) : Prop :=
  http_NewRequest_err lib "GET" (URL (page_request p)) = None /\
  forall history,
    exists resp,
      Reply (transport env history (page_request p)) = Ok resp /\
      StatusCode resp = StatusOK /\
      ReadErr resp = None /\
      json_Decode_projects lib (RespBody resp) = Ok page.

Definition names (pages : list (list HarborProject.t)) : list string :=
  map HarborProject.Name (concat pages).

(** The round trip for page [p] in the world [w]. *)
Definition page_exchange (p : Z) (w : World) : Exchange :=
  {| Sent := page_request p;
     Got := transport env (wire w) (page_request p) |}.

Lemma page_step fuel p page acc w :
  cancel_after env = None ->
  serves p page ->
  listHarborProjects_from lib env (S fuel) c p acc w
  = (if Z.of_nat (length page) <? pageSize
     then (Returned (Ok (acc ++ map HarborProject.Name page)),
           add_exchanges [page_exchange p w] w)
     else listHarborProjects_from lib env fuel c (p + 1)
            (acc ++ map HarborProject.Name page)
            (add_exchanges [page_exchange p w] w)).
Proof.
  intros Halive [Hreq Hpage].
  destruct (Hpage (wire w)) as (resp & Hreply & H200 & Hread & Hdec).
  unfold page_exchange. unfold page_request in *. cbn [URL] in Hreq.
  cbn [listHarborProjects_from]. rewrite Hreq.
  unfold bind at 1. unfold Do at 1. unfold ctx_Err. rewrite Halive.
  rewrite Hreply, H200. change (StatusOK =? StatusOK) with true. cbn [negb].
  unfold Decode. rewrite Hread, Hdec.
  destruct (Z.of_nat (length page) <? pageSize); reflexivity.
Qed.

Lemma map_seq_cons {A} (f : nat -> A) (n : nat) :
  map f (seq 0 (S n)) = f 0%nat :: map (fun k => f (S k)) (seq 0 n).
Proof.
  cbn [seq map]. f_equal. now rewrite <- seq_shift, map_map.
Qed.

Lemma pages_from (last : list HarborProject.t)
      (full : list (list HarborProject.t)) :
  cancel_after env = None ->
  Z.of_nat (length last) < pageSize ->
  Forall (fun page => Z.of_nat (length page) = pageSize) full ->
  forall fuel p acc w,
    (forall k page, nth_error (full ++ [last]) k = Some page ->
                    serves (p + Z.of_nat k) page) ->
    (length full < fuel)%nat ->
    exists xs,
      listHarborProjects_from lib env fuel c p acc w
      = (Returned (Ok (acc ++ names (full ++ [last]))), add_exchanges xs w) /\
      map Sent xs = map (fun k => page_request (p + Z.of_nat k))
                        (seq 0 (S (length full))).
Proof.
  intros Halive Hlast Hfull.
  induction Hfull as [| page full Hpage Hfull IH]; intros fuel p acc w Hserved Hfuel.
  - destruct fuel as [| fuel]; [cbn in Hfuel; lia |].
    assert (Hs : serves p last).
    { specialize (Hserved 0%nat last eq_refl).
      now rewrite Z.add_0_r in Hserved. }
    rewrite (page_step fuel p last acc w Halive Hs).
    destruct (Z.ltb_spec (Z.of_nat (length last)) pageSize); [| lia].
    exists [page_exchange p w]. unfold names. cbn [app concat].
    rewrite app_nil_r. split; [reflexivity |].
    cbn [map seq length page_exchange Sent]. now rewrite Z.add_0_r.
  - destruct fuel as [| fuel]; [cbn in Hfuel; lia |].
    assert (Hs : serves p page).
    { specialize (Hserved 0%nat page eq_refl).
      now rewrite Z.add_0_r in Hserved. }
    rewrite (page_step fuel p page acc w Halive Hs).
    destruct (Z.ltb_spec (Z.of_nat (length page)) pageSize); [lia |].
    destruct (IH fuel (p + 1) (acc ++ map HarborProject.Name page)
                 (add_exchanges [page_exchange p w] w)) as (xs & E' & Hsent).
    + intros k pg Hk. specialize (Hserved (S k) pg Hk).
      now replace (p + 1 + Z.of_nat k) with (p + Z.of_nat (S k)) by lia.
    + cbn [length] in Hfuel. lia.
    + rewrite E', add_exchanges_app. exists ([page_exchange p w] ++ xs).
      split.
      * unfold names. cbn [app concat]. rewrite map_app, app_assoc. reflexivity.
      * cbn [app map length page_exchange Sent]. rewrite Hsent.
        rewrite (map_seq_cons (fun k => page_request (p + Z.of_nat k))
                              (S (length full))).
        rewrite Z.add_0_r. f_equal.
        apply map_ext. intros k. f_equal. lia.
Qed.

(** X16.  Against a registry that serves a list of projects in pages of one
    hundred, the last one shorter, [listHarborProjects] returns, given a
    round of its loop for every page: it asks for the pages 1, 2, ...
    once each and returns the names of all the projects in the order of
    the pages. *)
Theorem listHarborProjects_reads_every_page
        (full : list (list HarborProject.t)) (last : list HarborProject.t)
        (fuel : nat) (w : World) :
  cancel_after env = None ->
  Forall (fun page => Z.of_nat (length page) = pageSize) full ->
  Z.of_nat (length last) < pageSize ->
  (forall k page, nth_error (full ++ [last]) k = Some page ->
                  serves (1 + Z.of_nat k) page) ->
  (length full < fuel)%nat ->
  exists xs,
    listHarborProjects lib env fuel c w
    = (Returned (Ok (names (full ++ [last]))), add_exchanges xs w) /\
    map Sent xs = map (fun k => page_request (1 + Z.of_nat k))
                      (seq 0 (S (length full))).
Proof.
  intros Halive Hfull Hlast Hserved Hfuel. unfold listHarborProjects.
  exact (pages_from last full Halive Hlast Hfull fuel 1 [] w Hserved Hfuel).
Qed.

(** X17.  The loop has no other end than a short page or an error: against a
    registry that answers every page with a hundred projects or more it
    is still running after any number of rounds. *)
Theorem listHarborProjects_needs_a_short_page (fuel : nat) (w : World) :
  cancel_after env = None ->
  (forall p, exists page,
      pageSize <= Z.of_nat (length page) /\ serves p page) ->
  exists w', listHarborProjects lib env fuel c w = (Unfinished, w').
Proof.
  intros Halive Hfull. unfold listHarborProjects.
  generalize 1 as p. generalize (@nil string) as acc. revert w.
  induction fuel as [| fuel IH]; intros w acc p.
  - eexists. reflexivity.
  - destruct (Hfull p) as (page & Hlen & Hs).
    rewrite (page_step fuel p page acc w Halive Hs).
    destruct (Z.ltb_spec (Z.of_nat (length page)) pageSize); [lia |].
    apply IH.
Qed.

End Pages.

(** A Harbor with 101 projects. *)
Definition project (n : nat) : HarborProject.t :=
  {| HarborProject.Name := "p" +:+ itoa (Z.of_nat n);
     HarborProject.ProjectID := Z.of_nat n; HarborProject.Public := true |}.

Definition first_page : list HarborProject.t := map project (seq 1 100).
Definition second_page : list HarborProject.t := [project 101].

Definition harbor_lib : Lib :=
  {| json_Unmarshal_Manifest := json_Unmarshal_Manifest scenario.lib;
     json_Decode_tags := json_Decode_tags scenario.lib;
     json_Decode_token := json_Decode_token scenario.lib;
     json_Decode_projects :=
       scenario.lookup [("page 1", first_page); ("page 2", second_page)];
     json_Decode_repositories := json_Decode_repositories scenario.lib;
     json_Decode_catalog := json_Decode_catalog scenario.lib;
     json_Unmarshal_uints := json_Unmarshal_uints scenario.lib;
     url_set_query := url_set_query scenario.lib;
     http_NewRequest_err := http_NewRequest_err scenario.lib;
     strconv_ParseInt := strconv_ParseInt scenario.lib;
     json_Marshal_project := json_Marshal_project scenario.lib;
     regexp_Compile := regexp_Compile scenario.lib;
     text := text scenario.lib |}.

Definition harbor : Env :=
  scenario.quiet (fun _ => scenario.serve
    [("GET", "https://target.example/api/v2.0/projects?page=1&page_size=100",
      (200, [], "page 1"));
     ("GET", "https://target.example/api/v2.0/projects?page=2&page_size=100",
      (200, [], "page 2"))]).

Lemma harbor_serves k page :
  nth_error ([first_page] ++ [second_page]) k = Some page ->
  serves harbor_lib harbor scenario.target (1 + Z.of_nat k) page.
Proof.
  destruct k as [| [| k]]; cbn [nth_error app]; intros Hk.
  - inversion Hk; subst. split; [reflexivity |].
    intros history. eexists. repeat split.
  - inversion Hk; subst. split; [reflexivity |].
    intros history. eexists. repeat split.
  - now destruct k.
Defined.

Lemma listHarborProjects_reads_every_page_witness :
  exists xs,
    listHarborProjects harbor_lib harbor 2 scenario.target initial_world
    = (Returned (Ok (names ([first_page] ++ [second_page]))),
       add_exchanges xs initial_world) /\
    map Sent xs = map (fun k => page_request scenario.target (1 + Z.of_nat k))
                      (seq 0 2).
Proof.
  apply (listHarborProjects_reads_every_page harbor_lib harbor scenario.target
           [first_page] second_page 2 initial_world eq_refl).
  - repeat constructor.
  - reflexivity.
  - exact harbor_serves.
  - cbn. lia.
Defined.

(** A registry that answers every page with the same hundred projects. *)
Definition endless : Env :=
  scenario.quiet (fun _ => scenario.answer 200 [] "page 1").

Lemma endless_serves p :
  exists page,
    pageSize <= Z.of_nat (length page) /\
    serves harbor_lib endless scenario.target p page.
Proof.
  exists first_page. split; [vm_compute; discriminate |].
  split; [reflexivity |]. intros history. eexists. repeat split.
Defined.

Lemma listHarborProjects_needs_a_short_page_witness :
  exists w',
    listHarborProjects harbor_lib endless 50 scenario.target initial_world
    = (Unfinished, w').
Proof.
  exact (listHarborProjects_needs_a_short_page harbor_lib endless
           scenario.target 50 initial_world eq_refl endless_serves).
Defined.

End paging_proofs.

(** ** The counters of an execution *)

Module counter_proofs.
Import GoString retry registry models scheduler scheduler_proofs.

Ltac returned E :=
  apply ret_inv in E; destruct E as [E ?]; inversion E; subst.

(** What a part of a run adds to the counters: [n] blobs looked at,
    each counted as synchronised or as failed, the skipped ones being
    among the synchronised. *)
Definition accounts (n : nat) (e e' : Execution.t) : Prop :=
  Execution.SyncedBlobs e' + Execution.FailedBlobs e'
  = Execution.SyncedBlobs e + Execution.FailedBlobs e + Z.of_nat n /\
  0 <= Execution.SkippedBlobs e' - Execution.SkippedBlobs e
    <= Execution.SyncedBlobs e' - Execution.SyncedBlobs e /\
  Execution.FailedBlobs e <= Execution.FailedBlobs e'.

Lemma accounts_trans n m e1 e2 e3 :
  accounts n e1 e2 -> accounts m e2 e3 -> accounts (n + m) e1 e3.
Proof. unfold accounts. rewrite Nat2Z.inj_add. lia. Qed.

Section Counters.
Context `{SliceSorter} (lib : Lib) (env : Env).

Lemma sync_blobs_accounts src tgt repoTag blobs :
  forall e w e' w',
    sync_blobs lib env src tgt repoTag blobs e w = (Returned e', w') ->
    accounts (length blobs) e e'.
Proof.
  induction blobs as [| blob blobs IH]; intros e w e' w' E.
  - cbn [sync_blobs] in E. returned E. unfold accounts. cbn. lia.
  - cbn [sync_blobs] in E. unbind E as r w1 Hr.
    change (length (blob :: blobs)) with (1 + length blobs)%nat.
    destruct r as [[exists_ size] | err].
    + unbind E as e1 w2 He1. apply IH in E.
      apply (accounts_trans 1 (length blobs) e e1 e'); [| exact E].
      destruct exists_.
      * returned He1. unfold accounts. cbn. lia.
      * unbind He1 as copied w3 Hcopied. destruct copied as [err |].
        -- unbind He1 as d w4 Hd. unbind He1 as u w5 Hu. returned He1.
           unfold accounts. cbn. lia.
        -- returned He1. unfold accounts. cbn. lia.
    + unbind E as u w2 Hu. apply IH in E.
      eapply (accounts_trans 1 (length blobs)); [| exact E].
      unfold accounts. cbn. lia.
Qed.

Lemma sync_tags_accounts src tgt total plan :
  forall index current e w e' w',
    sync_tags lib env src tgt total index current plan e w
    = (Returned e', w') ->
    accounts (length (blobs_of plan)) e e'.
Proof.
  induction plan as [| repoTag plan IH]; intros index current e w e' w' E.
  - cbn [sync_tags] in E. returned E. unfold accounts. cbn. lia.
  - cbn [sync_tags] in E.
    unbind E as u1 w1 Hu1. unbind E as u2 w2 Hu2. unbind E as u3 w3 Hu3.
    unbind E as e1 w4 He1. apply sync_blobs_accounts in He1.
    unbind E as pushed w5 Hpushed.
    change (blobs_of (repoTag :: plan))
      with (GetAllBlobs (manifest repoTag) ++ blobs_of plan).
    rewrite length_app.
    destruct pushed as [digest | err]; unbind E as u4 w6 Hu4;
      apply IH in E; eapply accounts_trans; eassumption.
Qed.

(** X19.  When [runTask] returns without error, every blob of its plan has
    been counted once, as synchronised or as failed: the two counters
    have grown by the total together.  The blobs counted as skipped are
    among those counted as synchronised, and no counter has gone down. *)
Theorem runTask_accounts_for_every_blob (store : Store) (fuel : nat)
        task e w e' w' :
  runTask lib env store fuel task e w = (Returned (e', None), w') ->
  Execution.SyncedBlobs e' + Execution.FailedBlobs e'
  = Execution.SyncedBlobs e + Execution.FailedBlobs e
    + Execution.TotalBlobs e' /\
  0 <= Execution.SkippedBlobs e' - Execution.SkippedBlobs e
    <= Execution.SyncedBlobs e' - Execution.SyncedBlobs e /\
  Execution.FailedBlobs e <= Execution.FailedBlobs e'.
Proof.
  unfold runTask. intros E.
  unbind E as ready w9 Hready.
  destruct ready as [[[sourceClient targetClient] repositories] | err];
    [| returned E].
  unbind E as u5 w10 Hu5.
  unbind E as plan w11 Hplan. destruct plan as [plan total].
  cbn [fst snd] in E.
  unbind E as u6 w12 Hu6.
  unbind E as e1 w13 He1.
  unbind E as u7 w14 Hu7.
  returned E.
  pose proof He1 as Htotal. apply sync_tags_TotalBlobs in Htotal.
  cbn in Htotal.
  apply plan_repositories_total in Hplan.
  destruct Hplan as [new [Hnew Hsum]]. cbn [app] in Hnew. subst new.
  apply sync_tags_accounts in He1. unfold accounts in He1. cbn in He1.
  rewrite Htotal. lia.
Qed.

End Counters.

Lemma runTask_accounts_for_every_blob_witness :
  Execution.SyncedBlobs rule_run.shared_final
  + Execution.FailedBlobs rule_run.shared_final
  = Execution.SyncedBlobs rule_run.execution
    + Execution.FailedBlobs rule_run.execution
    + Execution.TotalBlobs rule_run.shared_final /\
  0 <= Execution.SkippedBlobs rule_run.shared_final
       - Execution.SkippedBlobs rule_run.execution
    <= Execution.SyncedBlobs rule_run.shared_final
       - Execution.SyncedBlobs rule_run.execution /\
  Execution.FailedBlobs rule_run.execution
  <= Execution.FailedBlobs rule_run.shared_final.
Proof.
  exact (runTask_accounts_for_every_blob
           (rule_run.lib ["1.25.0"; "stable"]) rule_run.shared_env
           rule_run.store 3 rule_run.task rule_run.execution initial_world
           rule_run.shared_final (snd rule_run.shared_run)
           rule_run.shared_run_returns).
Defined.

End counter_proofs.

(** ** Who is notified *)

Module notification_proofs.
Import GoString models scheduler.

(** The task asks for a notification of this status. *)
Definition wanted (task : SyncTask.t) (status : string) : bool :=
  (SyncTask.SendNotification task &&
   negb (String.eqb (SyncTask.NotificationCondition task) "failed" &&
         negb (String.eqb status "failed")))%bool.

(** The channel ids of the task: none when the field is empty or is not
    a JSON array of numbers. *)
Definition channel_ids (lib : Lib) (task : SyncTask.t) : list N :=
  if String.eqb (SyncTask.NotificationChannelIDs task) "" then []
  else match json_Unmarshal_uints lib (SyncTask.NotificationChannelIDs task) with
       | Ok ids => ids
       | Err _ => []
       end.

Definition supported (channel : NotificationChannel.t) : bool :=
  (String.eqb (NotificationChannel.Type_ channel) "wechat" ||
   String.eqb (NotificationChannel.Type_ channel) "dingtalk")%bool.

(** The channels a list of ids reaches: those the store knows, enabled
    and of a supported type, once for every time they are listed. *)
Definition recipients (store : Store) (ids : list N)
  : list NotificationChannel.t :=
  flat_map (fun id =>
              match GetNotificationChannel store id with
              | Ok channel =>
                  if (NotificationChannel.Enabled channel && supported channel)%bool
                  then [channel] else []
              | Err _ => []
              end) ids.

Definition deliver (status : string) (channels : list NotificationChannel.t)
           (w : World) : World :=
  fold_left (fun w channel => add_notice (NotificationChannel.ID channel) status w)
            channels w.

Section Notify.
Context (lib : Lib) (store : Store).

Lemma notify_channels_delivers status ids :
  forall w,
    notify_channels store status ids w
    = (Returned tt, deliver status (recipients store ids) w).
Proof.
  induction ids as [| id ids IH]; intros w; cbn [notify_channels recipients flat_map].
  - reflexivity.
  - fold (recipients store ids).
    destruct (GetNotificationChannel store id) as [channel | err]; [| apply IH].
    destruct (NotificationChannel.Enabled channel); cbn [negb andb]; [| apply IH].
    unfold bind at 1. unfold SendTaskNotification. fold (supported channel).
    destruct (supported channel).
    + unfold bind at 1. unfold modify. cbn [ret app]. unfold deliver.
      cbn [fold_left]. apply IH.
    + cbn [ret app]. apply IH.
Qed.

(** X20.  [sendNotification] always returns.  It sends a notification, with
    the status it was given, to every channel that the task lists, that
    the store knows, that is enabled and that is of type [wechat] or
    [dingtalk], in the order of the list and once for every time the
    channel is listed; and it sends nothing else.  Nothing at all is
    sent when the task does not ask for notifications, when it asks for
    failures only and the status is another one, or when the list of
    channels cannot be read. *)
Theorem sendNotification_recipients (task : SyncTask.t) (status : string)
        (execution : Execution.t) (w : World) :
  sendNotification lib store task status execution w
  = (Returned tt,
     deliver status
             (if wanted task status
              then recipients store (channel_ids lib task) else [])
             w).
Proof.
  unfold sendNotification, wanted, channel_ids.
  destruct (SyncTask.SendNotification task); cbn [negb andb]; [| reflexivity].
  change (status_string StatusFailed) with "failed".
  destruct (String.eqb (SyncTask.NotificationCondition task) "failed" &&
            negb (String.eqb status "failed"))%bool; cbn [negb]; [reflexivity |].
  destruct (String.eqb (SyncTask.NotificationChannelIDs task) ""); cbn [negb].
  - reflexivity.
  - destruct (json_Unmarshal_uints lib _) as [ids | err]; [| reflexivity].
    destruct ids as [| id ids]; [reflexivity |].
    cbn [length]. rewrite Nat2Z.inj_succ.
    destruct (Z.eqb_spec (Z.succ (Z.of_nat (length ids))) 0) as [H0 | _]; [lia |].
    apply notify_channels_delivers.
Qed.

End Notify.

End notification_proofs.

(** ** internal/websocket: the hub keeps its clients in order *)

Module hub_proofs.
Import websocket.

(** Every registered client has an open channel, and no channel holds
    more than its capacity. *)
Definition healthy (h : Hub) : Prop :=
  (forall c, c ∈ clients h ->
             exists ch, heap h !! c = Some ch /\ closed ch = false) /\
  Forall (fun ch => (length (queue ch) <= capacity)%nat) (heap h).

(** What a broadcast of [message] does for the registered client [c]:
    the message is put behind those that wait, or, when the channel is
    full, the channel is closed and the client is no longer
    registered. *)
Definition served (message : string) (h h' : Hub) (c : nat) : Prop :=
  exists ch,
    heap h !! c = Some ch /\
    if (length (queue ch) <? capacity)%nat
    then c ∈ clients h' /\
         heap h' !! c = Some {| queue := queue ch ++ [message]; closed := false |}
    else (c ∉ clients h') /\
         heap h' !! c = Some {| queue := queue ch; closed := true |}.

(** Nothing changes for the client [c]. *)
Definition untouched (h h' : Hub) (c : nat) : Prop :=
  heap h' !! c = heap h !! c /\ (c ∈ clients h' <-> c ∈ clients h).

Lemma Forall_insert_channel (P : Channel -> Prop) (l : list Channel) c ch :
  Forall P l -> P ch -> Forall P (<[c := ch]> l).
Proof.
  intros Hl Hch. rewrite List.Forall_forall in *. intros x Hx.
  apply list_elem_of_In in Hx. apply list_elem_of_lookup in Hx.
  destruct Hx as [i Hi]. apply list_lookup_insert_Some in Hi.
  destruct Hi as [(_ & <- & _) | (_ & Hi)]; [exact Hch |].
  apply Hl. apply list_elem_of_In. now apply list_elem_of_lookup_2 in Hi.
Qed.

Lemma Forall_lookup_channel (P : Channel -> Prop) (l : list Channel) c ch :
  Forall P l -> l !! c = Some ch -> P ch.
Proof.
  intros Hl Hc. rewrite List.Forall_forall in Hl. apply Hl.
  apply list_elem_of_In. now apply list_elem_of_lookup_2 in Hc.
Qed.

Lemma offer_spec message c h :
  healthy h -> c ∈ clients h ->
  exists h',
    offer message c h = (Returned tt, h') /\
    healthy h' /\
    served message h h' c /\
    (forall c', c' <> c -> untouched h h' c').
Proof.
  intros [Hopen Hroom] Hc.
  destruct (Hopen c Hc) as (ch & Hch & Hclosed).
  pose proof (lookup_lt_Some _ _ _ Hch) as Hlt.
  pose proof (Forall_lookup_channel _ _ _ _ Hroom Hch) as Hlen.
  unfold offer. unfold bind at 1. unfold get. rewrite Hch, Hclosed.
  destruct (Nat.ltb_spec (length (queue ch)) capacity) as [Hfree | Hfull].
  - eexists. split; [reflexivity |].
    unfold healthy, served, untouched. cbn [clients heap].
    split; [split |]; [| | split].
    + intros c' Hc'. destruct (Nat.eq_dec c c') as [<- | Hne].
      * eexists. split; [now apply list_lookup_insert_eq | reflexivity].
      * rewrite list_lookup_insert_ne by exact Hne. now apply Hopen.
    + apply Forall_insert_channel; [exact Hroom |]. cbn [queue].
      rewrite length_app. cbn [length]. lia.
    + exists ch. split; [exact Hch |].
      destruct (Nat.ltb_spec (length (queue ch)) capacity); [| lia].
      cbn [clients heap]. split; [exact Hc | now apply list_lookup_insert_eq].
    + intros c' Hne. split; cbn [clients heap]; [| reflexivity].
      apply list_lookup_insert_ne. congruence.
  - unfold bind at 1. unfold close_send. rewrite Hch, Hclosed.
    unfold forget, modify. cbn [clients heap].
    eexists. split; [reflexivity |].
    unfold healthy, served, untouched. cbn [clients heap].
    split; [split |]; [| | split].
    + intros c' Hc'. apply elem_of_difference in Hc'. destruct Hc' as [Hc' Hne].
      rewrite elem_of_singleton in Hne.
      rewrite list_lookup_insert_ne by congruence. now apply Hopen.
    + apply Forall_insert_channel; [exact Hroom | exact Hlen].
    + exists ch. split; [exact Hch |].
      destruct (Nat.ltb_spec (length (queue ch)) capacity); [lia |].
      cbn [clients heap]. split; [| now apply list_lookup_insert_eq].
      rewrite elem_of_difference, elem_of_singleton. tauto.
    + intros c' Hne. split; cbn [clients heap].
      * apply list_lookup_insert_ne. congruence.
      * rewrite elem_of_difference, elem_of_singleton. tauto.
Qed.

Lemma offer_all_spec message cs :
  List.NoDup cs ->
  forall h,
    healthy h -> (forall c, In c cs -> c ∈ clients h) ->
    exists h',
      offer_all message cs h = (Returned tt, h') /\
      healthy h' /\
      (forall c, In c cs -> served message h h' c) /\
      (forall c, ~ In c cs -> untouched h h' c).
Proof.
  induction 1 as [| c cs Hnotin Hnodup IH]; intros h Hh Hreg.
  - exists h. split; [reflexivity |]. split; [exact Hh |].
    split; [intros c [] | intros c _; split; reflexivity].
  - cbn [offer_all].
    destruct (offer_spec message c h Hh (Hreg c (or_introl eq_refl)))
      as (h1 & E1 & Hh1 & Hserved & Hrest).
    rewrite (bind_returned _ _ _ _ _ E1).
    destruct (IH h1 Hh1) as (h2 & E2 & Hh2 & Hserved2 & Hrest2).
    { intros c' Hc'. apply (Hrest c'); [| apply Hreg; now right].
      intros ->. contradiction. }
    exists h2. split; [exact E2 |]. split; [exact Hh2 |]. split.
    + intros c' [<- | Hc'].
      * destruct Hserved as (ch & Hch & Hcase).
        destruct (Hrest2 c Hnotin) as [Hheap Hmem].
        exists ch. split; [exact Hch |].
        destruct (length (queue ch) <? capacity)%nat;
          destruct Hcase as [Hin Hnew]; rewrite Hheap, Hmem; now split.
      * assert (Hne : c' <> c) by (intros ->; contradiction).
        destruct (Hrest c' Hne) as [Hheap Hmem].
        destruct (Hserved2 c' Hc') as (ch & Hch & Hcase).
        exists ch. rewrite <- Hheap. now split.
    + intros c' Hnot.
      assert (Hne : c' <> c) by (intros ->; apply Hnot; now left).
      assert (Hnot' : ~ In c' cs) by (intros Hin; apply Hnot; now right).
      destruct (Hrest c' Hne) as [Hheap Hmem].
      destruct (Hrest2 c' Hnot') as [Hheap2 Hmem2].
      split; [congruence | now rewrite Hmem2].
Qed.

Lemma on_broadcast_spec (message : string) (h : Hub) :
  healthy h ->
  exists h',
    on_broadcast message h = (Returned tt, h') /\
    healthy h' /\
    (forall c, c ∈ clients h -> served message h h' c) /\
    (forall c, c ∉ clients h -> untouched h h' c).
Proof.
  intros Hh. unfold on_broadcast. unfold bind at 1. unfold get.
  destruct (offer_all_spec message (elements (clients h))) with (h := h)
    as (h' & E & Hh' & Hserved & Hrest).
  - apply NoDup_ListNoDup, NoDup_elements.
  - exact Hh.
  - intros c Hc. apply list_elem_of_In in Hc. now apply elem_of_elements in Hc.
  - exists h'. split; [exact E |]. split; [exact Hh' |]. split.
    + intros c Hc. apply Hserved. apply list_elem_of_In.
      now apply elem_of_elements.
    + intros c Hc. apply Hrest. intros Hin. apply Hc.
      apply list_elem_of_In in Hin. now apply elem_of_elements in Hin.
Qed.

(** X21.  On a hub in order, a broadcast returns: every registered client
    with room in its channel gets the message behind those it has not
    read yet and stays registered; every registered client whose channel
    is full is closed and dropped, without the message; nothing changes
    for a client that is not registered; and the hub is in order
    again. *)
Theorem broadcast_reaches_or_drops (message : string) (h : Hub) :
  healthy h ->
  exists h',
    on_broadcast message h = (Returned tt, h') /\
    healthy h' /\
    (forall c, c ∈ clients h -> served message h h' c) /\
    (forall c, c ∉ clients h -> untouched h h' c).
Proof. apply on_broadcast_spec. Qed.

Lemma act_healthy (a : Action) (h : Hub) :
  healthy h -> exists h', act a h = (Returned tt, h') /\ healthy h'.
Proof.
  intros Hh. destruct a as [| c | message | c]; cbn [act].
  - (* a connection *)
    unfold bind, NewClient, on_register, modify. cbn [clients heap].
    eexists. split; [reflexivity |]. destruct Hh as [Hopen Hroom].
    unfold healthy. cbn [clients heap]. split.
    + intros c Hc. apply elem_of_union in Hc.
      destruct Hc as [Hc | Hc].
      * apply elem_of_singleton in Hc. subst c.
        exists {| queue := []; closed := false |}. split; [| reflexivity].
        rewrite lookup_app_r by lia. now rewrite Nat.sub_diag.
      * destruct (Hopen c Hc) as (ch & Hch & Hclosed).
        exists ch. split; [| exact Hclosed].
        rewrite lookup_app_l; [exact Hch |]. now apply lookup_lt_Some in Hch.
    + cbn [clients heap]. apply Forall_app. split; [exact Hroom |].
      constructor; [cbn; unfold capacity; lia | constructor].
  - (* the end of a read pump *)
    unfold on_unregister. unfold bind at 1. unfold get.
    destruct (decide (c ∈ clients h)) as [Hc | Hc];
      [| exists h; split; [reflexivity | exact Hh]].
    destruct Hh as [Hopen Hroom].
    destruct (Hopen c Hc) as (ch & Hch & Hclosed).
    unfold bind, forget, modify, close_send. cbn [clients heap].
    rewrite Hch, Hclosed. eexists. split; [reflexivity |].
    unfold healthy. cbn [clients heap]. split.
    + intros c' Hc'.
      apply elem_of_difference in Hc'. destruct Hc' as [Hc' Hne].
      rewrite elem_of_singleton in Hne.
      rewrite list_lookup_insert_ne by congruence. now apply Hopen.
    + cbn [clients heap]. apply Forall_insert_channel; [exact Hroom |].
      exact (Forall_lookup_channel _ _ _ _ Hroom Hch).
  - (* a broadcast *)
    destruct (on_broadcast_spec message h Hh) as (h' & E & Hh' & _).
    now exists h'.
  - (* a write pump takes a message *)
    unfold bind at 1. unfold receive.
    destruct (heap h !! c) as [ch |] eqn:Hch;
      [| exists h; split; [reflexivity | exact Hh]].
    destruct (queue ch) as [| message rest] eqn:Hq;
      [exists h; split; [reflexivity | exact Hh] |].
    eexists. split; [reflexivity |]. destruct Hh as [Hopen Hroom].
    unfold healthy. cbn [clients heap]. split.
    + intros c' Hc'.
      destruct (Hopen c' Hc') as (ch' & Hch' & Hclosed').
      destruct (Nat.eq_dec c c') as [<- | Hne].
      * rewrite Hch in Hch'. inversion Hch'; subst ch'.
        eexists. split; [apply list_lookup_insert_eq;
                         now apply lookup_lt_Some in Hch | exact Hclosed'].
      * exists ch'. rewrite list_lookup_insert_ne by exact Hne. now split.
    + cbn [clients heap]. apply Forall_insert_channel; [exact Hroom |].
      pose proof (Forall_lookup_channel _ _ _ _ Hroom Hch) as Hlen.
      cbv beta in Hlen. cbn [queue]. rewrite Hq in Hlen. cbn [length] in Hlen. lia.
Qed.

Lemma NewHub_healthy : healthy NewHub.
Proof. split; [intros c Hc; now apply elem_of_empty in Hc | constructor]. Qed.

Lemma run_healthy (actions : list Action) :
  forall h, healthy h ->
            exists h', run actions h = (Returned tt, h') /\ healthy h'.
Proof.
  induction actions as [| a actions IH]; intros h Hh; cbn [run].
  - now exists h.
  - destruct (act_healthy a h Hh) as (h1 & E1 & Hh1).
    rewrite (bind_returned _ _ _ _ _ E1). now apply IH.
Qed.

(** X22.  Whatever the connections, the ends of connections, the broadcasts
    and the deliveries, and in whatever order they come, the hub never
    panics: it never sends on a closed channel and never closes a
    channel twice.  No channel ever holds more than 256 messages. *)
Theorem hub_never_panics (actions : list Action) :
  exists h, run actions NewHub = (Returned tt, h) /\ healthy h.
Proof. apply run_healthy, NewHub_healthy. Qed.

(** Two clients are connected. *)
Definition two_clients : Hub := snd (run [Connect; Connect] NewHub).

Lemma two_clients_healthy : healthy two_clients.
Proof.
  destruct (run_healthy [Connect; Connect] NewHub NewHub_healthy)
    as (h & E & Hh).
  unfold two_clients. now rewrite E.
Defined.

Lemma broadcast_reaches_or_drops_witness :
  exists h',
    on_broadcast "progress" two_clients = (Returned tt, h') /\
    healthy h' /\
    (forall c, c ∈ clients two_clients -> served "progress" two_clients h' c) /\
    (forall c, c ∉ clients two_clients -> untouched two_clients h' c).
Proof.
  exact (broadcast_reaches_or_drops "progress" two_clients two_clients_healthy).
Defined.

(** [Register] is not meant for a client the hub has dropped: the
    channel of that client is closed, and the broadcast that follows
    panics. *)
Example broadcast_after_second_register_panics :
  exists h,
    (act Connect ;;; act (Leave 0) ;;; on_register 0%nat ;;;
     on_broadcast "progress") NewHub
    = (Panicked "send on closed channel", h).
Proof. eexists. vm_compute. reflexivity. Qed.

End hub_proofs.

(** ** pkg/config: the configurations [Validate] accepts *)

Module config_proofs.
Import GoString config.

Definition compilable (lib : Lib) (pattern : string) : Prop :=
  exists re, regexp_Compile lib pattern = Ok re.

Definition valid_rule (lib : Lib) (c : Config.t) (rule : SyncRule.t) : Prop :=
  SyncRule.Name rule <> "" /\
  is_Some (Config.Registries c !! SyncRule.Source_Registry rule) /\
  is_Some (Config.Registries c !! SyncRule.Target_Registry rule) /\
  SyncRule.Source_Repository rule <> "" /\
  SyncRule.Target_Repository rule <> "" /\
  Forall (compilable lib) (TagFilter.Include (SyncRule.Tags rule)) /\
  Forall (compilable lib) (TagFilter.Exclude (SyncRule.Tags rule)).

Definition valid (lib : Lib) (c : Config.t) : Prop :=
  Config.Registries c <> ∅ /\
  (forall name reg, Config.Registries c !! name = Some reg ->
                    Registry.URL reg <> "") /\
  Forall (valid_rule lib c) (Config.SyncRules c).

Lemma validate_patterns_None lib rule kind patterns :
  validate_patterns lib rule kind patterns = None <->
  Forall (compilable lib) patterns.
Proof.
  induction patterns as [| pattern patterns IH]; cbn [validate_patterns].
  - split; [constructor | reflexivity].
  - destruct (regexp_Compile lib pattern) as [re | err] eqn:Hre.
    + rewrite IH. split.
      * intros Hrest. constructor; [now exists re | exact Hrest].
      * intros Hall. now inversion Hall.
    + split; [discriminate |]. intros Hall. inversion Hall as [| ? ? [re Hok] _].
      subst. congruence.
Qed.

Lemma defined_is_Some c name :
  defined c name = true <-> is_Some (Config.Registries c !! name).
Proof.
  unfold defined. destruct (Config.Registries c !! name) as [reg |].
  - split; [intros _; now exists reg | reflexivity].
  - split; [discriminate | intros [reg Hreg]; discriminate].
Qed.

Lemma validate_rules_None lib c rules :
  forall i, validate_rules lib c i rules = None <->
            Forall (valid_rule lib c) rules.
Proof.
  induction rules as [| rule rules IH]; intros i; cbn [validate_rules].
  - split; [constructor | reflexivity].
  - assert (Hbad : forall err : error,
               ~ valid_rule lib c rule ->
               Some err = None <-> Forall (valid_rule lib c) (rule :: rules)).
    { intros err Hnot. split; [discriminate |].
      intros Hall. inversion Hall. contradiction. }
    destruct (String.eqb_spec (SyncRule.Name rule) "") as [Hname | Hname];
      [apply Hbad; intros (H & _); contradiction |].
    destruct (defined c (SyncRule.Source_Registry rule)) eqn:Hsrc; cbn [negb].
    2:{ apply Hbad. intros (_ & H & _). apply defined_is_Some in H. congruence. }
    destruct (defined c (SyncRule.Target_Registry rule)) eqn:Htgt; cbn [negb].
    2:{ apply Hbad. intros (_ & _ & H & _). apply defined_is_Some in H.
        congruence. }
    destruct (String.eqb_spec (SyncRule.Source_Repository rule) "") as [Hsr | Hsr];
      [apply Hbad; intros (_ & _ & _ & H & _); contradiction |].
    destruct (String.eqb_spec (SyncRule.Target_Repository rule) "") as [Htr | Htr];
      [apply Hbad; intros (_ & _ & _ & _ & H & _); contradiction |].
    destruct (validate_patterns lib (SyncRule.Name rule) "include" _)
      as [err |] eqn:Hinc.
    { apply Hbad. intros (_ & _ & _ & _ & _ & H & _).
      apply (validate_patterns_None lib (SyncRule.Name rule) "include") in H.
      congruence. }
    destruct (validate_patterns lib (SyncRule.Name rule) "exclude" _)
      as [err |] eqn:Hexc.
    { apply Hbad. intros (_ & _ & _ & _ & _ & _ & H).
      apply (validate_patterns_None lib (SyncRule.Name rule) "exclude") in H.
      congruence. }
    rewrite IH. apply validate_patterns_None in Hinc, Hexc.
    apply defined_is_Some in Hsrc, Htgt.
    split.
    + intros Hrest. constructor; [| exact Hrest]. now repeat split.
    + intros Hall. now inversion Hall.
Qed.

Lemma first_without_URL_None registries :
  first_without_URL registries = None <->
  forall name reg, In (name, reg) registries -> Registry.URL reg <> "".
Proof.
  induction registries as [| [name reg] registries IH]; cbn [first_without_URL].
  - split; [intros _ name reg [] | reflexivity].
  - destruct (String.eqb_spec (Registry.URL reg) "") as [Hurl | Hurl].
    + split; [discriminate |]. intros Hall. exfalso.
      apply (Hall name reg); [now left | exact Hurl].
    + rewrite IH. split.
      * intros Hrest n r [Heq | Hin]; [now inversion Heq; subst | now apply (Hrest n)].
      * intros Hall n r Hin. apply (Hall n). now right.
Qed.

(** X23.  [Validate] returns nil exactly for a configuration that defines at
    least one registry, gives every registry a URL, and whose rules all
    have a name, a source and a target registry that are defined, a
    source and a target repository, and include and exclude patterns
    that compile.  Nothing else is looked at: a rule may be disabled,
    two rules may bear the same name, and the numbers of the global
    settings may be anything. *)
Theorem Validate_accepts (lib : Lib) (c : Config.t) :
  Validate lib c = None <-> valid lib c.
Proof.
  unfold Validate, valid.
  destruct (Z.eqb_spec (Z.of_nat (size (Config.Registries c))) 0) as [H0 | H0].
  - split; [discriminate |]. intros (Hne & _). exfalso. apply Hne.
    apply map_size_empty_iff. lia.
  - assert (Hne : Config.Registries c <> ∅).
    { intros Hempty. apply H0. rewrite Hempty, map_size_empty. reflexivity. }
    destruct (first_without_URL (map_to_list (Config.Registries c)))
      as [name |] eqn:Hfirst.
    + split; [discriminate |]. intros (_ & Hurl & _). exfalso.
      assert (Hnone : first_without_URL (map_to_list (Config.Registries c)) = None).
      { apply first_without_URL_None. intros n r Hin. apply (Hurl n).
        apply elem_of_map_to_list. now apply list_elem_of_In. }
      congruence.
    + rewrite validate_rules_None. split.
      * intros Hrules. split; [exact Hne |]. split; [| exact Hrules].
        intros n r Hin.
        apply (proj1 (first_without_URL_None _) Hfirst n r).
        apply list_elem_of_In. now apply elem_of_map_to_list.
      * now intros (_ & _ & Hrules).
Qed.

End config_proofs.

(** ** pkg/sync/engine.go: a dry run only reads *)

Module dry_run.
Import GoString registry registry_proofs rules.

(** From [w] to [w'] nothing happened but requests with the method GET. *)
Definition only_read (w w' : World) : Prop :=
  exists xs,
    wire w' = wire w ++ xs /\
    Forall (fun x => Method (Sent x) = "GET") xs /\
    slept w' = slept w /\ journal w' = journal w /\ notices w' = notices w.

Lemma only_read_refl w : only_read w w.
Proof. exists []. rewrite app_nil_r. repeat split. constructor. Qed.

Lemma only_read_trans w1 w2 w3 :
  only_read w1 w2 -> only_read w2 w3 -> only_read w1 w3.
Proof.
  intros (xs & Hw & Hxs & Hs & Hj & Hn) (ys & Hw' & Hys & Hs' & Hj' & Hn').
  exists (xs ++ ys). rewrite Hw', Hw, <- app_assoc.
  split; [reflexivity |]. split; [now apply Forall_app |].
  repeat split; congruence.
Qed.

Lemma only_read_exchanges xs w :
  Forall (fun x => Method (Sent x) = "GET") xs ->
  only_read w (add_exchanges xs w).
Proof. intros Hxs. exists xs. now repeat split. Qed.

Section Reads.
Context `{SliceSorter} (lib : Lib) (env : Env).

Lemma PingCheck_reads c w :
  exists r w', PingCheck lib env c w = (Returned r, w') /\ only_read w w'.
Proof.
  unfold PingCheck.
  destruct (http_NewRequest_err lib "GET" _) as [err |];
    [eexists _, w; split; [reflexivity | apply only_read_refl] |].
  match goal with |- context [Do lib env ?req] =>
    destruct (Do_spec lib env req w) as [rt [[E [e He]] | E]]
  end.
  - rewrite (bind_returned _ _ _ _ _ E), He.
    eexists _, w. split; [reflexivity | apply only_read_refl].
  - rewrite (bind_returned _ _ _ _ _ E).
    assert (Hread : only_read w (add_exchanges
                      [{| Sent := {| Method := "GET"; URL := BaseURL c +:+ "/v2/";
                                     Header := []; Auth := None; Body := "" |};
                          Got := rt |}] w))
      by (apply only_read_exchanges; repeat constructor).
    destruct (Reply rt) as [resp | err]; [| eauto].
    destruct (_ || _)%bool; eauto.
Qed.

Lemma ListTags_reads c repository w :
  exists r w', ListTags lib env c repository w = (Returned r, w') /\
               only_read w w'.
Proof.
  unfold ListTags.
  destruct (doRequest_spec lib env c "GET"
              ("/v2/" +:+ repository +:+ "/tags/list") None [] w)
    as (r & xs & E & Hall & _).
  rewrite (bind_returned _ _ _ _ _ E). clear E.
  assert (Hread : only_read w (add_exchanges xs w)).
  { apply only_read_exchanges. eapply List.Forall_impl; [| exact Hall].
    intros x [(Hm & _) | Hm]; exact Hm. }
  destruct r as [resp | err]; [| eauto].
  destruct (negb _); eauto.
Qed.

Lemma tag_infos_reads tags :
  forall w, exists infos w',
    scheduler.tag_infos env tags w = (Returned infos, w') /\ only_read w w'.
Proof.
  induction tags as [| tag tags IH]; intros w; cbn [scheduler.tag_infos].
  - exists [], w. split; [reflexivity | apply only_read_refl].
  - unfold bind at 1. unfold scheduler.Now at 1.
    destruct (IH (add_tick w)) as (infos & w' & E & Hread).
    unfold bind at 1. rewrite E. cbn [ret].
    eexists _, w'. split; [reflexivity |].
    apply (only_read_trans w (add_tick w) w'); [| exact Hread].
    exists []. rewrite app_nil_r. repeat split. constructor.
Qed.

Lemma SyncRule_reads e rule w :
  engine.dryRun (core e) = true ->
  exists r w', SyncRule lib env e rule w = (Returned r, w') /\ only_read w w'.
Proof.
  intros Hdry. unfold SyncRule.
  destruct (config.GetRegistry (cfg e) _) as [sourceReg | err];
    [| eexists _, w; split; [reflexivity | apply only_read_refl]].
  destruct (config.GetRegistry (cfg e) _) as [targetReg | err];
    [| eexists _, w; split; [reflexivity | apply only_read_refl]].
  destruct (PingCheck_reads (client_of sourceReg) w) as (p1 & w1 & E1 & R1).
  rewrite (bind_returned _ _ _ _ _ E1).
  destruct p1 as [err |]; [eauto |].
  destruct (PingCheck_reads (client_of targetReg) w1) as (p2 & w2 & E2 & R2).
  rewrite (bind_returned _ _ _ _ _ E2).
  pose proof (only_read_trans _ _ _ R1 R2) as R12.
  destruct p2 as [err |]; [eauto |].
  destruct (ListTags_reads (client_of sourceReg)
              (config.SyncRule.Source_Repository rule) w2)
    as (r3 & w3 & E3 & R3).
  rewrite (bind_returned _ _ _ _ _ E3).
  pose proof (only_read_trans _ _ _ R12 R3) as R123.
  destruct r3 as [tags | err]; [| eauto].
  destruct (filter.NewFilter lib _ _ _) as [tagFilter | err]; [| eauto].
  destruct (tag_infos_reads tags w3) as (infos & w4 & E4 & R4).
  rewrite (bind_returned _ _ _ _ _ E4).
  pose proof (only_read_trans _ _ _ R123 R4) as Rall.
  destruct (Z.of_nat _ =? 0); [eauto |].
  rewrite Hdry. eauto.
Qed.

Lemma sync_rules_reads e rules :
  engine.dryRun (core e) = true ->
  forall w, exists r w',
    sync_rules lib env e rules w = (Returned r, w') /\ only_read w w'.
Proof.
  intros Hdry. induction rules as [| rule rules IH]; intros w; cbn [sync_rules].
  - exists None, w. split; [reflexivity | apply only_read_refl].
  - destruct (SyncRule_reads e rule w Hdry) as (r & w1 & E & R).
    rewrite (bind_returned _ _ _ _ _ E).
    destruct r as [err |]; [eauto |].
    destruct (IH w1) as (r' & w2 & E' & R').
    exists r', w2. split; [exact E' |]. eapply only_read_trans; eassumption.
Qed.

(** X24.  An engine made for a dry run never writes: whatever the
    configuration and the registries, [SyncAll] returns, and all it has
    sent are requests with the method GET (the pings, the tag lists and
    the token requests they lead to).  No blob is looked for, no
    manifest is fetched or pushed, and there is no wait. *)
Theorem SyncAll_dry_run_only_reads (c : config.Config.t) (w : World) :
  exists r w',
    SyncAll lib env (NewEngine c true) w = (Returned r, w') /\
    exists xs,
      wire w' = wire w ++ xs /\
      Forall (fun x => Method (Sent x) = "GET") xs /\
      slept w' = slept w.
Proof.
  unfold SyncAll.
  destruct (Z.of_nat _ =? 0).
  - eexists _, w. split; [reflexivity |]. exists []. rewrite app_nil_r.
    repeat split. constructor.
  - destruct (sync_rules_reads (NewEngine c true)
                (config.GetEnabledRules (cfg (NewEngine c true)))
                eq_refl w)
      as (r & w' & E & xs & Hw & Hxs & Hs & _).
    exists r, w'. split; [exact E |]. now exists xs.
Qed.

End Reads.
End dry_run.

(** ** internal/scheduler/scheduler.go: what the total counts *)

Module plan_proofs.
Import GoString registry registry_proofs models scheduler scheduler_proofs.

(** The wire of [w'] continues the wire of [w]. *)
Definition later (w w' : World) : Prop := exists xs, wire w' = wire w ++ xs.

(** [w'] is [w] with lines added to the log of the execution. *)
Definition logged (w w' : World) : Prop :=
  exists lines,
    w' = {| wire := wire w; slept := slept w;
            journal := journal w ++ lines;
            notices := notices w; ticks := ticks w |}.

Lemma later_refl w : later w w.
Proof. exists []. now rewrite app_nil_r. Qed.

Lemma later_trans w1 w2 w3 : later w1 w2 -> later w2 w3 -> later w1 w3.
Proof.
  intros [xs Hxs] [ys Hys]. exists (xs ++ ys).
  now rewrite Hys, Hxs, app_assoc.
Qed.

Lemma later_exchanges xs w : later w (add_exchanges xs w).
Proof. exists xs. apply wire_add_exchanges. Qed.

Lemma logged_later w w' : logged w w' -> later w w'.
Proof. intros [lines ->]. exists []. cbn. now rewrite app_nil_r. Qed.

Lemma logged_one level message w : logged w (add_log level message w).
Proof. now exists [(level, message)]. Qed.

Lemma logged_trans w1 w2 w3 : logged w1 w2 -> logged w2 w3 -> logged w1 w3.
Proof.
  intros [l1 ->] [l2 ->]. exists (l1 ++ l2). cbn. now rewrite app_assoc.
Qed.

Section Plan.
Context `{SliceSorter} (lib : Lib) (env : Env).

(** The entry of a plan holds a manifest this run fetched: [GetManifest]
    returned it for the tag of the entry, in a world between [before]
    and [after]. *)
Definition fetched (c : Client) (before after : World) (rt : repoTagInfo)
  : Prop :=
  exists wa wb,
    later before wa /\ later wb after /\
    GetManifest lib env c (sourceRepo rt) (tag rt) wa
    = (Returned (Ok (manifest rt)), wb).

Lemma fetched_weaken c w1 w2 w3 w4 rt :
  later w1 w2 -> later w3 w4 -> fetched c w2 w3 rt -> fetched c w1 w4 rt.
Proof.
  intros H12 H34 (wa & wb & Ha & Hb & E). exists wa, wb.
  split; [eapply later_trans; eassumption |].
  split; [eapply later_trans; eassumption | exact E].
Qed.

Lemma GetManifest_later c repository reference w r w' :
  GetManifest lib env c repository reference w = (Returned r, w') ->
  later w w'.
Proof.
  unfold GetManifest. intros E.
  destruct (doRequest_spec lib env c "GET"
              ("/v2/" +:+ repository +:+ "/manifests/" +:+ reference) None
              [("Accept", buildAcceptHeader)] w) as (r0 & xs & E0 & _).
  rewrite (bind_returned _ _ _ _ _ E0) in E.
  assert (Hw : w' = add_exchanges xs w).
  { destruct r0 as [resp | err]; [| now inversion E].
    destruct (negb _); [now inversion E |].
    destruct (io_ReadAll resp); [| now inversion E].
    destruct (json_Unmarshal_Manifest lib _); now inversion E. }
  subst w'. apply later_exchanges.
Qed.

Lemma ListTags_later c repository w r w' :
  ListTags lib env c repository w = (Returned r, w') -> later w w'.
Proof.
  unfold ListTags. intros E.
  destruct (doRequest_spec lib env c "GET"
              ("/v2/" +:+ repository +:+ "/tags/list") None [] w)
    as (r0 & xs & E0 & _).
  rewrite (bind_returned _ _ _ _ _ E0) in E.
  assert (Hw : w' = add_exchanges xs w).
  { destruct r0 as [resp | err]; [| now inversion E].
    destruct (negb _); now inversion E. }
  subst w'. apply later_exchanges.
Qed.

Lemma tag_infos_later tags :
  forall w infos w',
    tag_infos env tags w = (Returned infos, w') -> later w w'.
Proof.
  induction tags as [| tag tags IH]; intros w infos w' E; cbn [tag_infos] in E.
  - unret E. apply later_refl.
  - unbind E as now w1 Hnow. unbind E as rest w2 Hrest. unret E.
    unfold Now in Hnow. inversion Hnow; subst.
    apply IH in Hrest. destruct Hrest as [xs Hxs]. now exists xs.
Qed.

Lemma log_later level message u w w' :
  CreateExecutionLog level message w = (Returned u, w') -> later w w'.
Proof.
  intros E. apply modify_inv in E. subst w'.
  apply logged_later, logged_one.
Qed.

(** The loop over the tags adds to the plan the manifests it fetches,
    in the order of the tags, and to the total their descriptors. *)
Lemma plan_tags_fetched c task repo path tags :
  forall acc total w acc' total' w',
    plan_tags lib env c task repo path tags acc total w
    = (Returned (acc', total'), w') ->
    later w w' /\
    exists new, acc' = acc ++ new /\ Forall (fetched c w w') new.
Proof.
  induction tags as [| tag tags IH]; intros acc total w acc' total' w' E.
  - cbn [plan_tags] in E. unret E. inversion H0; subst.
    split; [apply later_refl |]. exists []. now rewrite app_nil_r.
  - cbn [plan_tags] in E. unbind E as r w1 Hr.
    pose proof (GetManifest_later _ _ _ _ _ _ Hr) as H1.
    destruct r as [m | err].
    + apply IH in E. destruct E as (H2 & new & -> & Hnew).
      split; [eapply later_trans; eassumption |].
      eexists (_ :: new). rewrite <- app_assoc. split; [reflexivity |].
      constructor.
      * exists w, w1. split; [apply later_refl |]. split; [exact H2 |].
        exact Hr.
      * eapply List.Forall_impl; [| exact Hnew]. intros rt.
        apply fetched_weaken; [exact H1 | apply later_refl].
    + unbind E as u w2 Hu. apply log_later in Hu.
      apply IH in E. destruct E as (H2 & new & -> & Hnew).
      assert (H12 : later w w2) by (eapply later_trans; eassumption).
      split; [eapply later_trans; eassumption |].
      exists new. split; [reflexivity |].
      eapply List.Forall_impl; [| exact Hnew]. intros rt.
      apply fetched_weaken; [exact H12 | apply later_refl].
Qed.

Lemma plan_repositories_fetched c task repos :
  forall acc total w acc' total' w',
    plan_repositories lib env c task repos acc total w
    = (Returned (acc', total'), w') ->
    later w w' /\
    exists new, acc' = acc ++ new /\ Forall (fetched c w w') new.
Proof.
  induction repos as [| repo repos IH]; intros acc total w acc' total' w' E.
  - cbn [plan_repositories] in E. unret E. inversion H0; subst.
    split; [apply later_refl |]. exists []. now rewrite app_nil_r.
  - cbn [plan_repositories] in E. unbind E as r w1 Hr.
    apply ListTags_later in Hr.
    assert (Hskip : forall w2,
               later w1 w2 ->
               plan_repositories lib env c task repos acc total w2
               = (Returned (acc', total'), w') ->
               later w w' /\
               exists new, acc' = acc ++ new /\ Forall (fetched c w w') new).
    { intros w2 H2 E2. apply IH in E2.
      destruct E2 as (H3 & new & -> & Hnew).
      assert (H12 : later w w2) by (eapply later_trans; eassumption).
      split; [eapply later_trans; eassumption |].
      exists new. split; [reflexivity |].
      eapply List.Forall_impl; [| exact Hnew]. intros rt.
      apply fetched_weaken; [exact H12 | apply later_refl]. }
    destruct r as [tags | err].
    + destruct (filter.NewFilter _ _ _ _) as [tagFilter | err].
      * unbind E as infos w2 Hinfos. apply tag_infos_later in Hinfos.
        unbind E as p w3 Hp. destruct p as [acc1 total1].
        apply plan_tags_fetched in Hp. destruct Hp as (H3 & new1 & -> & Hnew1).
        cbn [fst snd] in E. apply IH in E.
        destruct E as (H4 & new2 & -> & Hnew2).
        assert (H12 : later w w2) by (eapply later_trans; eassumption).
        assert (H13 : later w w3) by (eapply later_trans; eassumption).
        split; [eapply later_trans; eassumption |].
        exists (new1 ++ new2). rewrite app_assoc. split; [reflexivity |].
        apply Forall_app. split.
        -- eapply List.Forall_impl; [| exact Hnew1]. intros rt.
           apply fetched_weaken; [exact H12 | exact H4].
        -- eapply List.Forall_impl; [| exact Hnew2]. intros rt.
           apply fetched_weaken; [exact H13 | apply later_refl].
      * unbind E as u w2 Hu. apply log_later in Hu.
        now apply (Hskip w2).
    + unbind E as u w2 Hu. apply log_later in Hu.
      now apply (Hskip w2).
Qed.

(** C6, as amended.  Let [runTask] return without error.  Its first
    part has handed on the two clients and the repositories in a world
    [w1]; from there, a log line apart, the planning loop has run, and
    the plan it returned is the one the second loop then synchronised.
    Every entry of the plan holds a manifest that [GetManifest] returned
    to the planning loop of this run, and the total stored in the
    execution is the number of descriptors of these manifests (the
    config when its digest is not empty, and every layer), each entry
    counted for itself: nothing is deduplicated, neither between
    manifests nor within one. *)
Theorem runTask_TotalBlobs (store : Store) (fuel : nat) task e w e' w' :
  runTask lib env store fuel task e w = (Returned (e', None), w') ->
  exists sourceClient targetClient repositories plan w1 w1' w2 w2' w3,
    prepare lib env store fuel task w
    = (Returned (Ok (sourceClient, targetClient, repositories)), w1) /\
    logged w1 w1' /\
    plan_repositories lib env sourceClient task repositories [] 0 w1'
    = (Returned (plan, Execution.TotalBlobs e'), w2) /\
    Forall (fetched sourceClient w1' w2) plan /\
    Execution.TotalBlobs e'
    = Z.of_nat (list_sum
                  (map (fun rt => length (GetAllBlobs (manifest rt))) plan)) /\
    logged w2 w2' /\
    sync_tags lib env sourceClient targetClient (length plan) 0 "" plan
              (Execution.set_TotalBlobs (Execution.TotalBlobs e') e) w2'
    = (Returned e', w3) /\
    logged w3 w'.
Proof.
  unfold runTask. intros E.
  unbind E as ready w1 Hready.
  destruct ready as [[[sourceClient targetClient] repositories] | err];
    [| unret E; discriminate].
  unbind E as u1 w1' Hu1. apply modify_inv in Hu1.
  unbind E as plan w2 Hplan. destruct plan as [plan total].
  cbn [fst snd] in E.
  unbind E as u2 w2' Hu2. apply modify_inv in Hu2.
  unbind E as e1 w3 He1.
  unbind E as u3 w4 Hu3. apply modify_inv in Hu3.
  apply ret_inv in E. destruct E as [E Hw']. inversion E; subst e1. clear E.
  pose proof He1 as Htotal. apply sync_tags_TotalBlobs in Htotal.
  cbn in Htotal. subst total.
  pose proof Hplan as Hsum. apply plan_repositories_total in Hsum.
  destruct Hsum as [new [Hnew Hsum]]. cbn [app] in Hnew. subst new.
  pose proof Hplan as Hfetched. apply plan_repositories_fetched in Hfetched.
  destruct Hfetched as (_ & new & Hnew & Hfetched). cbn [app] in Hnew.
  subst new.
  exists sourceClient, targetClient, repositories, plan, w1, w1', w2, w2', w3.
  split; [exact Hready |].
  split; [rewrite Hu1; apply logged_one |].
  split; [exact Hplan |].
  split; [exact Hfetched |].
  split.
  { rewrite Hsum. f_equal. unfold blobs_of. rewrite flat_map_concat_map.
    rewrite length_concat, map_map. reflexivity. }
  split; [rewrite Hu2; apply logged_one |].
  split; [exact He1 |].
  rewrite <- Hw', Hu3. apply logged_one.
Qed.

End Plan.

(** Two tags of one repository, both on the manifest of
    [library/nginx]: the run of [rule_run]. *)
Lemma runTask_TotalBlobs_witness :
  exists sourceClient targetClient repositories plan w1 w1' w2 w2' w3,
    prepare (rule_run.lib ["1.25.0"; "stable"]) rule_run.shared_env
            rule_run.store 3 rule_run.task initial_world
    = (Returned (Ok (sourceClient, targetClient, repositories)), w1) /\
    logged w1 w1' /\
    plan_repositories (rule_run.lib ["1.25.0"; "stable"]) rule_run.shared_env
                      sourceClient rule_run.task repositories [] 0 w1'
    = (Returned (plan, Execution.TotalBlobs rule_run.shared_final), w2) /\
    Forall (fetched (rule_run.lib ["1.25.0"; "stable"]) rule_run.shared_env
                    sourceClient w1' w2) plan /\
    Execution.TotalBlobs rule_run.shared_final
    = Z.of_nat (list_sum
                  (map (fun rt => length (GetAllBlobs (manifest rt))) plan)) /\
    logged w2 w2' /\
    sync_tags (rule_run.lib ["1.25.0"; "stable"]) rule_run.shared_env
              sourceClient targetClient (length plan) 0 "" plan
              (Execution.set_TotalBlobs
                 (Execution.TotalBlobs rule_run.shared_final)
                 rule_run.execution) w2'
    = (Returned rule_run.shared_final, w3) /\
    logged w3 (snd rule_run.shared_run).
Proof.
  exact (runTask_TotalBlobs
           (rule_run.lib ["1.25.0"; "stable"]) rule_run.shared_env
           rule_run.store 3 rule_run.task rule_run.execution initial_world
           rule_run.shared_final (snd rule_run.shared_run)
           rule_run.shared_run_returns).
Defined.

End plan_proofs.

(** ** A retry policy without attempts *)

Module no_attempts.
Import GoString retry registry engine.

Section Execute.
Context (lib : Lib) (env : Env).

(** X25.  Nothing checks that the number of attempts is positive; the
    defaults of the configuration only replace a zero.  With a number
    that is zero or negative, a blob that the target does not have is
    never copied: after the existence check [Execute] returns the error
    of a retry loop that made no attempt, without a request to the
    source. *)
Theorem Execute_without_attempts (t : BlobSyncTask) (w w1 : World)
        (size : Z) (d : string) :
  MaxAttempts (RetryConfig_ t) <= 0 ->
  BlobExists lib env (Target t) (TargetRepo t) (Digest t) w
  = (Returned (Ok (false, size)), w1) ->
  Digest12 t = Returned d ->
  Execute lib env t w
  = (Returned
       (Some (Errorf (("failed to copy blob " +:+ d +:+ ": ")
                      +:+ (("max retries (" +:+ itoa (MaxAttempts (RetryConfig_ t))
                            +:+ ") exceeded: ") +:+ "%!w(<nil>)")))),
     w1).
Proof.
  intros Hmax Hhead Hd. unfold Execute.
  rewrite (bind_returned _ _ _ _ _ Hhead). cbv beta iota.
  rewrite Hd. unfold bind at 1. unfold eval at 1.
  unfold RetryWithBackoff.
  replace (Z.to_nat (MaxAttempts (RetryConfig_ t))) with 0%nat by lia.
  cbn [retry_loop]. unfold bind at 1. unfold ret at 1.
  unfold bind at 1. unfold eval at 1. reflexivity.
Qed.

End Execute.

(** The layer of [download_503], under a policy of no attempts. *)
Definition task : BlobSyncTask :=
  {| Source := scenario.source; Target := scenario.target;
     SourceRepo := "library/nginx"; TargetRepo := "mirror/nginx";
     Digest := scenario.layer_digest; Size := 12345678;
     RetryConfig_ := {| MaxAttempts := -1; InitialInterval := 1 * Second;
                        MaxInterval := 30 * Second |} |}.

Lemma Execute_without_attempts_witness :
  exists w1,
    Execute scenario.lib download_503.env task initial_world
    = (Returned (Some (Errorf "failed to copy blob sha256:bbbbb: max retries (-1) exceeded: %!w(<nil>)")),
       w1) /\
    map (fun x => Method (Sent x)) (wire w1) = ["HEAD"].
Proof.
  eexists. split.
  - apply (Execute_without_attempts scenario.lib download_503.env task
             initial_world _ 0 "sha256:bbbbb").
    + vm_compute. discriminate.
    + vm_compute. reflexivity.
    + reflexivity.
  - reflexivity.
Defined.

End no_attempts.

(** ** pkg/sync/engine.go: a blob task that succeeds *)

Module execute_proofs.
Import GoString retry registry engine registry_proofs copy_proofs
       scheduler_proofs.

Ltac returned E :=
  apply ret_inv in E; destruct E as [E ?]; inversion E; subst.

(** From [w] to [w'] the round trips [xs] were made, and nothing was
    taken back. *)
Definition since (w w' : World) (xs : list Exchange) : Prop :=
  wire w' = wire w ++ xs /\ (events w <= events w')%nat.

Lemma since_refl w : since w w [].
Proof. split; [now rewrite app_nil_r | lia]. Qed.

Lemma since_trans w1 w2 w3 xs ys :
  since w1 w2 xs -> since w2 w3 ys -> since w1 w3 (xs ++ ys).
Proof.
  intros [Hw He] [Hw' He']. split; [| lia].
  now rewrite Hw', Hw, app_assoc.
Qed.

Lemma since_exchanges xs w : since w (add_exchanges xs w) xs.
Proof.
  split; [reflexivity |]. unfold events, add_exchanges. cbn.
  rewrite length_app. lia.
Qed.

Lemma since_sleep d w : since w (add_sleep d w) [].
Proof.
  split; [cbn; now rewrite app_nil_r |]. unfold events, add_sleep. cbn.
  rewrite length_app. lia.
Qed.

Section Engine.
Context (lib : Lib) (env : Env).

(** A context that is alive has been alive before. *)
Lemma alive_before w w' :
  ctx_Err env w' = None -> (events w <= events w')%nat -> ctx_Err env w = None.
Proof.
  unfold ctx_Err. destruct (cancel_after env) as [[n e] |]; [| reflexivity].
  destruct (Nat.leb_spec n (events w')); [discriminate |]. intros _ Hle.
  destruct (Nat.leb_spec n (events w)); [lia | reflexivity].
Qed.

(** Among [xs] there is an answer that confirms the blob of the task. *)
Definition confirmed (target : Client) (targetRepo digest : string)
           (xs : list Exchange) : Prop :=
  exists x, In x xs /\ confirms lib target targetRepo digest x.

Lemma confirmed_app_l target repo digest xs ys :
  confirmed target repo digest xs -> confirmed target repo digest (xs ++ ys).
Proof. intros (x & Hx & Hc). exists x. split; [apply in_or_app; now left | exact Hc]. Qed.

Lemma confirmed_app_r target repo digest xs ys :
  confirmed target repo digest ys -> confirmed target repo digest (xs ++ ys).
Proof. intros (x & Hx & Hc). exists x. split; [apply in_or_app; now right | exact Hc]. Qed.

Lemma ends_with_confirmed target repo digest xs :
  ends_with xs (confirms lib target repo digest) -> confirmed target repo digest xs.
Proof.
  intros (pre & x & -> & Hx). exists x. split; [| exact Hx].
  apply in_or_app. right. now left.
Qed.

Lemma retry_copy_confirmed config source target sourceRepo targetRepo digest
      size (n : nat) :
  forall attempt backoff lastErr w w',
    retry_loop (text lib) (after env) config
               (CopyBlob lib env source target sourceRepo targetRepo digest size)
               n attempt backoff lastErr w
    = (Returned None, w') ->
    exists xs, since w w' xs /\ confirmed target targetRepo digest xs.
Proof.
  induction n as [| n IH]; intros attempt backoff lastErr w w' E.
  - cbn [retry_loop] in E. unfold ret in E. inversion E.
  - rewrite retry_proofs.retry_loop_S in E.
    destruct (CopyBlob_spec lib env source target sourceRepo targetRepo digest
                            size w) as (r & xs & Ecopy & Hconf).
    rewrite (bind_returned _ _ _ _ _ Ecopy) in E.
    destruct r as [e |].
    + destruct (negb (isRetryableError (text lib) (Some e)));
        [unfold ret in E; inversion E |].
      destruct (attempt >=? MaxAttempts config);
        [unfold ret in E; inversion E |].
      unfold bind at 1 in E. unfold after at 1 in E.
      destruct (ctx_Err env (add_exchanges xs w));
        [unfold ret in E; inversion E |].
      apply IH in E. destruct E as (ys & Hsince & Hys).
      exists (xs ++ ys). split.
      * eapply since_trans; [apply since_exchanges |].
        replace ys with ([] ++ ys) by reflexivity.
        eapply since_trans; [apply since_sleep | exact Hsince].
      * now apply confirmed_app_r.
    + unfold ret in E. inversion E; subst.
      exists xs. split; [apply since_exchanges |].
      apply ends_with_confirmed. now apply Hconf.
Qed.

Lemma Execute_confirmed (t : BlobSyncTask) w w' :
  Execute lib env t w = (Returned None, w') ->
  exists xs, since w w' xs /\
             confirmed (Target t) (TargetRepo t) (Digest t) xs.
Proof.
  unfold Execute. intros E.
  destruct (BlobExists_spec lib env (Target t) (TargetRepo t) (Digest t) w)
    as (r & xs & Ehead & Hyes & _).
  rewrite (bind_returned _ _ _ _ _ Ehead) in E.
  destruct r as [[exists_ n] | err]; [| unfold ret in E; inversion E].
  destruct exists_.
  - unbind E as d w1 Hd. returned E.
    unfold eval in Hd. inversion Hd; subst.
    exists xs. split; [apply since_exchanges |].
    destruct (Hyes n eq_refl) as (pre & x & -> & Hx).
    exists x. split; [apply in_or_app; right; now left | now left].
  - unbind E as d w1 Hd. unfold eval in Hd. inversion Hd; subst w1. clear Hd.
    unbind E as err w2 Hretry.
    destruct err as [err |].
    + unbind E as d' w3 Hd'. returned E.
    + unbind E as d' w3 Hd'. returned E.
      unfold eval in Hd'. inversion Hd'; subst.
      unfold RetryWithBackoff in Hretry.
      apply retry_copy_confirmed in Hretry.
      destruct Hretry as (ys & Hsince & Hys).
      exists (xs ++ ys). split.
      * eapply since_trans; [apply since_exchanges | exact Hsince].
      * now apply confirmed_app_r.
Qed.

(** X30.  When [Execute] returns nil, the round trips it made hold an
    answer of the target that confirms the blob of the task: 200 to the
    existence check, 201 to the mount request, or 201 to the PUT that
    completes the upload of that digest.  Whatever the retries, a blob
    task reports no success that the target has not acknowledged. *)
Theorem Execute_success_is_confirmed (t : BlobSyncTask) w w' :
  Execute lib env t w = (Returned None, w') ->
  exists xs x,
    wire w' = wire w ++ xs /\ In x xs /\
    confirms lib (Target t) (TargetRepo t) (Digest t) x.
Proof.
  intros E. apply Execute_confirmed in E.
  destruct E as (xs & [Hwire _] & x & Hx & Hc).
  now exists xs, x.
Qed.

End Engine.

(** The target lacks the layer, at the existence check of the task and
    at that of [CopyBlob], and does not mount it; the source serves it,
    and the target takes the upload. *)
Definition routes : list scenario.route :=
  [ ("HEAD", "https://target.example/v2/mirror/nginx/blobs/"
             +:+ scenario.layer_digest, (404, [], ""));
    ("GET", "https://source.example/v2/library/nginx/blobs/"
            +:+ scenario.layer_digest,
     (200, [("Content-Length", "11")], "layer bytes")) ]
  ++ upload.routes.

Definition task : BlobSyncTask :=
  {| Source := scenario.source; Target := scenario.target;
     SourceRepo := "library/nginx"; TargetRepo := "mirror/nginx";
     Digest := scenario.layer_digest; Size := 11;
     RetryConfig_ := DefaultRetryConfig |}.

Definition copied : outcome (option error) * World :=
  Execute scenario.lib (scenario.quiet (fun _ => scenario.serve routes))
          task initial_world.

Lemma copied_returns :
  Execute scenario.lib (scenario.quiet (fun _ => scenario.serve routes))
          task initial_world
  = (Returned None, snd copied).
Proof. vm_compute. reflexivity. Defined.

Lemma Execute_success_is_confirmed_witness :
  exists xs x,
    wire (snd copied) = wire initial_world ++ xs /\ In x xs /\
    confirms scenario.lib scenario.target "mirror/nginx"
             scenario.layer_digest x.
Proof.
  exact (Execute_success_is_confirmed
           scenario.lib (scenario.quiet (fun _ => scenario.serve routes))
           task initial_world (snd copied) copied_returns).
Defined.

(** In that run the blob is looked for twice, the mount is tried, and
    the blob is fetched and uploaded. *)
Example copied_round_trips :
  map (fun x => (Method (Sent x), status x)) (wire (snd copied))
  = [("HEAD", Some 404); ("HEAD", Some 404); ("POST", Some 202);
     ("GET", Some 200); ("POST", Some 202); ("PATCH", Some 202);
     ("PUT", Some 201)].
Proof. vm_compute. reflexivity. Qed.

End execute_proofs.

(** ** Runs of the general results above *)

Module kept_runs.
Import GoString registry registry_proofs models scheduler.

(** The source serves the manifest of [library/nginx:1.25.0]. *)
Definition fetched : outcome (result Manifest.t) * World :=
  GetManifest scenario.lib rule_run.shared_env scenario.source
              "library/nginx" "1.25.0" initial_world.

Definition manifest : Manifest.t :=
  match fst fetched with
  | Returned (Ok m) => m
  | _ => scenario.nginx_parsed
  end.

Lemma fetched_returns :
  GetManifest scenario.lib rule_run.shared_env scenario.source
              "library/nginx" "1.25.0" initial_world
  = (Returned (Ok manifest), snd fetched).
Proof. vm_compute. reflexivity. Defined.

Lemma manifest_bytes_preserved_witness :
  exists pre answer resp r xs,
    snd fetched = add_exchanges (pre ++ [answer]) initial_world /\
    Method (Sent answer) = "GET" /\
    URL (Sent answer)
    = BaseURL scenario.source +:+ manifest_path "library/nginx" "1.25.0" /\
    Reply (Got answer) = Ok resp /\
    StatusCode resp = StatusOK /\
    PutManifest scenario.lib rule_run.shared_env scenario.target
                "mirror/nginx" "1.25.0" manifest (snd fetched)
    = (Returned r, add_exchanges xs (snd fetched)) /\
    (Limiter_Wait rule_run.shared_env scenario.target (snd fetched)
     = (Returned None, snd fetched) ->
     ready scenario.lib rule_run.shared_env "PUT"
           (BaseURL scenario.target
            +:+ manifest_path "mirror/nginx" "1.25.0")
           (snd fetched) ->
     xs <> []) /\
    (forall x rest, xs = x :: rest ->
       Method (Sent x) = "PUT" /\
       URL (Sent x)
       = BaseURL scenario.target +:+ manifest_path "mirror/nginx" "1.25.0" /\
       Body (Sent x) = RespBody resp /\
       Header (Sent x) = [("Content-Type", Manifest.MediaType manifest)] /\
       (status x <> Some StatusUnauthorized -> rest = [])).
Proof.
  exact (registry_proofs.manifest_bytes_preserved
           scenario.lib rule_run.shared_env scenario.source scenario.target
           "library/nginx" "1.25.0" "mirror/nginx" initial_world
           manifest (snd fetched) fetched_returns).
Defined.


(** *** Task 1, started twice *)

(** The execution that [ExecuteTask] creates for task 1 as row [id]. *)
Definition row (id : N) (now : Z) (status : ExecutionStatus) : Execution.t :=
  {| Execution.ID := id;
     Execution.TaskID := 1;
     Execution.Status := status;
     Execution.StartTime := now;
     Execution.EndTime := None;
     Execution.TotalBlobs := 0;
     Execution.SyncedBlobs := 0;
     Execution.SkippedBlobs := 0;
     Execution.FailedBlobs := 0;
     Execution.TotalSize := 0;
     Execution.SyncedSize := 0;
     Execution.ErrorMessage := "" |}.

Definition state (s : Scheduler) (calls : list running_inv.call)
           (routines : list running_inv.routine) : running_inv.Config :=
  {| running_inv.sched := s; running_inv.calls := calls;
     running_inv.routines := routines |}.

(** The table after one and after two executions were created. *)
Definition one_row : Scheduler :=
  fst (create_execution rule_run.store NewScheduler 1 0 None).

Definition two_rows : Scheduler :=
  fst (create_execution rule_run.store one_row 1 0 None).

(** One call after the other: task 1 is started, its goroutine saves a
    final record and leaves, and task 1 is started again. *)
Definition once : running_inv.Config :=
  state (register one_row 1 (row 1 0 StatusRunning)) []
         [running_inv.live 1 1].

Definition ended : running_inv.Config :=
  state (forget (save (running_inv.sched once) (row 1 0 StatusSuccess)) 1)
         [] [].

Definition next_row : Scheduler :=
  fst (create_execution rule_run.store (running_inv.sched ended) 1 5 None).

Definition again : running_inv.Config :=
  state (register next_row 1 (row 2 5 StatusRunning)) []
         [running_inv.live 1 2].





(** In that run the first execution has ended and the second is the one
    that runs. *)
Example again_runs_the_second :
  map (fun e => (Execution.ID e, Execution.Status e))
      (executions (running_inv.sched again))
  = [(1%N, StatusSuccess); (2%N, StatusRunning)].
Proof. vm_compute. reflexivity. Qed.

(** Two calls that overlap: both check [running] before either has
    entered it. *)
Definition both_checked : running_inv.Config :=
  state NewScheduler [running_inv.checked 1; running_inv.checked 1] [].

Definition both_created : running_inv.Config :=
  state two_rows [running_inv.created 1 (row 1 0 StatusRunning);
                   running_inv.created 1 (row 2 0 StatusRunning)] [].

Definition both_started : running_inv.Config :=
  state (register (register two_rows 1 (row 1 0 StatusRunning))
                   1 (row 2 0 StatusRunning))
         [] [running_inv.live 1 1; running_inv.live 1 2].

Lemma both_checked_reachable :
  running_inv.reachable true rule_run.store both_checked.
Proof.
  apply running_inv.reachable_step
    with (c := state NewScheduler [running_inv.checked 1] []).
  - apply running_inv.reachable_step with (c := running_inv.start).
    + apply running_inv.reachable_start.
    + apply (running_inv.step_check true rule_run.store running_inv.start 1);
        [now left | reflexivity].
  - apply (running_inv.step_check true rule_run.store
             (state NewScheduler [running_inv.checked 1] []) 1);
      [now left | reflexivity].
Qed.

Lemma both_created_reachable :
  running_inv.reachable true rule_run.store both_created.
Proof.
  apply running_inv.reachable_step
    with (c := state one_row [running_inv.created 1 (row 1 0 StatusRunning);
                               running_inv.checked 1] []).
  - apply running_inv.reachable_step with (c := both_checked).
    + apply both_checked_reachable.
    + apply (running_inv.step_create true rule_run.store both_checked
               [] [running_inv.checked 1] 1 0 None one_row
               (row 1 0 StatusRunning)); reflexivity.
  - apply (running_inv.step_create true rule_run.store
             (state one_row [running_inv.created 1 (row 1 0 StatusRunning);
                              running_inv.checked 1] [])
             [running_inv.created 1 (row 1 0 StatusRunning)] [] 1 0 None
             two_rows (row 2 0 StatusRunning)); reflexivity.
Qed.

Lemma both_started_reachable :
  running_inv.reachable true rule_run.store both_started.
Proof.
  apply running_inv.reachable_step
    with (c := state (register two_rows 1 (row 1 0 StatusRunning))
                      [running_inv.created 1 (row 2 0 StatusRunning)]
                      [running_inv.live 1 1]).
  - apply running_inv.reachable_step with (c := both_created).
    + apply both_created_reachable.
    + apply (running_inv.step_register true rule_run.store both_created
               [] [running_inv.created 1 (row 2 0 StatusRunning)] 1
               (row 1 0 StatusRunning)).
      reflexivity.
  - apply (running_inv.step_register true rule_run.store
             (state (register two_rows 1 (row 1 0 StatusRunning))
                     [running_inv.created 1 (row 2 0 StatusRunning)]
                     [running_inv.live 1 1])
             [] [] 1 (row 2 0 StatusRunning)).
    reflexivity.
Qed.

(** X31.  Two calls of [ExecuteTask] for task 1 that overlap, nobody
    cancelling: both find no entry in [running], both create their
    execution, both enter the map and start their goroutine.  Two
    executions of the task hold status [running], and the map keeps the
    cancel function of the second only. *)
Theorem overlapping_calls_both_start :
  running_inv.reachable true rule_run.store both_started /\
  running_inv.calls both_started = [] /\
  running_inv.routines both_started
  = [running_inv.live 1 1; running_inv.live 1 2] /\
  map Execution.ID (running_executions (running_inv.sched both_started) 1)
  = [1%N; 2%N] /\
  running (running_inv.sched both_started) !! 1%N = Some 2%N.
Proof.
  split; [apply both_started_reachable |].
  split; [reflexivity |]. split; [reflexivity |].
  split; vm_compute; reflexivity.
Qed.

End kept_runs.
